(** * newsfetcher: link discovery, pagination, normalization and result filter

    A shallow embedding of the crawler (services/crawler_service.py), the
    extraction pipeline (services/mistral_service.py), the configuration of
    the sources (core/categories.py) and the request handler with its result
    filter (routers/news.py), followed by the properties proved about them.

    Python values are embedded as follows.
    - A [str] is the list of its Unicode code points, so [length] is Python's
      [len] and slicing is [take]/[drop].
    - A [set] of strings is a [gset], a [dict] with string keys is a [gmap];
      the query dictionary of [parse_qs], whose order is observable, is an
      association list.
    - A raised exception is the [Raise] case of [Res]; the renderer and the
      extraction model are oracles, and every call to them and every sleep is
      logged in a [World] that is threaded through the code. *)

From Stdlib Require Import ZArith NArith Ascii DecimalString Floats.SpecFloat.
From stdpp Require Import base option list strings gmap.

Local Open Scope Z_scope.

Set Warnings "-abstract-large-number".

(** * Part I: the embedding *)

(** ** Python strings *)

Module Py.

Abbreviation char := N (only parsing).
Abbreviation str := (list N) (only parsing).

(** Code points of a literal written in UTF-8 (well-formed input). *)
Fixpoint utf8_decode (bs : list N) (need : nat) (acc : N) : str :=
  match bs with
  | [] => []
  | b :: r =>
      match need with
      | O =>
          if (b <? 128)%N then b :: utf8_decode r 0 0%N
          else if (b <? 224)%N then utf8_decode r 1 (N.land b 31)
          else if (b <? 240)%N then utf8_decode r 2 (N.land b 15)
          else utf8_decode r 3 (N.land b 7)
      | S O => (acc * 64 + N.land b 63)%N :: utf8_decode r 0 0%N
      | S k => utf8_decode r k (acc * 64 + N.land b 63)%N
      end
  end.

Definition py (s : string) : str :=
  utf8_decode (N_of_ascii <$> String.list_ascii_of_string s) 0 0%N.

Definition chr (a : ascii) : char := N_of_ascii a.

Arguments py : simpl never.
Arguments chr : simpl never.

Definition eqc (a b : char) : bool := (a =? b)%N.

Definition str_eqb (s t : str) : bool := bool_decide (s = t).

(** [bool(s)] for a string. *)
Definition nonempty (s : str) : bool :=
  match s with [] => false | _ => true end.

Fixpoint take_while (p : char → bool) (s : str) : str :=
  match s with
  | c :: r => if p c then c :: take_while p r else []
  | [] => []
  end.

Fixpoint drop_while (p : char → bool) (s : str) : str :=
  match s with
  | c :: r => if p c then drop_while p r else s
  | [] => []
  end.

(** [str.isspace] on one code point (Py_UNICODE_ISSPACE). *)
Definition isspace (c : char) : bool :=
  ((9 <=? c) && (c <=? 13) || (28 <=? c) && (c <=? 32)
   || (c =? 133) || (c =? 160) || (c =? 5760)
   || (8192 <=? c) && (c <=? 8202)
   || (c =? 8232) || (c =? 8233) || (c =? 8239) || (c =? 8287)
   || (c =? 12288))%N.

Definition lstrip (s : str) : str := drop_while isspace s.
Definition rstrip (s : str) : str := reverse (drop_while isspace (reverse s)).
(** [s.strip()] *)
Definition strip (s : str) : str := rstrip (lstrip s).

(** [s.startswith(p)] *)
Fixpoint startswith (p s : str) : bool :=
  match p, s with
  | [], _ => true
  | a :: p', b :: s' => eqc a b && startswith p' s'
  | _ :: _, [] => false
  end.

(** [s.endswith(p)] *)
Definition endswith (p s : str) : bool := startswith (reverse p) (reverse s).

(** [c in s] for a one-character string [c]. *)
Definition has_char (c : char) (s : str) : bool := existsb (eqc c) s.

(** [sub in s] *)
Fixpoint contains (sub s : str) : bool :=
  startswith sub s ||
  match s with
  | [] => false
  | _ :: r => contains sub r
  end.

(** [s.split(c)[0]]: the part of [s] before the first [c]. *)
Definition before (c : char) (s : str) : str :=
  take_while (λ x, negb (eqc c x)) s.

(** [s.split(c, 1)[1]] when [c in s]: the part after the first [c]. *)
Definition after (c : char) (s : str) : str :=
  drop 1 (drop_while (λ x, negb (eqc c x)) s).

(** [s.split(c)] *)
Fixpoint split (c : char) (s : str) : list str :=
  match s with
  | [] => [[]]
  | x :: r =>
      if eqc c x then [] :: split c r
      else match split c r with
           | w :: ws => (x :: w) :: ws
           | [] => [[x]]
           end
  end.

(** [sep.join(l)] *)
Fixpoint join (sep : str) (l : list str) : str :=
  match l with
  | [] => []
  | [x] => x
  | x :: r => x ++ sep ++ join sep r
  end.

(** [s.replace(a, b)] for one-character strings. *)
Definition replace_char (a b : char) (s : str) : str :=
  (λ x, if eqc a x then b else x) <$> s.

(** [s.replace(a, "")] for a one-character string [a]. *)
Definition remove_char (a : char) (s : str) : str :=
  filter (λ x, x ≠ a) s.

(** [s <= t]: Python compares strings code point by code point. *)
Fixpoint str_le (s t : str) : bool :=
  match s, t with
  | [], _ => true
  | _ :: _, [] => false
  | a :: s', b :: t' => (a <? b)%N || (a =? b)%N && str_le s' t'
  end.

(** [str(n)] for an [int]. *)
Definition str_of_int (n : Z) : str :=
  py (NilZero.string_of_int (Z.to_int n)).

Definition is_ascii_upper (c : char) : bool := ((65 <=? c) && (c <=? 90))%N.
Definition is_ascii_lower (c : char) : bool := ((97 <=? c) && (c <=? 122))%N.
Definition is_ascii_alpha (c : char) : bool := is_ascii_upper c || is_ascii_lower c.
Definition is_ascii_digit (c : char) : bool := ((48 <=? c) && (c <=? 57))%N.

(** [s.lower()] on a string of ASCII characters. *)
Definition ascii_lower (s : str) : str :=
  (λ c, if is_ascii_upper c then (c + 32)%N else c) <$> s.

(** [range(a, b)] *)
Definition range (a b : Z) : list Z :=
  (λ i : nat, a + Z.of_nat i) <$> seq 0 (Z.to_nat (b - a)).

(** [l[:n]] for a Python [int] [n], negative values counting from the end. *)
Definition slice_to {A} (n : Z) (l : list A) : list A :=
  if 0 <=? n then take (Z.to_nat n) l
  else take (Z.to_nat (Z.of_nat (length l) + n)) l.

End Py.
Import Py.

(** ** Exceptions *)

(** An exception: the name of its class and the text of [str(e)]. *)
Inductive exn : Type := Exn (ty : string) (msg : str).

Definition exn_msg (e : exn) : str := let 'Exn _ m := e in m.

(** The outcome of a computation that may raise. *)
Inductive Res (A : Type) : Type :=
| Ok (a : A)
| Raise (e : exn).
Arguments Ok {A} a.
Arguments Raise {A} e.

#[global] Instance Res_ret : MRet Res := λ A a, Ok a.
#[global] Instance Res_bind : MBind Res :=
  λ A B f m, match m with Ok a => f a | Raise e => Raise e end.

Definition ValueError (m : string) : exn := Exn "ValueError" (py m).
Definition TypeError (m : string) : exn := Exn "TypeError" (py m).
Definition AttributeError (m : string) : exn := Exn "AttributeError" (py m).

(** ** urllib.parse (CPython 3.12), as far as the crawler calls it *)

Module urllib.

Record SplitResult : Type := mkSplit {
  s_scheme : str; s_netloc : str; s_path : str; s_query : str; s_fragment : str }.

Record ParseResult : Type := mkParse {
  scheme : str; netloc : str; path : str; params : str; query : str; fragment : str }.

(** [parsed._replace(query=q)] *)
Definition replace_query (p : ParseResult) (q : str) : ParseResult :=
  mkParse (scheme p) (netloc p) (path p) (params p) q (fragment p).

Definition uses_params : list str :=
  py <$> [""; "ftp"; "hdl"; "prospero"; "http"; "imap"; "https"; "shttp";
          "rtsp"; "rtspu"; "sip"; "sips"; "mms"; "sftp"; "tel"]%string.

Definition uses_netloc : list str :=
  py <$> [""; "ftp"; "http"; "gopher"; "nntp"; "telnet"; "imap"; "wais";
          "file"; "mms"; "https"; "shttp"; "snews"; "prospero"; "rtsp";
          "rtspu"; "rsync"; "svn"; "svn+ssh"; "sftp"; "nfs"; "git";
          "git+ssh"; "ws"; "wss"; "itms-services"]%string.

(** [_WHATWG_C0_CONTROL_OR_SPACE] *)
Definition c0_or_space (c : char) : bool := (c <=? 32)%N.

(** [_UNSAFE_URL_BYTES_TO_REMOVE]: tab, carriage return, line feed. *)
Definition unsafe_byte (c : char) : bool :=
  ((c =? 9) || (c =? 13) || (c =? 10))%N.

Definition scheme_char (c : char) : bool :=
  is_ascii_alpha c || is_ascii_digit c || has_char c (py "+-.").

Definition netloc_delim (c : char) : bool := has_char c (py "/?#").

Definition is_ascii (s : str) : bool := forallb (λ c, (c <? 128)%N) s.

(** [_splitparams] *)
Definition _splitparams (url : str) : str * str :=
  if has_char (chr "/") url then
    let tail_rev := take_while (λ x, negb (eqc (chr "/") x)) (reverse url) in
    let head := take (length url - S (length tail_rev)) url in
    let tail := drop (length url - S (length tail_rev)) url in
    if has_char (chr ";") tail
    then (head ++ before (chr ";") tail, after (chr ";") tail)
    else (url, [])
  else (before (chr ";") url, after (chr ";") url).

(** [quote_from_bytes] with the safe set of [quote_plus]: one byte. *)
Definition always_safe (b : N) : bool :=
  is_ascii_alpha b || is_ascii_digit b || has_char b (py "_.-~").

Definition hex_digit (n : N) : char :=
  if (n <? 10)%N then (48 + n)%N else (55 + n)%N.

Definition quote_byte (b : N) : str :=
  if always_safe b then [b]
  else if (b =? 32)%N then [chr "+"]
  else [chr "%"; hex_digit (b / 16); hex_digit (b mod 16)].

(** [c.encode("utf-8")] for one code point; surrogates cannot be encoded. *)
Definition utf8_encode_char (c : char) : Res (list N) :=
  if (c <? 128)%N then Ok [c]
  else if (c <? 2048)%N then Ok [192 + c / 64; 128 + c mod 64]%N
  else if (55296 <=? c)%N && (c <=? 57343)%N
       then Raise (Exn "UnicodeEncodeError" (py "surrogates not allowed"))
  else if (c <? 65536)%N
       then Ok [224 + c / 4096; 128 + (c / 64) mod 64; 128 + c mod 64]%N
  else Ok [240 + c / 262144; 128 + (c / 4096) mod 64;
           128 + (c / 64) mod 64; 128 + c mod 64]%N.

Fixpoint utf8_encode (s : str) : Res (list N) :=
  match s with
  | [] => Ok []
  | c :: r => bs ← utf8_encode_char c; rest ← utf8_encode r; mret (bs ++ rest)
  end.

(** [quote_plus(s)] *)
Definition quote_plus (s : str) : Res str :=
  bs ← utf8_encode s; mret (concat (quote_byte <$> bs)).

(** The dictionary of [parse_qs]: keys in order of first appearance. *)
Abbreviation qdict := (list (str * list str)) (only parsing).

Fixpoint qdict_append (k v : str) (d : qdict) : qdict :=
  match d with
  | [] => [(k, [v])]
  | (k', vs) :: r =>
      if str_eqb k k' then (k', vs ++ [v]) :: r else (k', vs) :: qdict_append k v r
  end.

(** [d[k] = vs] *)
Fixpoint qdict_set (k : str) (vs : list str) (d : qdict) : qdict :=
  match d with
  | [] => [(k, vs)]
  | (k', vs') :: r =>
      if str_eqb k k' then (k', vs) :: r else (k', vs') :: qdict_set k vs r
  end.

Fixpoint urlencode_items (k : str) (vs : list str) : Res (list str) :=
  match vs with
  | [] => Ok []
  | elt :: r =>
      e ← quote_plus elt; rest ← urlencode_items k r;
      mret ((k ++ py "=" ++ e) :: rest)
  end.

Fixpoint urlencode_pairs (d : qdict) : Res (list str) :=
  match d with
  | [] => Ok []
  | (k, vs) :: r =>
      k' ← quote_plus k; l ← urlencode_items k' vs; rest ← urlencode_pairs r;
      mret (l ++ rest)
  end.

(** [urlencode(d, doseq=True)] *)
Definition urlencode (d : qdict) : Res str :=
  l ← urlencode_pairs d; mret (join (py "&") l).

(** [urlunsplit] *)
Definition urlunsplit (scheme netloc url query fragment : str) : str :=
  let url :=
    if nonempty netloc
       || (nonempty scheme && bool_decide (scheme ∈ uses_netloc)
           && negb (str_eqb (take 2 url) (py "//")))
    then py "//" ++ netloc
         ++ (if nonempty url && negb (str_eqb (take 1 url) (py "/"))
             then py "/" ++ url else url)
    else url in
  let url := if nonempty scheme then scheme ++ py ":" ++ url else url in
  let url := if nonempty query then url ++ py "?" ++ query else url in
  if nonempty fragment then url ++ py "#" ++ fragment else url.

(** [urlunparse] *)
Definition urlunparse (p : ParseResult) : str :=
  let url := if nonempty (params p) then path p ++ py ";" ++ params p else path p in
  urlunsplit (scheme p) (netloc p) url (query p) (fragment p).

Section Checks.

(** What [urlsplit] checks on a network location that holds a bracket
    pair or a character outside ASCII ([_check_bracketed_netloc] and the
    NFKC test of [_checknetloc]): [Some e] when it raises [e]. *)
Variable netloc_extra_check : str → option exn.

(** [unquote] on a string that holds a percent sign (percent-decoding,
    then UTF-8 decoding with replacement). *)
Variable unquote_percent : str → str.

Definition check_netloc (nl : str) : Res () :=
  let lb := has_char (chr "[") nl in
  let rb := has_char (chr "]") nl in
  if xorb lb rb then Raise (ValueError "Invalid IPv6 URL")
  else if lb || negb (is_ascii nl) then
    match netloc_extra_check nl with
    | Some e => Raise e
    | None => Ok ()
    end
  else Ok ().

(** The first lines of [urlsplit]: leading control characters and spaces
    are stripped, tabs and newlines removed. *)
Definition clean_url (url : str) : str :=
  filter (λ c, negb (unsafe_byte c)) (drop_while c0_or_space url).

(** The scheme, when the text before the first colon is one. *)
Definition split_scheme (url : str) : str * str :=
  let pre := before (chr ":") url in
  if has_char (chr ":") url && nonempty pre
     && match pre with c :: _ => is_ascii_alpha c | [] => false end
     && forallb scheme_char pre
  then (ascii_lower pre, after (chr ":") url)
  else ([], url).

(** [_splitnetloc(url, 2)] when [url] starts with two slashes. *)
Definition split_netloc (url : str) : str * str :=
  if str_eqb (take 2 url) (py "//")
  then (take_while (λ c, negb (netloc_delim c)) (drop 2 url),
        drop_while (λ c, negb (netloc_delim c)) (drop 2 url))
  else ([], url).

(** [urlsplit(url)] *)
Definition urlsplit (url : str) : Res SplitResult :=
  let '(scheme, url) := split_scheme (clean_url url) in
  let '(netloc, url) := split_netloc url in
  check_netloc netloc;;
  let '(url, fragment) :=
    if has_char (chr "#") url
    then (before (chr "#") url, after (chr "#") url) else (url, []) in
  let '(url, query) :=
    if has_char (chr "?") url
    then (before (chr "?") url, after (chr "?") url) else (url, []) in
  mret (mkSplit scheme netloc url query fragment).

(** [urlparse(url)] *)
Definition urlparse (url : str) : Res ParseResult :=
  r ← urlsplit url;
  let '(url, params) :=
    if bool_decide (s_scheme r ∈ uses_params) && has_char (chr ";") (s_path r)
    then _splitparams (s_path r) else (s_path r, []) in
  mret (mkParse (s_scheme r) (s_netloc r) url params (s_query r) (s_fragment r)).

(** [unquote(s)] *)
Definition unquote (s : str) : str :=
  if has_char (chr "%") s then unquote_percent s else s.

(** [parse_qsl(qs)]: blank values are dropped. *)
Definition parse_qsl (qs : str) : list (str * str) :=
  omap (λ name_value,
          if has_char (chr "=") name_value
             && nonempty (after (chr "=") name_value)
          then Some (unquote (replace_char (chr "+") (chr " ") (before (chr "=") name_value)),
                     unquote (replace_char (chr "+") (chr " ") (after (chr "=") name_value)))
          else None)
       (split (chr "&") qs).

(** [parse_qs(qs)] *)
Definition parse_qs (qs : str) : qdict :=
  foldl (λ d '(name, value), qdict_append name value d) [] (parse_qsl qs).

End Checks.

End urllib.
Import urllib.

(** ** The three fixed regular expressions of the crawler *)

Module re.

Definition dquote : char := 34%N.
Definition squote : char := 39%N.
Definition quote_char (c : char) : bool := eqc c dquote || eqc c squote.

(** [re.findall]: matches are tried from left to right and do not overlap.
    [match_at s] is the match that starts at the head of [s], with the
    number of characters it spans; [skip] characters of an earlier match
    are still to be passed over. *)
Fixpoint findall {A} (match_at : str → option (A * nat)) (skip : nat) (s : str)
  : list A :=
  match s with
  | [] => []
  | _ :: r =>
      match skip with
      | S k => findall match_at k r
      | O =>
          match match_at s with
          | Some (g, n) => g :: findall match_at (pred n) r
          | None => findall match_at 0 r
          end
      end
  end.

(** [https?://[^X]+] at the head of [s], where [ok] is the class [[^X]]:
    the greedy run is maximal, so what follows it is outside the class. *)
Definition http_url_at (ok : char → bool) (s : str) : option str :=
  if startswith (py "http") s then
    let r := drop 4 s in
    let r' := if startswith (py "s") r then drop 1 r else r in
    if startswith (py "://") r' then
      let run := take_while ok (drop 3 r') in
      if nonempty run
      then Some (take (length s - length (drop 3 r')) s ++ run)
      else None
    else None
  else None.

(** The pattern [html_pattern] of [extract_article_links] at the head of
    [s]: the text href=, a quote character (double or single), one or more
    characters that are not quote characters (group 1, the target), and a
    quote character. *)
Definition href_at (s : str) : option (str * nat) :=
  if startswith (py "href=") s then
    match drop 5 s with
    | q :: r =>
        let run := take_while (λ c, negb (quote_char c)) r in
        if quote_char q && nonempty run
           && nonempty (drop_while (λ c, negb (quote_char c)) r)
        then Some (run, 7 + length run)%nat
        else None
    | [] => None
    end
  else None.

(** The pattern of [_extract_links_from_html] at the head of [s]: as
    [href_at], but the target must be [https?://] followed by one or more
    characters that are not quote characters; both groups hold the target. *)
Definition href_http_at (s : str) : option ((str * str) * nat) :=
  if startswith (py "href=") s then
    match drop 5 s with
    | q :: r =>
        if quote_char q then
          match http_url_at (λ c, negb (quote_char c)) r with
          | Some url =>
              if nonempty (drop (length url) r)
              then Some ((url, url), 7 + length url)%nat
              else None
          | None => None
          end
        else None
    | [] => None
    end
  else None.

(** The pattern [markdown_pattern] at the head of [s]: an opening square
    bracket, one or more characters other than the closing square bracket
    (group 1), the closing square bracket, an opening parenthesis,
    [https?://] with one or more characters other than the closing
    parenthesis (group 2), and the closing parenthesis. *)
Definition markdown_at (s : str) : option ((str * str) * nat) :=
  match s with
  | c :: r1 =>
      let text := take_while (λ x, negb (eqc (chr "]") x)) r1 in
      let r2 := drop_while (λ x, negb (eqc (chr "]") x)) r1 in
      if eqc (chr "[") c && nonempty text && startswith (py "](") r2 then
        match http_url_at (λ x, negb (eqc (chr ")") x)) (drop 2 r2) with
        | Some url =>
            if nonempty (drop (length url) (drop 2 r2))
            then Some ((text, url), 4 + length text + length url)%nat
            else None
        | None => None
        end
      else None
  | [] => None
  end.

(** *** The other patterns: images and Open Graph tags *)

(** [re.search]: the leftmost position where the pattern matches. *)
Fixpoint search {A} (match_at : str → option A) (s : str) : option A :=
  match match_at s with
  | Some g => Some g
  | None => match s with [] => None | _ :: r => search match_at r end
  end.

(** The pattern of [extract_first_image] at the head of [s]: an exclamation
    mark, an opening square bracket, any characters other than the closing
    square bracket (group 1, possibly empty), the closing square bracket,
    an opening parenthesis, [https?://] with one or more characters other
    than the closing parenthesis (group 2), and the closing parenthesis. *)
Definition image_at (s : str) : option ((str * str) * nat) :=
  match s with
  | c0 :: c1 :: r1 =>
      let alt := take_while (λ x, negb (eqc (chr "]") x)) r1 in
      let r2 := drop_while (λ x, negb (eqc (chr "]") x)) r1 in
      if eqc (chr "!") c0 && eqc (chr "[") c1 && startswith (py "](") r2 then
        match http_url_at (λ x, negb (eqc (chr ")") x)) (drop 2 r2) with
        | Some url =>
            if nonempty (drop (length url) (drop 2 r2))
            then Some ((alt, url), 5 + length alt + length url)%nat
            else None
        | None => None
        end
      else None
  | _ => None
  end.

(** A character [d] of the subject against the character [c] of a pattern
    compiled with [re.IGNORECASE], for [c] a lower-case ASCII letter, a digit
    or a punctuation mark: the two cases of the letter and, for i, s and k,
    the dotted capital and the dotless small i, the long s and the Kelvin
    sign. *)
Definition ci_char (c d : char) : bool :=
  eqc c d
  || (is_ascii_lower c && eqc d (c - 32))
  || (eqc c (chr "i") && (eqc d 304 || eqc d 305))
  || (eqc c (chr "s") && eqc d 383)
  || (eqc c (chr "k") && eqc d 8490).

(** The literal text [p], read without regard to case: what follows it. *)
Fixpoint lit_ci (p s : str) : option str :=
  match p, s with
  | [], _ => Some s
  | c :: p', d :: s' => if ci_char c d then lit_ci p' s' else None
  | _ :: _, [] => None
  end.

(** [\s+], before a character that is no white space: what follows the run. *)
Definition spaces (s : str) : option str :=
  if nonempty (take_while isspace s) then Some (drop_while isspace s) else None.

(** One quote character, double or single. *)
Definition quote (s : str) : option str :=
  match s with
  | q :: r => if quote_char q then Some r else None
  | [] => None
  end.

(** [(https?://[^X]+)] before a quote character, without regard to case,
    [X] being the two quote characters: the group and what follows it. *)
Definition url_ci (s : str) : option (str * str) :=
  r1 ← lit_ci (py "http") s;
  let r2 := match r1 with
            | d :: r => if ci_char (chr "s") d then r else r1
            | [] => r1
            end in
  r3 ← lit_ci (py "://") r2;
  let run := take_while (λ c, negb (quote_char c)) r3 in
  if nonempty run
  then Some (take (length s - length r3) s ++ run,
             drop_while (λ c, negb (quote_char c)) r3)
  else None.

(** An attribute [name] with the quoted value [value]. *)
Definition attr (name value : str) (s : str) : option str :=
  r ← lit_ci name s; r ← lit_ci (py "=") r; r ← quote r;
  r ← lit_ci value r; quote r.

(** The attribute content with a quoted URL: the URL and what follows. *)
Definition content_attr (s : str) : option (str * str) :=
  r ← lit_ci (py "content=") s; r ← quote r;
  '(url, r) ← url_ci r; r ← quote r; Some (url, r).

(** The first two patterns of [extract_og_image] at the head of [s], [name]
    being property or name: the tag opening, white space, the attribute
    [name] with the value og:image, white space, the content. *)
Definition og_name_first (name : str) (s : str) : option str :=
  r ← lit_ci (py "<meta") s; r ← spaces r;
  r ← attr name (py "og:image") r; r ← spaces r;
  '(url, _) ← content_attr r; Some url.

(** The last two patterns: the content comes first. *)
Definition og_content_first (name : str) (s : str) : option str :=
  r ← lit_ci (py "<meta") s; r ← spaces r;
  '(url, r) ← content_attr r; r ← spaces r;
  _ ← attr name (py "og:image") r; Some url.


End re.
Import re.

(** ** The world: what the renderer and the model were asked, and the sleeps *)

Record World : Type := mkWorld {
  requests : list str;     (* URLs handed to the renderer, oldest first *)
  llm_calls : list str;    (* prompts sent to the extraction model *)
  sleeps : list Z          (* seconds slept, oldest first *)
}.

Definition M (A : Type) : Type := World → Res A * World.

#[global] Instance M_ret : MRet M := λ A a w, (Ok a, w).
#[global] Instance M_bind : MBind M :=
  λ A B f m w, match m w with
               | (Ok a, w') => f a w'
               | (Raise e, w') => (Raise e, w')
               end.

(** A pure computation that may raise, run inside [M]. *)
Definition lift {A} (r : Res A) : M A := λ w, (r, w).

Definition raise {A} (e : exn) : M A := λ w, (Raise e, w).

(** [try: ... except Exception as e: ...]: the outcome, handed to the handler. *)
Definition try {A} (m : M A) : M (Res A) := λ w, let '(r, w') := m w in (Ok r, w').

(** [await asyncio.sleep(d)] *)
Definition sleep (d : Z) : M () :=
  λ w, (Ok (), mkWorld (requests w) (llm_calls w) (sleeps w ++ [d])).

(** ** services/crawler_service.py *)

Module crawler_service.

Section Crawler.

Variable netloc_extra_check : str → option exn.
Variable unquote_percent : str → str.

(** Compiled patterns and [bool(re.match(pattern, url))]. *)
Variable pattern : Type.
Variable re_match : pattern → str → bool.

(** The renderer behind [crawl_category_page]: the HTML it returns, or the
    exception it raises, for the [n]-th request of the run. *)
Variable render : nat → str → Res str.

(** The rendering session of [_paginate_inner]: [page.goto], and for the
    [n]-th attempt the search for a trigger followed by the click, the
    settle delay and [page.content()]; [None] when no trigger is found. *)
Variable page_goto : str → Res ().
Variable click_next : nat → list str → Res (option str).

Definition _is_article_url (url : str) (pat : pattern) : bool := re_match pat url.

(** [urlparse(url).netloc] *)
Definition netloc_of (url : str) : Res str :=
  p ← urlparse netloc_extra_check url; mret (netloc p).

(** [url.strip().split('#')[0].split('?')[0]] *)
Definition strip_fragment_query (url : str) : str :=
  before (chr "?") (before (chr "#") (strip url)).

(** Lines 63-69: the absolute URL of a hyperlink target, [None] when the
    loop moves on to the next match. *)
Definition absolute (base_domain url : str) : option str :=
  if negb (nonempty url) || negb (startswith (py "http") url) then
    if startswith (py "/") url
    then Some (py "https://" ++ base_domain ++ url)
    else None
  else Some url.

(** Lines 71-82, shared by both loops: the filters and the update. *)
Definition accept (base_domain : str) (pat : pattern) (url : str)
    (links : list str) (seen : gset str) : Res (list str * gset str) :=
  if bool_decide (url ∈ seen) then mret (links, seen)
  else
    nl ← netloc_of url;
    if negb (str_eqb nl base_domain) then mret (links, seen)
    else if negb (_is_article_url url pat) then mret (links, seen)
    else mret (links ++ [url], {[url]} ∪ seen).

(** The loop over [html_matches]. *)
Fixpoint html_loop (base_domain : str) (pat : pattern) (matches : list str)
    (links : list str) (seen : gset str) : Res (list str * gset str) :=
  match matches with
  | [] => mret (links, seen)
  | url :: rest =>
      match absolute base_domain (strip_fragment_query url) with
      | None => html_loop base_domain pat rest links seen
      | Some url =>
          '(links, seen) ← accept base_domain pat url links seen;
          html_loop base_domain pat rest links seen
      end
  end.

(** The loop over [markdown_matches]. *)
Fixpoint markdown_loop (base_domain : str) (pat : pattern)
    (matches : list (str * str)) (links : list str) (seen : gset str)
  : Res (list str * gset str) :=
  match matches with
  | [] => mret (links, seen)
  | (text, url) :: rest =>
      '(links, seen) ← accept base_domain pat (strip_fragment_query url) links seen;
      markdown_loop base_domain pat rest links seen
  end.

Definition extract_article_links (html base_url : str) (article_pattern : pattern)
  : Res (list str) :=
  base_domain ← netloc_of base_url;
  '(links, seen) ← html_loop base_domain article_pattern (findall href_at 0 html) [] ∅;
  '(links, seen) ←
    (if negb (bool_decide (links = []))
     then mret (links, seen)
     else markdown_loop base_domain article_pattern
            (findall markdown_at 0 html) links seen);
  mret links.

(** The loop of [_extract_links_from_html] over the matches. *)
Fixpoint links_loop (base_domain : str) (article_pattern : pattern)
    (matches : list (str * str)) (links : gset str) : Res (gset str) :=
  match matches with
  | [] => mret links
  | (url, _) :: rest =>
      let url := before (chr "#") (strip url) in
      nl ← netloc_of url;
      if negb (str_eqb nl base_domain)
      then links_loop base_domain article_pattern rest links
      else if negb (_is_article_url url article_pattern)
      then links_loop base_domain article_pattern rest links
      else links_loop base_domain article_pattern rest ({[url]} ∪ links)
  end.

Definition _extract_links_from_html (html base_domain : str) (article_pattern : pattern)
  : Res (gset str) :=
  links_loop base_domain article_pattern (findall href_http_at 0 html) ∅.

Definition _build_paginated_url (base_url pagination_param : str) (page_number : Z)
  : Res str :=
  parsed ← urlparse netloc_extra_check base_url;
  let params := parse_qs unquote_percent (query parsed) in
  let params := qdict_set pagination_param [str_of_int page_number] params in
  new_query ← urlencode params;
  mret (urlunparse (replace_query parsed new_query)).

(** [await crawl_category_page(url)] *)
Definition crawl_category_page (url : str) : M str :=
  λ w, (render (length (requests w)) url,
        mkWorld (requests w ++ [url]) (llm_calls w) (sleeps w)).

(** Lines 481-486: the new links are appended in order; [added] counts them. *)
Fixpoint merge_new (new_links all_links : list str) (seen : gset str) (added : Z)
  : list str * gset str * Z :=
  match new_links with
  | [] => (all_links, seen, added)
  | link :: rest =>
      if bool_decide (link ∈ seen)
      then merge_new rest all_links seen added
      else merge_new rest (all_links ++ [link]) ({[link]} ∪ seen) (added + 1)
  end.

(** The loop of [_paginate_by_url] over the page numbers still to try. *)
Fixpoint paginate_loop (base_url : str) (needed : Z) (article_pattern : pattern)
    (pagination_param : str) (pages : list Z) (all_links : list str)
    (seen : gset str) : M (list str) :=
  match pages with
  | [] => mret all_links
  | page_num :: rest =>
      if Z.of_nat (length all_links) >=? needed then mret all_links
      else
        paginated_url ← lift (_build_paginated_url base_url pagination_param page_num);
        r ← try (html ← crawl_category_page paginated_url;
                 lift (extract_article_links html base_url article_pattern));
        match r with
        | Raise _ => mret all_links
        | Ok new_links =>
            let '(all_links, seen, added) := merge_new new_links all_links seen 0 in
            if added =? 0 then mret all_links
            else paginate_loop base_url needed article_pattern pagination_param
                   rest all_links seen
        end
  end.

Definition _paginate_by_url (base_url : str) (needed : Z) (already_found : list str)
    (article_pattern : pattern) (pagination_param : str) (max_pages : Z)
  : M (list str) :=
  paginate_loop base_url needed article_pattern pagination_param
    (range 2 (max_pages + 2)) already_found (list_to_set already_found).

(** The loop of [_paginate_inner] over the attempts still to make. *)
Fixpoint interactive_loop (needed : Z) (base_domain : str) (article_pattern : pattern)
    (custom_buttons : list str) (attempts : list Z) (all_links : gset str)
  : Res (gset str) :=
  match attempts with
  | [] => mret all_links
  | attempt :: rest =>
      if Z.of_nat (size all_links) >=? needed then mret all_links
      else
        next ← click_next (Z.to_nat attempt) custom_buttons;
        match next with
        | None => mret all_links
        | Some html_content =>
            new_links ← _extract_links_from_html html_content base_domain article_pattern;
            interactive_loop needed base_domain article_pattern custom_buttons
              rest (all_links ∪ new_links)
        end
  end.

(** [_paginate_inner]; the order of [list(all_links)] is that of
    [elements], and the launch of the browser is taken to succeed. *)
Definition _paginate_inner (url : str) (needed : Z) (already_found : list str)
    (base_url : str) (article_pattern : pattern) (custom_buttons : list str)
  : Res (list str) :=
  let all_links : gset str := list_to_set already_found in
  base_domain ← netloc_of base_url;
  match page_goto url with
  | Raise _ => mret (elements all_links)
  | Ok _ =>
      all_links ← interactive_loop needed base_domain article_pattern
                    custom_buttons (range 0 10) all_links;
      mret (elements all_links)
  end.

End Crawler.

End crawler_service.

(** ** Python values held by the article dictionaries *)

#[warnings="-register-all"]
Inductive pyval : Type :=
| PNone
| PBool (b : bool)
| PInt (z : Z)
| PFloat (f : spec_float)
| PStr (s : str)
| PList (l : list pyval)
| PDict (d : gmap str pyval).

Abbreviation dict := (gmap str pyval) (only parsing).

(** [bool(v)] *)
Definition truthy (v : pyval) : bool :=
  match v with
  | PNone => false
  | PBool b => b
  | PInt z => negb (z =? 0)
  | PFloat f => match f with S754_zero _ => false | _ => true end
  | PStr s => nonempty s
  | PList l => match l with [] => false | _ => true end
  | PDict d => negb (Nat.eqb (size d) 0)
  end.

(** [d.get(k)]: [None] of Python is [PNone]. *)
Definition dict_get (k : string) (d : dict) : pyval := default PNone (d !! py k).

(** [d.get(k, v)] *)
Definition dict_get_default (k : string) (v : pyval) (d : dict) : pyval :=
  default v (d !! py k).

(** A value of type [str | None]. *)
Definition of_option (o : option str) : pyval :=
  match o with Some s => PStr s | None => PNone end.

(** ** services/mistral_service.py *)

Module mistral_service.

(** The three literal parts of [EXTRACTION_PROMPT_TEMPLATE] around the two
    fields; the double quotes of the template are written ^ below. *)
Definition template_head : str := replace_char (chr "^") dquote (py
"You are a precise news article extraction tool.

**CRITICAL RULES:**
1. Extract the publication date in YYYY-MM-DD format. Look for dates in:
   - Article metadata
   - URLs (e.g., /2026/01/31/)
   - Timestamps in the text
   - If you find ANY date reference, extract it. DO NOT return null unless absolutely no date exists.

2. Content must be EXACTLY 1500 characters or less. If longer, intelligently summarize the key points.

3. Return ONLY valid JSON. No markdown, no explanations, no code blocks.

**Required JSON format:**
{
  ^title^: ^Article title here^,
  ^content^: ^Cleaned article text, max 1500 chars^,
  ^date_of_publication^: ^YYYY-MM-DD or null^,
  ^language^: ^uz/ru/en^
}

**Text cleaning:**
- Remove navigation, ads, footers, cookie banners, social media
- Keep only the article title and main body
- Fix any encoding/formatting issues

**URL hint for date extraction:**
Source URL: ").

Definition template_mid : str := py "

**Raw text:**
---
".

Definition template_tail : str := py "
---

JSON:".

(** [EXTRACTION_PROMPT_TEMPLATE.format(raw_text=..., source_url=...)] *)
Definition format_prompt (raw_text source_url : str) : str :=
  template_head ++ source_url ++ template_mid ++ raw_text ++ template_tail.

Definition fence : str := py "```".

(** The raw article dictionaries built by the crawler. *)
Record raw_article : Type := mkRaw {
  url : str; raw_text : str; image_url : option str; source_name : str }.

Section Mistral.

(** The extraction model: the answer to the [n]-th call of the run, or
    the exception raised by the client. *)
Variable mistral : nat → str → Res str.

(** [json.loads]; [None] stands for [json.JSONDecodeError]. *)
Variable json_loads : str → option pyval.

(** [str.lower] *)
Variable lower : str → str.

(** The class [\d] of the [re] module on [str] patterns. *)
Variable re_digit : char → bool.

(** [await asyncio.to_thread(_call_mistral_sync, prompt)] *)
Definition _call_mistral_sync (prompt : str) : M str :=
  λ w, (mistral (length (llm_calls w)) prompt,
        mkWorld (requests w) (llm_calls w ++ [prompt]) (sleeps w)).

(** The test of line 65 on [str(e)]. *)
Definition is_rate_limit (error_msg : str) : bool :=
  contains (py "429") error_msg || contains (py "rate_limit") (lower error_msg).

Definition exhausted : exn :=
  Exn "Exception" (py "Mistral: исчерпаны все попытки retry").

(** The loop of [_call_mistral_with_retry] over the attempts still to make. *)
Fixpoint retry_loop (prompt : str) (attempts : list Z) : M str :=
  match attempts with
  | [] => raise exhausted
  | attempt :: rest =>
      r ← try (_call_mistral_sync prompt);
      match r with
      | Ok result => mret result
      | Raise e =>
          if is_rate_limit (exn_msg e)
          then sleep (2 ^ (attempt + 1));; retry_loop prompt rest
          else raise e
      end
  end.

Definition _call_mistral_with_retry (prompt : str) (max_retries : Z) : M str :=
  retry_loop prompt (range 0 max_retries).

(** The pattern of [_extract_date_from_url] at the head of [s]. *)
Definition date_at (s : str) : option (str * str * str) :=
  match s with
  | s0 :: y1 :: y2 :: y3 :: y4 :: s1 :: m1 :: m2 :: s2 :: d1 :: d2 :: s3 :: _ =>
      if eqc (chr "/") s0 && eqc (chr "/") s1 && eqc (chr "/") s2 && eqc (chr "/") s3
         && forallb re_digit [y1; y2; y3; y4; m1; m2; d1; d2]
      then Some ([y1; y2; y3; y4], [m1; m2], [d1; d2])
      else None
  | _ => None
  end.

(** [re.search]: the leftmost match. *)
Fixpoint date_search (s : str) : option (str * str * str) :=
  match date_at s with
  | Some g => Some g
  | None => match s with [] => None | _ :: r => date_search r end
  end.

Definition _extract_date_from_url (url : str) : option str :=
  match date_search url with
  | Some (year, month, day) => Some (year ++ py "-" ++ month ++ py "-" ++ day)
  | None => None
  end.

(** Lines 143-150: the text handed to [json.loads]. *)
Definition unfence (response_text : str) : str :=
  let text := strip response_text in
  let text := if startswith (fence ++ py "json") text then drop 7 text else text in
  let text := if startswith fence text then drop 3 text else text in
  let text := if endswith fence text then take (length text - 3) text else text in
  strip text.

Definition _parse_mistral_response (response_text : str) : Res (option dict) :=
  if negb (nonempty response_text) then mret None
  else
    match json_loads (unfence response_text) with
    | None => mret None
    | Some (PDict data) =>
        if negb (truthy (dict_get "title" data)) || negb (truthy (dict_get "content" data))
        then mret None
        else
          match dict_get "content" data with
          | PStr content =>
              if (length (strip content) <? 50)%nat then mret None
              else mret (Some
                (<[py "title" := dict_get_default "title" (PStr []) data]>
                 (<[py "content" := dict_get_default "content" (PStr []) data]>
                  (<[py "date_of_publication" := dict_get "date_of_publication" data]>
                   (<[py "language" := dict_get_default "language" (PStr (py "unknown")) data]>
                    ∅)))))
          | _ => Raise (AttributeError "object has no attribute 'strip'")
          end
    | Some _ => Raise (AttributeError "object has no attribute 'get'")
    end.

(** Lines 109-122: the steps after a successful parse. *)
Definition finish (parsed : dict) (category source_url source_name : str)
    (image_url : option str) : Res dict :=
  let parsed :=
    if negb (truthy (dict_get "date_of_publication" parsed))
    then <[py "date_of_publication" := of_option (_extract_date_from_url source_url)]> parsed
    else parsed in
  match parsed !! py "content" with
  | Some (PStr content) =>
      let parsed :=
        if (1500 <? length content)%nat
        then <[py "content" := PStr (take 1497 content ++ py "...")]> parsed
        else parsed in
      mret (<[py "image_url" := of_option image_url]>
            (<[py "source_name" := PStr source_name]>
             (<[py "source_url" := PStr source_url]>
              (<[py "category" := PStr category]> parsed))))
  | Some _ => Raise (TypeError "content is not a string")
  | None => Raise (Exn "KeyError" (py "'content'"))
  end.

Definition extract_article_with_mistral (raw_text category source_url source_name : str)
    (image_url : option str) : M (option dict) :=
  if negb (nonempty raw_text) || (length (strip raw_text) <? 100)%nat then mret None
  else
    let prompt := format_prompt (take 8000 raw_text) source_url in
    r ← try (response ← _call_mistral_with_retry prompt 5;
             parsed ← lift (_parse_mistral_response response);
             match parsed with
             | None => mret None
             | Some parsed =>
                 d ← lift (finish parsed category source_url source_name image_url);
                 mret (Some d)
             end);
    match r with
    | Ok result => mret result
    | Raise _ => mret None
    end.

Fixpoint process_articles_batch (raw_articles : list raw_article) (category : str)
  : M (list dict) :=
  match raw_articles with
  | [] => mret []
  | raw :: rest =>
      result ← extract_article_with_mistral (raw_text raw) category (url raw)
                 (source_name raw) (image_url raw);
      sleep 1;;
      processed ← process_articles_batch rest category;
      mret (match result with
            | Some d => if truthy (PDict d) then d :: processed else processed
            | None => processed
            end)
  end.

End Mistral.

End mistral_service.

(** ** services/crawler_service.py: the images, the trigger of the
    pagination and the articles of one source *)

Module crawler_articles.

Import crawler_service.

(** *** The image of an article *)

Section Images.

(** [str.lower] *)
Variable lower : str → str.

Definition logo_keywords : list str :=
  py <$> ["logo"; "icon"; "avatar"; "favicon"; "sprite"; "svg"; "badge"]%string.

Definition size_markers : list str :=
  py <$> ["_s."; "_xs."; "_thumb."; "_small."; "/i/"; "/icons/"]%string.

(** [any(k in text for k in keywords)] *)
Definition any_in (keywords : list str) (text : str) : bool :=
  existsb (λ k, contains k text) keywords.

(** The loop of [extract_first_image] over the matches. *)
Fixpoint image_loop (matches : list (str * str)) (filtered_images : list str)
  : list str :=
  match matches with
  | [] => filtered_images
  | (alt_text, url) :: rest =>
      let url_lower := lower url in
      if any_in logo_keywords url_lower then image_loop rest filtered_images
      else if any_in size_markers url_lower then image_loop rest filtered_images
      else image_loop rest (filtered_images ++ [url])
  end.

Definition extract_first_image (markdown : str) : option str :=
  let matches := findall image_at 0 markdown in
  if bool_decide (matches = []) then None
  else
    match image_loop matches [] with
    | url :: _ => Some url
    | [] => match matches with
            | (_, url) :: _ => Some url
            | [] => None
            end
    end.

(** The four patterns of [extract_og_image], in the order they are tried. *)
Definition og_patterns : list (str → option str) :=
  [og_name_first (py "property"); og_name_first (py "name");
   og_content_first (py "property"); og_content_first (py "name")].

(** The loop of [extract_og_image] over the patterns. *)
Fixpoint og_loop (patterns : list (str → option str)) (html : str) : option str :=
  match patterns with
  | [] => None
  | pattern :: rest =>
      match search pattern html with
      | Some url => Some url
      | None => og_loop rest html
      end
  end.

Definition extract_og_image (html : str) : option str := og_loop og_patterns html.

(** Lines 363-367: the tag of the page first, then the images of the text. *)
Definition article_image (markdown html : str) : option str :=
  match extract_og_image html with
  | Some image_url =>
      if nonempty image_url then Some image_url else extract_first_image markdown
  | None => extract_first_image markdown
  end.

End Images.

(** *** The search for the pagination trigger *)

Section FindPagination.

(** The page during one search: [await page.locator(selector).count()] and
    the length of [await page.locator(selector).all()], or the exception
    raised. *)
Variable count : str → Res nat.
Variable all_count : str → Res nat.

(** What the search returns: the match of a selector at an index
    ([locator.first] is index 0). *)
Inductive element : Type := Nth (selector : str) (index : nat).

(** The selector [tag:has-text("text")]. *)
Definition has_text (tag text : str) : str :=
  tag ++ py ":has-text(" ++ [dquote] ++ text ++ [dquote] ++ py ")".

(** The selector [[aria-label*="text"]]. *)
Definition aria_label (text : str) : str :=
  py "[aria-label*=" ++ [dquote] ++ text ++ [dquote] ++ py "]".

Definition pagination_texts : list str :=
  py <$> ["показать ещё"; "показать еще"; "показать больше";
          "загрузить ещё"; "загрузить еще";
          "load more"; "show more"; "next";
          "далее"; "следующая"; "следующий"]%string.

Definition page_numbers : str :=
  replace_char (chr "^") dquote (py "a[href*=^page=^], a[href*=^?p=^]").

Definition pagination_classes : list str :=
  replace_char (chr "^") dquote <$>
  (py <$> [".pagination .next"; ".paginate .next"; ".nav-pagination .next";
           "[class*=^pagination^] [class*=^next^]";
           "[class*=^paginate^] [class*=^next^]";
           ".btn-load-more"; "[class*=^load-more^]"; "[class*=^loadmore^]"]%string).

(** The loops of steps 1 and 2: for each text a button, then a link;
    [None] when the loop ends without a [return]. *)
Fixpoint by_text (texts : list str) : Res (option element) :=
  match texts with
  | [] => mret None
  | text :: rest =>
      n ← count (has_text (py "button") text);
      if (0 <? n)%nat then mret (Some (Nth (has_text (py "button") text) 0))
      else
        n ← count (has_text (py "a") text);
        if (0 <? n)%nat then mret (Some (Nth (has_text (py "a") text) 0))
        else by_text rest
  end.

(** The loops of steps 3 and 5 over the selectors. *)
Fixpoint by_selector (selectors : list str) : Res (option element) :=
  match selectors with
  | [] => mret None
  | selector :: rest =>
      n ← count selector;
      if (0 <? n)%nat then mret (Some (Nth selector 0)) else by_selector rest
  end.

(** Step 4: the last of the numbered links. *)
Definition by_number : Res (option element) :=
  n ← count page_numbers;
  if (0 <? n)%nat then
    m ← all_count page_numbers;
    if (0 <? m)%nat then mret (Some (Nth page_numbers (m - 1))) else mret None
  else mret None.

(** A step of the search, then the steps that follow when it finds nothing. *)
Definition or_else (step next : Res (option element)) : Res (option element) :=
  r ← step; match r with Some e => mret (Some e) | None => next end.

Definition _find_pagination_element (custom_buttons : list str) : Res (option element) :=
  or_else (by_text custom_buttons)
    (or_else (by_text pagination_texts)
       (or_else (by_selector (aria_label <$> pagination_texts))
          (or_else by_number
             (by_selector pagination_classes)))).

End FindPagination.

(** *** One source *)

Section Collect.

Variable netloc_extra_check : str → option exn.
Variable unquote_percent : str → str.
Variable pattern : Type.
Variable re_match : pattern → str → bool.
Variable render : nat → str → Res str.
Variable page_goto : str → Res ().
Variable click_next : nat → list str → Res (option str).
Variable lower : str → str.

(** The renderer behind [parse_article]: for the [n]-th request of the run,
    [result.markdown or ""] and [result.html or ""], or the exception
    raised. *)
Variable arun : nat → str → Res (str * str).

(** [await parse_article(url)]: the keys url, raw_text and image_url. *)
Definition parse_article (url : str) : M (str * str * option str) :=
  λ w, ('(markdown, html) ← arun (length (requests w)) url;
        mret (url, markdown, article_image lower markdown html),
        mkWorld (requests w ++ [url]) (llm_calls w) (sleeps w)).

(** Step 3 of [collect_articles_from_source]: the loop over the links. *)
Fixpoint articles_loop (source_name : str) (links : list str)
    (result : list mistral_service.raw_article) : M (list mistral_service.raw_article) :=
  match links with
  | [] => mret result
  | url :: rest =>
      r ← try (parse_article url);
      match r with
      | Raise _ => articles_loop source_name rest result
      | Ok (url, raw, image_url) =>
          if (length (strip raw) <? 100)%nat
          then articles_loop source_name rest result
          else articles_loop source_name rest
                 (result ++ [mistral_service.mkRaw url raw image_url source_name])
      end
  end.

(** [pagination_param] as a condition: a string that is not empty. *)
Definition given (o : option str) : bool :=
  match o with Some s => nonempty s | None => false end.

Definition collect_articles_from_source (source_name category_url : str) (limit : Z)
    (article_pattern : pattern) (pagination_buttons : list str)
    (pagination_type pagination_param : option str) : M (list mistral_service.raw_article) :=
  html ← crawl_category_page render category_url;
  links ← lift (extract_article_links netloc_extra_check pattern re_match
                  html category_url article_pattern);
  links ←
    (if Z.of_nat (length links) <? limit then
       if bool_decide (pagination_type = Some (py "url")) && given pagination_param
       then _paginate_by_url netloc_extra_check unquote_percent pattern re_match render
              category_url limit links article_pattern (default [] pagination_param) 10
       else if bool_decide (pagination_type = Some (py "button"))
               && negb (bool_decide (pagination_buttons = []))
       then lift (_paginate_inner netloc_extra_check pattern re_match page_goto click_next
                    category_url limit links category_url article_pattern
                    pagination_buttons)
       else mret links
     else mret links);
  articles_loop source_name (slice_to limit links) [].

End Collect.

End crawler_articles.

(** ** core/categories.py *)

Module categories.

(** An entry of [SOURCES]; the keys read with [get] may be missing. *)
Record source : Type := mkSource {
  article_pattern : str;
  pagination_buttons : list str;
  pagination_type : option str;
  pagination_param : option str }.

Definition SOURCES : list (str * source) :=
  [(py "kun.uz",
    mkSource (py "https?://kun\.uz/news/\d{4}/\d{2}/\d{2}/.+")
      [py "Ko'proq yangiliklar"] (Some (py "button")) None);
   (py "gazeta.uz",
    mkSource (py "https?://(www\.)?gazeta\.uz/oz/\d{4}/\d{2}/\d{2}/.+")
      [] (Some (py "url")) (Some (py "page")));
   (py "spot.uz",
    mkSource (py "https?://(www\.)?spot\.uz/oz/\d{4}/\d{2}/\d{2}/.+")
      [py "Ko'proq yangiliklarni yuklash"] (Some (py "button")) None);
   (py "zamon.uz",
    mkSource (py "https?://zamon\.uz/detail/.+")
      [] (Some (py "url")) (Some (py "page")));
   (py "uzdaily.uz",
    mkSource (py "https?://(www\.)?uzdaily\.uz/uz/(?!section/|footer/|currency|search|lang)[a-z0-9][^/]+/$")
      [] (Some (py "url")) (Some (py "page")));
   (py "afisha.uz",
    mkSource (py "https?://(www\.)?afisha\.uz/uz/[^/]+/\d{4}/\d{2}/\d{2}/.+")
      [py "Ko'proq ko'rish"] (Some (py "button")) None)].

Definition CATEGORY_MAPPING : list (str * list (str * str)) :=
  [(py "global",
    [(py "kun.uz", py "https://kun.uz/news/category/jahon");
     (py "gazeta.uz", py "https://www.gazeta.uz/oz/politics/?page=1");
     (py "spot.uz", py "https://www.spot.uz/oz/person/");
     (py "zamon.uz", py "https://zamon.uz/categories/world?page=1");
     (py "uzdaily.uz", py "https://www.uzdaily.uz/uz/section/1/?page=1");
     (py "afisha.uz", py "https://www.afisha.uz/uz/gorod")]);
   (py "business",
    [(py "kun.uz", py "https://kun.uz/news/category/iqtisodiyot");
     (py "gazeta.uz", py "https://www.gazeta.uz/oz/economy/?page=1");
     (py "spot.uz", py "https://www.spot.uz/oz/business/");
     (py "uzdaily.uz", py "https://www.uzdaily.uz/uz/section/2/?page=1");
     (py "afisha.uz", py "https://www.afisha.uz/uz/shops")]);
   (py "sport",
    [(py "kun.uz", py "https://kun.uz/news/category/sport");
     (py "gazeta.uz", py "https://www.gazeta.uz/oz/sport/?page=1");
     (py "zamon.uz", py "https://zamon.uz/categories/sport?page=1");
     (py "uzdaily.uz", py "https://www.uzdaily.uz/uz/section/7/?page=1");
     (py "afisha.uz", py "https://www.afisha.uz/uz/sport")]);
   (py "technology",
    [(py "kun.uz", py "https://kun.uz/news/category/texnologiya");
     (py "spot.uz", py "https://www.spot.uz/oz/technology/");
     (py "uzdaily.uz", py "https://www.uzdaily.uz/uz/section/4/?page=1");
     (py "afisha.uz", py "https://www.afisha.uz/uz/techno")]);
   (py "health",
    [(py "kun.uz", py "https://kun.uz/news/category/soglom-hayot");
     (py "zamon.uz", py "https://zamon.uz/categories/medicine?page=1")]);
   (py "entertainment",
    [(py "kun.uz", py "https://kun.uz/news/category/turizm");
     (py "gazeta.uz", py "https://www.gazeta.uz/oz/culture/?page=1");
     (py "spot.uz", py "https://www.spot.uz/oz/marketing/");
     (py "zamon.uz", py "https://zamon.uz/categories/lifestyle?page=1");
     (py "afisha.uz", py "https://www.afisha.uz/uz/children")]);
   (py "science",
    [(py "kun.uz", py "https://kun.uz/news/category/talim");
     (py "afisha.uz", py "https://www.afisha.uz/uz/znaniya")]);
   (py "education",
    [(py "spot.uz", py "https://www.spot.uz/oz/education/")])].

(** [d.get(k)] on a table with distinct keys. *)
Fixpoint table_get {A} (k : str) (d : list (str * A)) : option A :=
  match d with
  | [] => None
  | (k', v) :: rest => if str_eqb k k' then Some v else table_get k rest
  end.

Definition get_categories : list str := fst <$> CATEGORY_MAPPING.

Definition get_sources_for_category (category : str) : list (str * str) :=
  default [] (table_get category CATEGORY_MAPPING).

Definition get_article_pattern (source_name : str) : option str :=
  article_pattern <$> table_get source_name SOURCES.

Definition get_pagination_buttons (source_name : str) : list str :=
  default [] (pagination_buttons <$> table_get source_name SOURCES).

Definition get_pagination_type (source_name : str) : option str :=
  table_get source_name SOURCES ≫= pagination_type.

Definition get_pagination_param (source_name : str) : option str :=
  table_get source_name SOURCES ≫= pagination_param.

End categories.

(** ** routers/news.py *)

Module news.

Fixpoint _filter_by_date (articles : list dict) (date_from date_to : str)
  : Res (list dict) :=
  match articles with
  | [] => mret []
  | a :: rest =>
      match a !! py "date_of_publication" with
      | None | Some PNone =>
          result ← _filter_by_date rest date_from date_to; mret (a :: result)
      | Some (PStr pub_date) =>
          result ← _filter_by_date rest date_from date_to;
          mret (if str_le date_from pub_date && str_le pub_date date_to
                then a :: result else result)
      | Some _ =>
          Raise (TypeError "'<=' not supported between instances of 'str' and another type")
      end
  end.

(** Lines 105-109 of [fetch_news]: the date filter, then [filtered[:limit]]. *)
Definition fetch_news_filter (processed : list dict) (date_from date_to : str)
    (limit : Z) : Res (list dict) :=
  filtered ← _filter_by_date processed date_from date_to;
  mret (slice_to limit filtered).

(** [settings.default_limit] *)
Definition default_limit : Z := 50.

(** Line 48: [request.limit or settings.default_limit]. *)
Definition resolve_limit (limit : option Z) : Z :=
  match limit with
  | Some l => if l =? 0 then default_limit else l
  | None => default_limit
  end.

(** Line 59, for [n] sources. *)
Definition limit_per_source (limit : Z) (n : nat) : Z :=
  Z.max 5 ((limit * 2) / Z.of_nat n).

(** [str(l)] for a list of names that hold no quote, no backslash and
    no character that [repr] escapes. *)
Definition repr_names (l : list str) : str :=
  py "[" ++ join (py ", ") ((λ s, py "'" ++ s ++ py "'") <$> l) ++ py "]".

(** An [HTTPException]: its status code and its detail. *)
Inductive http_error : Type := HTTPException (status_code : Z) (detail : str).

(** Lines 39-45 of [fetch_news]: the sources of the category. *)
Definition fetch_news_sources (category : str) : http_error + list (str * str) :=
  let sources := categories.get_sources_for_category category in
  if bool_decide (sources = []) then
    inl (HTTPException 400
           (py "Категория '" ++ category ++ py "' не найдена. Доступные: "
            ++ repr_names categories.get_categories))
  else inr sources.

(** The keyword arguments of one call of [collect_articles_from_source]. *)
Record task : Type := mkTask {
  source_name : str;
  category_url : str;
  limit : Z;
  article_pattern : option str;
  pagination_buttons : list str;
  pagination_type : option str;
  pagination_param : option str }.

(** Lines 59-76: one task for each source. *)
Definition fetch_news_tasks (sources : list (str * str)) (limit : Z) : list task :=
  let limit_per_source := limit_per_source limit (length sources) in
  (λ '(source_name, source_url),
     mkTask source_name source_url limit_per_source
       (categories.get_article_pattern source_name)
       (categories.get_pagination_buttons source_name)
       (categories.get_pagination_type source_name)
       (categories.get_pagination_param source_name)) <$> sources.

(** Lines 81-86: the results of the tasks that did not fail, in order. *)
Fixpoint merge_results {A} (all_results : list (Res (list A))) : list A :=
  match all_results with
  | [] => []
  | Raise _ :: rest => merge_results rest
  | Ok result :: rest => result ++ merge_results rest
  end.

(** [list_categories]: the dictionary under the key categories, in order. *)
Definition list_categories : list (str * str) :=
  (λ cat, (cat, join (py ", ") (fst <$> categories.get_sources_for_category cat)))
  <$> categories.get_categories.

End news.

(** ** The vocabulary of the properties *)

Module spec.

Import crawler_service mistral_service.

(** *** The result filter *)

Section ResultFilter.

Implicit Types (a : gmap (list N) pyval).

Definition date_of a : option pyval := a !! py "date_of_publication".

(** The article has no date: the key is missing or holds [None]. *)
Definition undated a : Prop := date_of a = None ∨ date_of a = Some PNone.

Definition dated a (d : list N) : Prop := date_of a = Some (PStr d).

Definition in_range (date_from date_to d : list N) : Prop :=
  str_le date_from d = true ∧ str_le d date_to = true.

(** The articles the filter keeps, as a decision on one article. *)
Definition kept (date_from date_to : list N) a : bool :=
  match date_of a with
  | None | Some PNone => true
  | Some (PStr d) => str_le date_from d && str_le d date_to
  | Some _ => false
  end.

End ResultFilter.

(** *** The extraction call *)

Section Retry.

Variable mistral : nat → list N → Res (list N).
Variable lower : list N → list N.

(** The outcome of the [i]-th call made from the world [w] on. *)
Definition outcome (w : World) (prompt : list N) (i : nat) : Res (list N) :=
  mistral (length (llm_calls w) + i) prompt.

(** A failure of the rate-limit class. *)
Definition rate_limited (r : Res (list N)) : bool :=
  match r with
  | Raise e => is_rate_limit lower (exn_msg e)
  | Ok _ => false
  end.

(** The world after [calls] calls with [prompt] and the given [delays]. *)
Definition after_calls (w : World) (prompt : list N) (calls : nat) (delays : list Z)
  : World :=
  mkWorld (requests w) (llm_calls w ++ replicate calls prompt) (sleeps w ++ delays).

Definition backoff (attempt : Z) : Z := 2 ^ (attempt + 1).

End Retry.

(** *** The normalization *)

(** The content after line 115. *)
Definition capped (c : list N) : list N :=
  if (1500 <? length c)%nat then take 1497 c ++ py "..." else c.

(** *** The link extractor *)

Section Links.

Variable netloc_extra_check : list N → option exn.
Variable pattern : Type.
Variable re_match : pattern → list N → bool.

Implicit Types (bd u t : list N) (pat : pattern).
Implicit Types (links : list (list N)) (seen : gset (list N)).

Local Abbreviation netloc' := (netloc_of netloc_extra_check).

(** The two filters of the extractor: same network location as the base
    URL, and the article shape. *)
Definition same_site_article bd pat u : Prop :=
  netloc' u = Ok bd ∧ _is_article_url pattern re_match u pat = true.

(** A hyperlink target that yields a link: it has an absolute form that
    passes the two filters. *)
Definition accepted bd pat t : Prop :=
  ∃ u, absolute bd (strip_fragment_query t) = Some u ∧ same_site_article bd pat u.

(** The URL holds neither a query nor a fragment. *)
Definition no_query u : Prop :=
  has_char (chr "?") u = false ∧ has_char (chr "#") u = false.

(** The invariant of both loops: [seen] is the set of the links, which are
    distinct and pass the filters. *)
Definition collected bd pat links seen : Prop :=
  NoDup links ∧ (∀ u, u ∈ seen ↔ u ∈ links) ∧ (∀ u, u ∈ links → same_site_article bd pat u).

End Links.

(** *** The pagination driver *)

Section Paging.

Variable netloc_extra_check : list N → option exn.
Variable unquote_percent : list N → list N.
Variable pattern : Type.
Variable re_match : pattern → list N → bool.
Variable render : nat → list N → Res (list N).

Implicit Types (base_url u param : list N) (pat : pattern) (w : World).
Implicit Types (all new : list (list N)) (needed : Z).

Local Abbreviation extract := (extract_article_links netloc_extra_check pattern re_match).
Local Abbreviation build := (_build_paginated_url netloc_extra_check unquote_percent).

(** The world after one more request to the renderer. *)
Definition requested w u : World :=
  mkWorld (requests w ++ [u]) (llm_calls w) (sleeps w).

(** The body of the [try] of [_paginate_by_url]: the page is rendered and
    its links extracted. *)
Definition fetch_links w base_url pat u : Res (list (list N)) :=
  html ← render (length (requests w)) u; extract html base_url pat.

(** The links of a page that are not yet collected. *)
Definition fresh new all : list (list N) := filter (λ l, l ∉ all) new.

(** The pagination driver as a state machine: from the collected links
    [all] and the world [w], with the page numbers [pages] still to try, it
    ends with an outcome and a world. *)
Inductive paging base_url needed pat param :
    list Z → list (list N) → World → Res (list (list N)) → World → Prop :=
| paging_exhausted all w :
    paging base_url needed pat param [] all w (Ok all) w
| paging_enough page rest all w :
    needed ≤ Z.of_nat (length all) →
    paging base_url needed pat param (page :: rest) all w (Ok all) w
| paging_no_url page rest all w e :
    Z.of_nat (length all) < needed →
    build base_url param page = Raise e →
    paging base_url needed pat param (page :: rest) all w (Raise e) w
| paging_fetch_error page rest all w u e :
    Z.of_nat (length all) < needed →
    build base_url param page = Ok u →
    fetch_links w base_url pat u = Raise e →
    paging base_url needed pat param (page :: rest) all w (Ok all) (requested w u)
| paging_nothing_new page rest all w u new :
    Z.of_nat (length all) < needed →
    build base_url param page = Ok u →
    fetch_links w base_url pat u = Ok new →
    (∀ l, l ∈ new → l ∈ all) →
    paging base_url needed pat param (page :: rest) all w (Ok all) (requested w u)
| paging_next page rest all w u new res w' :
    Z.of_nat (length all) < needed →
    build base_url param page = Ok u →
    fetch_links w base_url pat u = Ok new →
    fresh new all ≠ [] →
    paging base_url needed pat param rest (all ++ fresh new all) (requested w u) res w' →
    paging base_url needed pat param (page :: rest) all w res w'.

End Paging.

(** *** The builder of the page URLs *)

Section PageUrl.

Implicit Types (s : list N).

(** Text made of ASCII letters, digits, underscore, dot, hyphen and tilde:
    the characters that [quote_plus] leaves alone. *)
Definition safe s : Prop := ∀ c, c ∈ s → always_safe c = true.

(** The same, with the slash: the text of a plain path. *)
Definition safe_path s : Prop := ∀ c, c ∈ s → always_safe c = true ∨ c = chr "/".

(** A plain URL: the scheme http or https, a host of safe characters, a
    path of safe characters and slashes that is empty or starts with a
    slash, and a query [qq], when it is not empty, after a question mark. *)
Definition plain_url (scheme host path qq : list N) : list N :=
  scheme ++ py "://" ++ host ++ path ++ (if nonempty qq then py "?" ++ qq else []).

Definition plain_parts (scheme host path : list N) : Prop :=
  (scheme = py "http" ∨ scheme = py "https")
  ∧ host ≠ [] ∧ safe host
  ∧ safe_path path ∧ (path = [] ∨ startswith (py "/") path = true).

End PageUrl.

(** *** The extraction of an article and of a batch *)

(** The keys of an article that the extraction returns. *)
Definition article_keys : gset (list N) :=
  list_to_set (py <$> ["title"; "content"; "date_of_publication"; "language";
                       "category"; "source_url"; "source_name"; "image_url"]%string).


(** A year of four digits, a month and a day of two. *)
Definition date_shape (re_digit : N → bool) (y m dd : list N) : Prop :=
  length y = 4%nat ∧ length m = 2%nat ∧ length dd = 2%nat
  ∧ forallb re_digit (y ++ m ++ dd) = true.

(** The segment of a URL that holds a date, between slashes. *)
Definition dated_segment (y m dd : list N) : list N :=
  py "/" ++ y ++ py "/" ++ m ++ py "/" ++ dd ++ py "/".

(** A response wrapped in a code fence, with an optional tag after the
    opening fence and a line break before the text. *)
Definition fenced (tag body : list N) : list N :=
  fence ++ tag ++ [10%N] ++ body ++ fence.

(** Text made of white space only. *)
Definition blank (ws : list N) : Prop := ∀ c, c ∈ ws → isspace c = true.

(** A date that is neither missing nor a string. *)
Definition date_not_text (a : gmap (list N) pyval) : Prop :=
  ∃ v, date_of a = Some v ∧ v ≠ PNone ∧ ∀ s, v ≠ PStr s.

(** *** The images *)

Section Images.

Variable lower : list N → list N.

(** The URL of a logo, an icon or a small picture, by the two lists of
    [extract_first_image]. *)
Definition logo_like (u : list N) : bool :=
  crawler_articles.any_in crawler_articles.logo_keywords (lower u)
  || crawler_articles.any_in crawler_articles.size_markers (lower u).

End Images.

(** The text [t] is [p] up to the case of its letters. *)
Definition same_ci (p t : list N) : Prop := Forall2 (λ c d, ci_char c d = true) p t.

(** An http or https URL, the scheme in any case, that holds no character
    of the class [stop] and is not empty after the scheme. *)
Definition http_url (scheme_of : list N → list N → Prop) (stop : N → bool) (u : list N) : Prop :=
  ∃ scheme rest,
    u = scheme ++ rest
    ∧ (scheme_of (py "http://") scheme ∨ scheme_of (py "https://") scheme)
    ∧ rest ≠ [] ∧ ∀ c, c ∈ rest → stop c = false.

(** The tag of a page that names its image, as the documentation of
    [extract_og_image] writes it, [name] being property or name. *)
Definition og_tag (name u : list N) : list N :=
  py "<meta " ++ name ++ py "=" ++ [dquote] ++ py "og:image" ++ [dquote]
  ++ py " content=" ++ [dquote] ++ u ++ [dquote].

(** *** The search for the pagination trigger *)

Section FindPagination.

Variable count : list N → Res nat.
Variable all_count : list N → Res nat.

(** One question put to the page: the first element of a selector, or the
    last of all its elements. *)
Inductive probe : Type :=
| First (selector : list N)
| Last (selector : list N).

(** The questions of the search, in order: for each custom text and then
    each standard text a button and a link, the labels, the numbered
    links, the classes. *)
Definition candidates (custom_buttons : list (list N)) : list probe :=
  ((custom_buttons ++ crawler_articles.pagination_texts) ≫=
     λ text, [First (crawler_articles.has_text (py "button") text);
              First (crawler_articles.has_text (py "a") text)])
  ++ (First <$> (crawler_articles.aria_label <$> crawler_articles.pagination_texts))
  ++ [Last crawler_articles.page_numbers]
  ++ (First <$> crawler_articles.pagination_classes).

(** The answer to one question. *)
Definition probe_result (p : probe) : Res (option crawler_articles.element) :=
  match p with
  | First selector =>
      n ← count selector;
      mret (if (0 <? n)%nat then Some (crawler_articles.Nth selector 0) else None)
  | Last selector =>
      n ← count selector;
      if (0 <? n)%nat then
        m ← all_count selector;
        mret (if (0 <? m)%nat then Some (crawler_articles.Nth selector (m - 1)) else None)
      else mret None
  end.

(** The first question, in order, that has an answer. *)
Fixpoint scan (probes : list probe) : Res (option crawler_articles.element) :=
  match probes with
  | [] => mret None
  | p :: rest =>
      r ← probe_result p;
      match r with Some e => mret (Some e) | None => scan rest end
  end.

End FindPagination.

(** *** The articles of one source *)

Section Articles.

Variable lower : list N → list N.
Variable arun : nat → list N → Res (list N * list N).

(** What the loop over the links keeps of the link [url] when its page is
    the [n]-th request of the run: the article, unless the request fails or
    the text has fewer than 100 characters once stripped. *)
Definition kept_article (source_name : list N) (n : nat) (url : list N)
  : option raw_article :=
  match arun n url with
  | Ok (markdown, html) =>
      if (length (strip markdown) <? 100)%nat then None
      else Some (mkRaw url markdown
                   (crawler_articles.article_image lower markdown html) source_name)
  | Raise _ => None
  end.

(** The articles kept of the links, the first of which is request [n]. *)
Definition kept_articles (source_name : list N) (n : nat) (links : list (list N))
  : list raw_article :=
  omap id (imap (λ i url, kept_article source_name (n + i) url) links).

End Articles.

(** *** Queries with several parameters *)

(** The text of a query: name=value pairs joined by ampersands. *)
Definition query_text (pairs : list (list N * list N)) : list N :=
  join (py "&") ((λ kv, kv.1 ++ py "=" ++ kv.2) <$> pairs).

(** The pairs with the value of [param] replaced where it stands, or the
    pair added at the end when no pair has that name. *)
Fixpoint set_param (param value : list N) (pairs : list (list N * list N))
  : list (list N * list N) :=
  match pairs with
  | [] => [(param, value)]
  | (k, v) :: rest =>
      if str_eqb param k then (k, value) :: rest
      else (k, v) :: set_param param value rest
  end.

(** *** The order of the extracted links *)

(** Each element once, at the place of its first occurrence. *)
Fixpoint first_occurrences (l : list (list N)) : list (list N) :=
  match l with
  | [] => []
  | x :: rest => x :: filter (λ y, y ≠ x) (first_occurrences rest)
  end.

Section Order.

Variable netloc_extra_check : list N → option exn.
Variable pattern : Type.
Variable re_match : pattern → list N → bool.

(** The two filters of the extractor as one test. *)
Definition passes (bd : list N) (pat : pattern) (u : list N) : bool :=
  match netloc_of netloc_extra_check u with
  | Ok nl => str_eqb nl bd && _is_article_url pattern re_match u pat
  | Raise _ => false
  end.

(** The candidates of the first strategy, in page order: the absolute
    forms of the hyperlink targets. *)
Definition html_candidates (bd html : list N) : list (list N) :=
  omap (λ t, absolute bd (strip_fragment_query t)) (findall href_at 0 html).

(** The candidates of the second strategy: the targets of the markdown
    links. *)
Definition markdown_candidates (html : list N) : list (list N) :=
  (λ m : list N * list N, strip_fragment_query m.2) <$> findall markdown_at 0 html.

End Order.

(** *** The sources of a category *)

(** A source whose pagination can run: by URL with a parameter name, or
    by button with at least one button text. *)
Definition usable_pagination (s : categories.source) : Prop :=
  (categories.pagination_type s = Some (py "url")
   ∧ crawler_articles.given (categories.pagination_param s) = true)
  ∨ (categories.pagination_type s = Some (py "button")
     ∧ categories.pagination_buttons s ≠ []).

#[global] Instance usable_pagination_dec s : Decision (usable_pagination s).
Proof. unfold usable_pagination. apply _. Defined.

(** A source name that has an entry in [SOURCES] whose pagination can
    run. *)
Definition configured (name : list N) : Prop :=
  match categories.table_get name categories.SOURCES with
  | Some src => usable_pagination src
  | None => False
  end.

#[global] Instance configured_dec name : Decision (configured name).
Proof.
  unfold configured.
  destruct (categories.table_get name categories.SOURCES); apply _.
Defined.

(** The sum of the limits handed to the sources. *)
Definition total_limit (tasks : list news.task) : Z :=
  foldr Z.add 0 (news.limit <$> tasks).

End spec.

(** ** Concrete inputs used by the examples *)

Module Examples.

Import mistral_service.

Definition world0 : World := mkWorld [] [] [].

(** A JSON text with the two fields title and content. *)
Definition json_text (title content : str) : str :=
  py "{" ++ [dquote] ++ py "title" ++ [dquote] ++ py ": " ++ [dquote] ++ title
  ++ [dquote] ++ py ", " ++ [dquote] ++ py "content" ++ [dquote] ++ py ": "
  ++ [dquote] ++ content ++ [dquote] ++ py "}".

Definition json_object (title content : str) : dict :=
  <[py "title" := PStr title]> (<[py "content" := PStr content]> ∅).

(** [json.loads] tabulated on the one text the example hands to it. *)
Definition json_loads_on (title content : str) (text : str) : option pyval :=
  if str_eqb text (json_text title content)
  then Some (PDict (json_object title content))
  else None.

(** A model that answers every prompt with the same text. *)
Definition answers (response : str) : nat → str → Res str := λ _ _, Ok response.

(** A model whose first three calls are refused with a rate-limit error. *)
Definition flaky (response : str) : nat → str → Res str :=
  λ n _, if (n <? 3)%nat
         then Raise (Exn "SDKError" (py "API error occurred: Status 429 rate limit exceeded"))
         else Ok response.

(** A model that refuses every call with a rate-limit error. *)
Definition limited : nat → str → Res str :=
  λ _ _, Raise (Exn "SDKError" (py "API error occurred: Status 429 rate limit exceeded")).

Definition article_text : str := concat (replicate 30 (py "Toshkent yangiliklari. ")).

Definition article_url : str := py "https://kun.uz/news/2026/01/31/yangilik".

(** The record built by [_parse_mistral_response] from [json_object]. *)
Definition parsed_record (title content : str) : dict :=
  <[py "title" := PStr title]>
  (<[py "content" := PStr content]>
   (<[py "date_of_publication" := PNone]>
    (<[py "language" := PStr (py "unknown")]> ∅))).

(** A content of 1600 letters. *)
Definition long_content : str := replicate 1600 (chr "a").

(** A content of 1557 characters: 1497 spaces, then 60 letters. *)
Definition padded_content : str := replicate 1497 (chr " ") ++ replicate 60 (chr "a").

(** The content of the article a run has produced. *)
Definition produced_content (run : Res (option dict) * World) : option pyval :=
  match run.1 with
  | Ok (Some art) => art !! py "content"
  | _ => None
  end.

(** The three articles of the result-filter example. *)
Definition dated_article (title : string) (date : pyval) : dict :=
  <[py "title" := PStr (py title)]> (<[py "date_of_publication" := date]> ∅).

Definition article_15 : dict := dated_article "a" (PStr (py "2025-01-15")).
Definition article_none : dict := dated_article "b" PNone.
Definition article_25 : dict := dated_article "c" (PStr (py "2025-01-25")).

(** Regular expressions without groups or look-around, and [re.match] as a
    yes-or-no question: some prefix of the subject is in the language. *)
Inductive regex : Type :=
| Never
| Eps
| Chr (c : char)
| Dot                        (* any character but the line feed *)
| Seq (r1 r2 : regex)
| Alt (r1 r2 : regex)
| Star (r : regex).

Fixpoint nullable (r : regex) : bool :=
  match r with
  | Never | Chr _ | Dot => false
  | Eps | Star _ => true
  | Seq r1 r2 => nullable r1 && nullable r2
  | Alt r1 r2 => nullable r1 || nullable r2
  end.

(** The residual of [r] after reading [c]. *)
Fixpoint deriv (c : char) (r : regex) : regex :=
  match r with
  | Never | Eps => Never
  | Chr c' => if eqc c c' then Eps else Never
  | Dot => if eqc c 10%N then Never else Eps
  | Seq r1 r2 =>
      if nullable r1 then Alt (Seq (deriv c r1) r2) (deriv c r2)
      else Seq (deriv c r1) r2
  | Alt r1 r2 => Alt (deriv c r1) (deriv c r2)
  | Star r1 => Seq (deriv c r1) (Star r1)
  end.

Fixpoint re_match (r : regex) (s : str) : bool :=
  nullable r ||
  match s with
  | [] => false
  | c :: s' => re_match (deriv c r) s'
  end.

Fixpoint Lit (s : str) : regex :=
  match s with
  | [] => Eps
  | c :: s' => Seq (Chr c) (Lit s')
  end.

(** The article pattern of zamon.uz: [https?://zamon\.uz/detail/.+] *)
Definition zamon_pattern : regex :=
  Seq (Lit (py "http"))
    (Seq (Alt (Chr (chr "s")) Eps)
       (Seq (Lit (py "://zamon.uz/detail/")) (Seq Dot (Star Dot)))).

Definition zamon_sport : str := py "https://zamon.uz/categories/sport?page=1".

(** No bracketed or non-ASCII host, and no percent sign, occurs in the
    examples: these two are never consulted. *)
Definition no_extra_check : str → option exn := λ _, None.
Definition no_percent : str → str := λ s, s.

(** A listing page: two articles, one of them linked twice and with a query
    and a fragment, a link to another site and a link that is no article. *)
Definition listing_page : str := py
"<a href='https://zamon.uz/detail/birinchi?from=list#izoh'>1</a>
 <a href='/detail/ikkinchi'>2</a>
 <a href='https://zamon.uz/detail/birinchi'>1</a>
 <a href='https://kun.uz/detail/boshqa'>3</a>
 <a href='/about'>Biz haqimizda</a>".

(** A text rendering of a page: a hyperlink that is no article, and an
    article as a markdown link. *)
Definition text_page : str := py
"<a href='/about'>Biz haqimizda</a> [Yangilik](https://zamon.uz/detail/uchinchi)".

(** A renderer that shows [listing_page] for every URL. *)
Definition shows (page : str) : nat → str → Res str := λ _ _, Ok page.

(** The article that the extraction builds from [article_text] at
    [article_url] for the source kun.uz and the category sport, given the
    content and the date of the record. *)
Definition produced_article (title content : str) (date : pyval) : dict :=
  <[py "title" := PStr title]>
  (<[py "content" := PStr content]>
   (<[py "date_of_publication" := date]>
    (<[py "language" := PStr (py "unknown")]>
     (<[py "category" := PStr (py "sport")]>
      (<[py "source_url" := PStr article_url]>
       (<[py "source_name" := PStr (py "kun.uz")]>
        (<[py "image_url" := PNone]> ∅))))))).

(** A short content, kept as it is. *)
Definition short_content : str := replicate 60 (chr "a").

(** A JSON object whose date is a number, and [json.loads] answering with
    it whatever the text. *)
Definition numeric_date_object : dict :=
  <[py "date_of_publication" := PInt 20260131]> (json_object (py "Sarlavha") short_content).

Definition loads_as (v : pyval) : str → option pyval := λ _, Some v.

(** A page that shows [page] after the first click and has no trigger
    afterwards. *)
Definition clicks (page : str) : nat → list str → Res (option str) :=
  λ attempt _, if (attempt =? 0)%nat then Ok (Some page) else Ok None.

(** The page of an article: its picture in the head. *)
Definition article_page : str := py
"<meta property='og:image' content='https://zamon.uz/rasm.jpg'>".

(** A renderer of articles that returns the same text and page for every
    URL. *)
Definition renders (text page : str) : nat → str → Res (str * str) :=
  λ _ _, Ok (text, page).

(** The two articles of [listing_page], as [collect_articles_from_source]
    returns them. *)
Definition zamon_articles : list raw_article :=
  [mkRaw (py "https://zamon.uz/detail/birinchi") article_text
     (Some (py "https://zamon.uz/rasm.jpg")) (py "zamon.uz");
   mkRaw (py "https://zamon.uz/detail/ikkinchi") article_text
     (Some (py "https://zamon.uz/rasm.jpg")) (py "zamon.uz")].

End Examples.

(** * Part II: properties *)

Import spec.

(** Closes [l = r] by evaluating both sides. *)
Ltac by_evaluation :=
  lazymatch goal with |- _ = ?r => vm_cast_no_check (@eq_refl _ r) end.

(** ** The result filter (routers/news.py) *)

Section ResultFilter.

Import news.

Implicit Types (a : gmap (list N) pyval) (articles : list (gmap (list N) pyval)).

Lemma filter_by_date_ok articles date_from date_to :
  Forall (λ a, undated a ∨ ∃ d, dated a d) articles →
  _filter_by_date articles date_from date_to
  = Ok (List.filter (kept date_from date_to) articles).
Proof.
  induction 1 as [|a l Ha _ IH]; simpl; [reflexivity|].
  unfold kept, date_of. rewrite IH.
  destruct Ha as [[Ha|Ha]|[d Ha]]; unfold undated, dated, date_of in Ha;
    rewrite Ha; reflexivity.
Qed.

Lemma kept_undated date_from date_to a : undated a → kept date_from date_to a = true.
Proof. unfold kept; intros [-> | ->]; reflexivity. Qed.

Lemma kept_dated date_from date_to a d :
  dated a d → kept date_from date_to a = true ↔ in_range date_from date_to d.
Proof.
  unfold kept, dated, in_range; intros ->.
  rewrite andb_true_iff. reflexivity.
Qed.

Lemma slice_to_nonneg {A} (limit : Z) (l : list A) :
  0 ≤ limit → slice_to limit l = take (Z.to_nat limit) l.
Proof. intros H. unfold slice_to. destruct (Z.leb_spec 0 limit); [reflexivity | lia]. Qed.

(** Python's [<=] on strings is the lexicographic order of the code points:
    it is reflexive, and decided by the first position where the strings
    differ. *)
Lemma str_le_refl (s : list N) : str_le s s = true.
Proof.
  induction s as [|c s IH]; simpl; [reflexivity|].
  rewrite N.eqb_refl, IH. apply orb_true_r.
Qed.

Lemma str_le_common_prefix (p s t : list N) : str_le (p ++ s) (p ++ t) = str_le s t.
Proof.
  induction p as [|c p IH]; simpl; [reflexivity|].
  rewrite N.ltb_irrefl, N.eqb_refl. exact IH.
Qed.

Lemma str_le_first_difference (a b : N) (s t : list N) :
  a ≠ b → str_le (a :: s) (b :: t) = (a <? b)%N.
Proof.
  intros H. simpl. destruct (N.eqb_spec a b); [contradiction|].
  rewrite andb_false_l. apply orb_false_r.
Qed.

(** C7. The result filter keeps every article without a date, keeps a dated
    article exactly when its date lies in [date_from, date_to] under the
    lexicographic comparison of strings, keeps the order of the articles,
    and the response holds the first [limit] of the kept articles, so at
    most [limit] of them. Dates are strings or absent, and [limit] is a
    count. *)
Theorem result_filter_keeps_undated_and_in_range
    articles (date_from date_to : list N) (limit : Z) :
  Forall (λ a, undated a ∨ ∃ d, dated a d) articles →
  0 ≤ limit →
  ∃ filtered,
    _filter_by_date articles date_from date_to = Ok filtered
    ∧ filtered = List.filter (kept date_from date_to) articles
    ∧ (∀ a, a ∈ articles → undated a → a ∈ filtered)
    ∧ (∀ a d, a ∈ articles → dated a d →
         (a ∈ filtered ↔ in_range date_from date_to d))
    ∧ fetch_news_filter articles date_from date_to limit
      = Ok (take (Z.to_nat limit) filtered)
    ∧ Z.of_nat (length (take (Z.to_nat limit) filtered)) ≤ limit.
Proof.
  intros Hd Hl. exists (List.filter (kept date_from date_to) articles).
  pose proof (filter_by_date_ok articles date_from date_to Hd) as E.
  split; [exact E|]. split; [reflexivity|].
  split; [|split; [|split]].
  - intros a Hin Hu. apply list_elem_of_In, filter_In.
    split; [by apply list_elem_of_In | by apply kept_undated].
  - intros a d Hin Hda. rewrite <- (kept_dated date_from date_to a d Hda).
    rewrite list_elem_of_In, filter_In, <- list_elem_of_In. tauto.
  - unfold fetch_news_filter. rewrite E. simpl.
    by rewrite slice_to_nonneg.
  - rewrite length_take. lia.
Qed.

End ResultFilter.

(** The example of the specification: with the range 2025-01-20 to
    2025-01-27 the article of 2025-01-15 is dropped, the article without a
    date and the article of 2025-01-25 are kept. *)
Example result_filter_example :
  news.fetch_news_filter
    [Examples.article_15; Examples.article_none; Examples.article_25]
    (py "2025-01-20") (py "2025-01-27") 10
  = Ok [Examples.article_none; Examples.article_25].
Proof. by_evaluation. Qed.

Lemma result_filter_witness :
  ∃ filtered,
    news._filter_by_date
      [Examples.article_15; Examples.article_none; Examples.article_25]
      (py "2025-01-20") (py "2025-01-27") = Ok filtered
    ∧ filtered
      = List.filter (kept (py "2025-01-20") (py "2025-01-27"))
          [Examples.article_15; Examples.article_none; Examples.article_25]
    ∧ (∀ a, a ∈ [Examples.article_15; Examples.article_none; Examples.article_25] →
         undated a → a ∈ filtered)
    ∧ (∀ a d, a ∈ [Examples.article_15; Examples.article_none; Examples.article_25] →
         dated a d → (a ∈ filtered ↔ in_range (py "2025-01-20") (py "2025-01-27") d))
    ∧ news.fetch_news_filter
        [Examples.article_15; Examples.article_none; Examples.article_25]
        (py "2025-01-20") (py "2025-01-27") 1
      = Ok (take (Z.to_nat 1) filtered)
    ∧ Z.of_nat (length (take (Z.to_nat 1) filtered)) ≤ 1.
Proof.
  apply (result_filter_keeps_undated_and_in_range
           [Examples.article_15; Examples.article_none; Examples.article_25]
           (py "2025-01-20") (py "2025-01-27") 1).
  - constructor; [|constructor; [|constructor; [|constructor]]].
    + right. exists (py "2025-01-15"). reflexivity.
    + left. right. reflexivity.
    + right. exists (py "2025-01-25"). reflexivity.
  - lia.
Defined.

(** ** The extraction call and its retries (services/mistral_service.py) *)

Section Retry.

Import mistral_service.

Variable mistral : nat → list N → Res (list N).
Variable lower : list N → list N.

Local Abbreviation outcome := (spec.outcome mistral).
Local Abbreviation rate_limited := (spec.rate_limited lower).

Lemma retry_loop_cons prompt attempt rest w :
  retry_loop mistral lower prompt (attempt :: rest) w =
  match outcome w prompt 0 with
  | Ok result => (Ok result, after_calls w prompt 1 [])
  | Raise e =>
      if is_rate_limit lower (exn_msg e)
      then retry_loop mistral lower prompt rest (after_calls w prompt 1 [backoff attempt])
      else (Raise e, after_calls w prompt 1 [])
  end.
Proof.
  unfold spec.outcome, after_calls. rewrite Nat.add_0_r, app_nil_r.
  cbn [retry_loop]. unfold mbind, M_bind, try, _call_mistral_sync, sleep, raise, mret, M_ret.
  destruct (mistral (length (llm_calls w)) prompt) as [r|e]; cbn; [reflexivity|].
  destruct (is_rate_limit lower (exn_msg e)); reflexivity.
Qed.

Lemma after_calls_step w prompt a k delays :
  after_calls (after_calls w prompt 1 [a]) prompt k delays
  = after_calls w prompt (S k) (a :: delays).
Proof.
  unfold after_calls; cbn. f_equal; rewrite <- app_assoc; reflexivity.
Qed.

Lemma outcome_step w prompt a i :
  outcome (after_calls w prompt 1 [a]) prompt i = outcome w prompt (S i).
Proof.
  unfold spec.outcome, after_calls; cbn. rewrite length_app; cbn.
  f_equal. lia.
Qed.

(** The loop stops at the first call that is not rate limited. *)
Lemma retry_loop_stops prompt attempts : ∀ w k,
  (k < length attempts)%nat →
  (∀ i, (i < k)%nat → rate_limited (outcome w prompt i) = true) →
  rate_limited (outcome w prompt k) = false →
  retry_loop mistral lower prompt attempts w
  = (outcome w prompt k,
     after_calls w prompt (S k) (backoff <$> take k attempts)).
Proof.
  induction attempts as [|a rest IH]; intros w k Hk Hrl Hstop; [cbn in Hk; lia|].
  rewrite retry_loop_cons. destruct k as [|k].
  - unfold spec.rate_limited in Hstop.
    destruct (outcome w prompt 0) as [r|e]; [reflexivity|].
    rewrite Hstop. reflexivity.
  - pose proof (Hrl 0%nat ltac:(lia)) as H0. unfold spec.rate_limited in H0.
    destruct (outcome w prompt 0) as [r|e]; [discriminate|].
    rewrite H0. rewrite (IH _ k).
    + rewrite outcome_step, after_calls_step. reflexivity.
    + cbn in Hk; lia.
    + intros i Hi. rewrite outcome_step. apply Hrl. lia.
    + rewrite outcome_step. exact Hstop.
Qed.

(** When every call is rate limited the attempts run out. *)
Lemma retry_loop_exhausts prompt attempts : ∀ w,
  (∀ i, (i < length attempts)%nat → rate_limited (outcome w prompt i) = true) →
  retry_loop mistral lower prompt attempts w
  = (Raise exhausted,
     after_calls w prompt (length attempts) (backoff <$> attempts)).
Proof.
  induction attempts as [|a rest IH]; intros w Hrl.
  - cbn. unfold raise, after_calls. cbn. rewrite !app_nil_r. by destruct w.
  - rewrite retry_loop_cons.
    pose proof (Hrl 0%nat ltac:(cbn; lia)) as H0. unfold spec.rate_limited in H0.
    destruct (outcome w prompt 0) as [r|e]; [discriminate|].
    rewrite H0, IH.
    + rewrite after_calls_step. reflexivity.
    + intros i Hi. rewrite outcome_step. apply Hrl. cbn; lia.
Qed.

(** The retry loop, for any model. Let the first [k] calls fail with a
    rate-limit signal and, when [k < 5], the next one not (it succeeds or fails otherwise). Then
    [_call_mistral_with_retry] makes [min (k+1) 5] calls, so at most five,
    sleeps the first [k] of the delays 2, 4, 8, 16, 32 seconds, one after
    each rate-limited call, and ends with the outcome of call [k]: its
    result, or its exception raised at once with no further call or sleep.
    When all five calls are rate limited it raises after the fifth delay.
    For [k = 3] and a success: four calls, that is three retries, the delays
    2, 4, 8, and the successful result. *)
Theorem call_mistral_with_retry_backoff (prompt : list N) (w : World) (k : nat) :
  (k ≤ 5)%nat →
  (∀ i, (i < k)%nat → rate_limited (outcome w prompt i) = true) →
  ((k < 5)%nat → rate_limited (outcome w prompt k) = false) →
  _call_mistral_with_retry mistral lower prompt 5 w
  = (if (k <? 5)%nat then outcome w prompt k else Raise exhausted,
     after_calls w prompt (Nat.min (S k) 5) (take k [2; 4; 8; 16; 32])).
Proof.
  intros Hk Hrl Hstop. unfold _call_mistral_with_retry.
  change (range 0 5) with [0; 1; 2; 3; 4].
  destruct (Nat.ltb_spec k 5) as [Hlt|Hge].
  - rewrite (retry_loop_stops prompt _ w k); [| cbn; lia | exact Hrl | auto].
    replace (Nat.min (S k) 5) with (S k) by lia.
    do 5 (destruct k as [|k]; [reflexivity|]). lia.
  - assert (k = 5%nat) as -> by lia.
    rewrite retry_loop_exhausts; [reflexivity|].
    intros i Hi. apply Hrl. cbn in Hi. lia.
Qed.

End Retry.

(** Three rate-limit failures, then a success: four calls, the delays 2, 4
    and 8 seconds, and the answer of the fourth call. *)
Lemma call_mistral_with_retry_witness :
  mistral_service._call_mistral_with_retry (Examples.flaky (py "{}")) ascii_lower
    (py "prompt") 5 Examples.world0
  = (Ok (py "{}"),
     mkWorld [] (replicate 4 (py "prompt")) [2; 4; 8]).
Proof.
  apply (call_mistral_with_retry_backoff (Examples.flaky (py "{}")) ascii_lower
           (py "prompt") Examples.world0 3).
  - lia.
  - intros i Hi. do 3 (destruct i as [|i]; [reflexivity|]). lia.
  - intros _. reflexivity.
Defined.

(** C5. The code at the failing input, a model that refuses every call
    with a rate-limit error: [_call_mistral_with_retry] makes five calls,
    that is four retries and not five, sleeps 2, 4, 8, 16 and 32 seconds, and
    raises after the sleep of 32 seconds without the retry that the sleep
    announces. Beside it the part of the claim that holds: after three
    rate-limit errors the fourth call succeeds, with three retries and the
    delays 2, 4, 8; and another error is raised at once, with no sleep. *)
Lemma retry_gives_up_after_four_retries :
  mistral_service._call_mistral_with_retry Examples.limited ascii_lower
    (py "prompt") 5 Examples.world0
  = (Raise mistral_service.exhausted,
     mkWorld [] (replicate 5 (py "prompt")) [2; 4; 8; 16; 32])
  ∧ mistral_service._call_mistral_with_retry (Examples.flaky (py "{}")) ascii_lower
      (py "prompt") 5 Examples.world0
    = (Ok (py "{}"), mkWorld [] (replicate 4 (py "prompt")) [2; 4; 8])
  ∧ mistral_service._call_mistral_with_retry
      (λ _ _, Raise (Exn "SDKError" (py "Status 500"))) ascii_lower
      (py "prompt") 5 Examples.world0
    = (Raise (Exn "SDKError" (py "Status 500")), mkWorld [] [py "prompt"] []).
Proof. split_and!; by_evaluation. Qed.

(** ** The normalization of one article (services/mistral_service.py) *)

Section Normalization.

Import mistral_service.

Variable mistral : nat → list N → Res (list N).
Variable json_loads : list N → option pyval.
Variable lower : list N → list N.
Variable re_digit : N → bool.

Implicit Types (d parsed art data : gmap (list N) pyval).
Implicit Types (c content response raw_text category source_url source_name : list N).

Local Abbreviation parse := (_parse_mistral_response json_loads).
Local Abbreviation finish' := (finish re_digit).
Local Abbreviation extract := (extract_article_with_mistral mistral json_loads lower re_digit).
Local Abbreviation call := (_call_mistral_with_retry mistral lower).
Local Abbreviation batch := (process_articles_batch mistral json_loads lower re_digit).

Local Ltac key_ne := let H := fresh in intros H; vm_compute in H; discriminate H.

Lemma capped_length c : (length (capped c) ≤ 1500)%nat.
Proof.
  unfold capped. destruct (Nat.ltb_spec 1500 (length c)) as [H|H]; [|exact H].
  rewrite length_app, length_take. change (length (py "...")) with 3%nat. lia.
Qed.

Lemma capped_long c :
  (1500 < length c)%nat →
  capped c = take 1497 c ++ py "..." ∧ length (capped c) = 1500%nat.
Proof.
  intros H. unfold capped. destruct (Nat.ltb_spec 1500 (length c)) as [_|H']; [|lia].
  split; [reflexivity|].
  rewrite length_app, length_take. change (length (py "...")) with 3%nat. lia.
Qed.

(** What an accepted response looks like. *)
Lemma parse_accepts response parsed :
  parse response = Ok (Some parsed) →
  ∃ data content,
    json_loads (unfence response) = Some (PDict data)
    ∧ truthy (dict_get "title" data) = true
    ∧ data !! py "content" = Some (PStr content)
    ∧ nonempty content = true
    ∧ (50 ≤ length (strip content))%nat
    ∧ parsed !! py "title" = Some (dict_get "title" data)
    ∧ parsed !! py "content" = Some (PStr content)
    ∧ parsed !! py "date_of_publication" = Some (dict_get "date_of_publication" data)
    ∧ parsed !! py "language"
      = Some (dict_get_default "language" (PStr (py "unknown")) data).
Proof.
  unfold _parse_mistral_response.
  destruct (nonempty response); cbn [negb]; [|discriminate].
  destruct (json_loads (unfence response)) as [v|] eqn:Hj; [|discriminate].
  destruct v as [| | | | |l|data]; try discriminate.
  destruct (truthy (dict_get "title" data)) eqn:Ht; cbn [negb orb]; [|discriminate].
  destruct (truthy (dict_get "content" data)) eqn:Hc; cbn [negb]; [|discriminate].
  destruct (dict_get "content" data) as [| | | |content| |] eqn:Hg; try discriminate.
  destruct (Nat.ltb_spec (length (strip content)) 50) as [|Hlen]; [discriminate|].
  intros [= <-]. exists data, content.
  assert (data !! py "content" = Some (PStr content)) as Hlk.
  { unfold dict_get in Hg. destruct (data !! py "content") as [v|]; cbn in Hg; [|discriminate].
    by rewrite Hg. }
  split; [reflexivity|]. split; [exact Ht|]. split; [exact Hlk|]. split; [exact Hc|].
  split; [exact Hlen|].
  unfold dict_get_default, dict_get. rewrite Hlk. cbn [default].
  repeat split.
  rewrite lookup_insert_eq. f_equal. unfold dict_get in Ht.
  destruct (data !! py "title"); [reflexivity | discriminate].
Qed.

(** The steps after the parse keep the title and the language and cap the
    content. *)
Lemma finish_ok parsed c category source_url source_name image_url :
  parsed !! py "content" = Some (PStr c) →
  ∃ art,
    finish' parsed category source_url source_name image_url = Ok art
    ∧ art !! py "content" = Some (PStr (capped c))
    ∧ art !! py "title" = parsed !! py "title"
    ∧ art !! py "language" = parsed !! py "language".
Proof.
  intros Hc. unfold finish.
  set (parsed1 := if negb (truthy (dict_get "date_of_publication" parsed)) then _ else _).
  assert (∀ k, k ≠ py "date_of_publication" → parsed1 !! k = parsed !! k) as H1.
  { intros k Hk. unfold parsed1.
    destruct (negb _); [by rewrite lookup_insert_ne | reflexivity]. }
  rewrite (H1 (py "content")) by key_ne. rewrite Hc.
  set (parsed2 := if (1500 <? length c)%nat then _ else _).
  assert (parsed2 !! py "content" = Some (PStr (capped c))) as H2.
  { unfold parsed2, capped. destruct (1500 <? length c)%nat.
    - by rewrite lookup_insert_eq.
    - rewrite H1 by key_ne. exact Hc. }
  assert (∀ k, k ≠ py "content" → k ≠ py "date_of_publication" →
               parsed2 !! k = parsed !! k) as H3.
  { intros k Hk1 Hk2. unfold parsed2. destruct (1500 <? length c)%nat.
    - rewrite lookup_insert_ne by done. by apply H1.
    - by apply H1. }
  eexists. split; [reflexivity|].
  repeat split.
  - do 4 (rewrite lookup_insert_ne by key_ne). exact H2.
  - do 4 (rewrite lookup_insert_ne by key_ne). apply H3; key_ne.
  - do 4 (rewrite lookup_insert_ne by key_ne). apply H3; key_ne.
Qed.

(** [extract_article_with_mistral] once the text passes the length guard. *)
Lemma extract_run raw_text category source_url source_name image_url w :
  nonempty raw_text = true →
  (100 ≤ length (strip raw_text))%nat →
  extract raw_text category source_url source_name image_url w =
  match call (format_prompt (take 8000 raw_text) source_url) 5 w with
  | (Ok response, w1) =>
      match parse response with
      | Ok (Some parsed) =>
          match finish' parsed category source_url source_name image_url with
          | Ok art => (Ok (Some art), w1)
          | Raise _ => (Ok None, w1)
          end
      | Ok None | Raise _ => (Ok None, w1)
      end
  | (Raise _, w1) => (Ok None, w1)
  end.
Proof.
  intros Hne Hlen. unfold extract_article_with_mistral. rewrite Hne.
  destruct (Nat.ltb_spec (length (strip raw_text)) 100) as [|_]; [lia|].
  cbn [negb orb]. unfold mbind, M_bind, try, lift, mret, M_ret.
  destruct (call _ 5 w) as [[response|e] w1]; [|reflexivity].
  destruct (parse response) as [[parsed|]|e]; try reflexivity.
  destruct (finish' parsed category source_url source_name image_url); reflexivity.
Qed.

(** The function never raises: every failure yields [None]. *)
Lemma extract_never_raises raw_text category source_url source_name image_url w :
  ∃ r w', extract raw_text category source_url source_name image_url w = (Ok r, w').
Proof.
  destruct (nonempty raw_text) eqn:Hne;
    [destruct (Nat.ltb_spec (length (strip raw_text)) 100) as [Hlt|Hge]|].
  - unfold extract_article_with_mistral. rewrite Hne.
    destruct (Nat.ltb_spec (length (strip raw_text)) 100) as [_|]; [|lia].
    eexists _, _. reflexivity.
  - rewrite extract_run by done.
    destruct (call _ 5 w) as [[response|e] w1]; [|by eexists _, _].
    destruct (parse response) as [[parsed|]|e]; try by eexists _, _.
    destruct (finish' parsed category source_url source_name image_url); by eexists _, _.
  - unfold extract_article_with_mistral. rewrite Hne. eexists _, _. reflexivity.
Qed.

(** Every article that is produced went through the call, the parse and
    the final steps. *)
Lemma extract_produces raw_text category source_url source_name image_url w art w' :
  extract raw_text category source_url source_name image_url w = (Ok (Some art), w') →
  ∃ response parsed,
    call (format_prompt (take 8000 raw_text) source_url) 5 w = (Ok response, w')
    ∧ parse response = Ok (Some parsed)
    ∧ finish' parsed category source_url source_name image_url = Ok art.
Proof.
  destruct (nonempty raw_text) eqn:Hne;
    [destruct (Nat.ltb_spec (length (strip raw_text)) 100) as [Hlt|Hge]|].
  - unfold extract_article_with_mistral. rewrite Hne.
    destruct (Nat.ltb_spec (length (strip raw_text)) 100) as [_|]; [|lia].
    discriminate.
  - rewrite extract_run by done.
    destruct (call _ 5 w) as [[response|e] w1]; [|discriminate].
    destruct (parse response) as [[parsed|]|e] eqn:Hp; try discriminate.
    destruct (finish' parsed category source_url source_name image_url) eqn:Hf;
      [|discriminate].
    intros [= <- <-]. by exists response, parsed.
  - unfold extract_article_with_mistral. rewrite Hne. discriminate.
Qed.

Lemma extract_content_capped raw_text category source_url source_name image_url w art w' :
  extract raw_text category source_url source_name image_url w = (Ok (Some art), w') →
  ∃ content, art !! py "content" = Some (PStr content) ∧ (length content ≤ 1500)%nat.
Proof.
  intros H. apply extract_produces in H as (response & parsed & _ & Hp & Hf).
  apply parse_accepts in Hp as (data & c & _ & _ & _ & _ & _ & _ & Hc & _).
  destruct (finish_ok parsed c category source_url source_name image_url Hc)
    as (art' & Hf' & Hcontent & _).
  rewrite Hf in Hf'. injection Hf' as <-.
  exists (capped c). split; [exact Hcontent | apply capped_length].
Qed.

(** The batch keeps exactly the articles that were produced. *)
Lemma batch_elements raw_articles category : ∀ w processed w',
  batch raw_articles category w = (Ok processed, w') →
  ∀ art, art ∈ processed →
  ∃ raw w0 w1, raw ∈ raw_articles ∧
    extract (raw_text raw) category (url raw) (source_name raw) (image_url raw) w0
    = (Ok (Some art), w1).
Proof.
  induction raw_articles as [|raw rest IH]; intros w processed w'.
  - cbn. intros [= <- <-] art Hin. by apply elem_of_nil in Hin.
  - cbn [process_articles_batch]. unfold mbind, M_bind at 1.
    destruct (extract_never_raises (raw_text raw) category (url raw)
                (source_name raw) (image_url raw) w) as (r & w1 & Hr).
    rewrite Hr. unfold M_bind at 1. unfold sleep at 1.
    unfold M_bind at 1.
    destruct (batch rest category _) as [[processed'|e] w2] eqn:Hb; [|discriminate].
    unfold mret, M_ret. intros [= <- <-] art Hin.
    assert (art ∈ processed' → ∃ raw0 w0 w3, raw0 ∈ raw :: rest ∧
              extract (raw_text raw0) category (url raw0) (source_name raw0)
                (image_url raw0) w0 = (Ok (Some art), w3)) as Hrest.
    { intros Hin'. destruct (IH _ _ _ Hb art Hin') as (raw0 & w0 & w3 & Hraw0 & He).
      exists raw0, w0, w3. split; [by apply list_elem_of_further | exact He]. }
    destruct r as [d|]; [|by apply Hrest].
    destruct (negb _); [|by apply Hrest].
    apply elem_of_cons in Hin as [->|Hin]; [|by apply Hrest].
    exists raw, w, w1. split; [apply list_elem_of_here | exact Hr].
Qed.

(** C1. Every article produced by the normalization, alone or in a batch,
    has a content of at most 1500 characters; and when the model's answer
    is accepted with a content of more than 1500 characters, the article is
    produced with the first 1497 characters of that content followed by
    three dots, 1500 characters in all. *)
Theorem normalized_content_at_most_1500 :
  (∀ raw_text category source_url source_name image_url w art w',
     extract raw_text category source_url source_name image_url w = (Ok (Some art), w') →
     ∃ content, art !! py "content" = Some (PStr content) ∧ (length content ≤ 1500)%nat)
  ∧ (∀ raw_articles category w processed w' art,
       batch raw_articles category w = (Ok processed, w') →
       art ∈ processed →
       ∃ content, art !! py "content" = Some (PStr content) ∧ (length content ≤ 1500)%nat)
  ∧ (∀ raw_text category source_url source_name image_url w response parsed c w',
       nonempty raw_text = true →
       (100 ≤ length (strip raw_text))%nat →
       call (format_prompt (take 8000 raw_text) source_url) 5 w = (Ok response, w') →
       parse response = Ok (Some parsed) →
       parsed !! py "content" = Some (PStr c) →
       (1500 < length c)%nat →
       ∃ art,
         extract raw_text category source_url source_name image_url w = (Ok (Some art), w')
         ∧ art !! py "content" = Some (PStr (take 1497 c ++ py "..."))
         ∧ length (take 1497 c ++ py "...") = 1500%nat).
Proof.
  split; [|split].
  - intros *. apply extract_content_capped.
  - intros * Hb Hin.
    destruct (batch_elements _ _ _ _ _ Hb art Hin) as (raw & w0 & w1 & _ & He).
    by apply extract_content_capped in He.
  - intros rt cat su sn iu w response parsed c w' Hne Hlen Hcall Hp Hc Hlong.
    rewrite extract_run by done. rewrite Hcall, Hp.
    destruct (finish_ok parsed c cat su sn iu Hc)
      as (art & Hf & Hcontent & _).
    rewrite Hf. exists art. split; [reflexivity|].
    destruct (capped_long c Hlong) as [E1 E2]. rewrite E1 in Hcontent, E2.
    split; [exact Hcontent | exact E2].
Qed.

Lemma drop_while_app_stop (p : N → bool) (l k : list N) :
  (∀ x, head k = Some x → p x = false) → k ≠ [] →
  drop_while p (l ++ k) = drop_while p l ++ k.
Proof.
  intros Hk Hne. induction l as [|x l IH]; cbn.
  - destruct k as [|y k]; [done|]. cbn. by rewrite (Hk y eq_refl).
  - destruct (p x); [exact IH | reflexivity].
Qed.

(** Stripping a text that ends with the three dots keeps the dots. *)
Lemma strip_dots_length (l : list N) : (3 ≤ length (strip (l ++ py "...")))%nat.
Proof.
  unfold strip, rstrip, lstrip.
  rewrite drop_while_app_stop; [|by intros x [= <-]|done].
  rewrite reverse_app. change (reverse (py "...")) with (py "...").
  cbn [app py]. change (drop_while isspace (py "..." ++ ?r)) with (py "..." ++ r).
  rewrite reverse_app, length_app. change (length (reverse (py "..."))) with 3%nat. lia.
Qed.

Lemma capped_nonempty c : c ≠ [] → capped c ≠ [].
Proof.
  intros Hc. unfold capped. destruct (1500 <? length c)%nat; [|exact Hc].
  intros H. apply (f_equal length) in H. rewrite length_app in H.
  change (length (py "...")) with 3%nat in H. cbn in H. lia.
Qed.

Lemma capped_short c : (length c ≤ 1500)%nat → capped c = c.
Proof.
  intros H. unfold capped. by destruct (Nat.ltb_spec 1500 (length c)); [lia|].
Qed.

Lemma capped_trimmed_length c :
  (50 ≤ length (strip c))%nat → (3 ≤ length (strip (capped c)))%nat.
Proof.
  intros H. unfold capped. destruct (1500 <? length c)%nat; [apply strip_dots_length | lia].
Qed.

(** A response is accepted as soon as it decodes to an object with a truthy
    title and a string content of trimmed length 50 or more, whatever its
    other fields. *)
Lemma parse_valid response data c :
  nonempty response = true →
  json_loads (unfence response) = Some (PDict data) →
  truthy (dict_get "title" data) = true →
  data !! py "content" = Some (PStr c) →
  (50 ≤ length (strip c))%nat →
  ∃ parsed,
    parse response = Ok (Some parsed)
    ∧ parsed !! py "language"
      = Some (dict_get_default "language" (PStr (py "unknown")) data).
Proof.
  intros Hne Hj Ht Hc Hlen. unfold _parse_mistral_response.
  rewrite Hne, Hj, Ht. cbn [negb orb]. unfold dict_get at 1 2. rewrite Hc. cbn [default].
  unfold id.
  assert (truthy (PStr c) = true) as ->.
  { destruct c; [cbn in Hlen; lia | reflexivity]. }
  cbn [negb]. destruct (Nat.ltb_spec (length (strip c)) 50); [lia|].
  eexists. split; [reflexivity|]. reflexivity.
Qed.

(** C10, as amended. (1) A record accepted by [_parse_mistral_response] has
    a truthy title (a title that is a string is not empty) and a content that
    is a non-empty string of trimmed length 50 or more. (2) A response that
    decodes to an object with such a title and content and without the key
    language is accepted, with the language "unknown". (3) The article
    returned by [extract_article_with_mistral] comes from the response of
    the model to the prompt of the raw article: the response decodes to an
    object, the title of the article is the title of that object, which is
    also the title of the accepted record, and its language is the language
    of the object, or "unknown" when the object has none; its content is the
    accepted content, capped: it is not empty, its trimmed length is at
    least 3, and it is the accepted content itself, of trimmed length 50 or
    more, when that has at most 1500 characters. (4) When the model answers a
    raw article of 100 characters or more with such an object without the key
    language, the article is not rejected: it is returned with the title of
    the object and the language "unknown". *)
Theorem accepted_record_title_content_language :
  (∀ response parsed,
     parse response = Ok (Some parsed) →
     ∃ title content,
       parsed !! py "title" = Some title ∧ truthy title = true
       ∧ (∀ s, title = PStr s → s ≠ [])
       ∧ parsed !! py "content" = Some (PStr content)
       ∧ content ≠ [] ∧ (50 ≤ length (strip content))%nat)
  ∧ (∀ response data c,
       nonempty response = true →
       json_loads (unfence response) = Some (PDict data) →
       truthy (dict_get "title" data) = true →
       data !! py "content" = Some (PStr c) →
       (50 ≤ length (strip c))%nat →
       data !! py "language" = None →
       ∃ parsed,
         parse response = Ok (Some parsed)
         ∧ parsed !! py "language" = Some (PStr (py "unknown")))
  ∧ (∀ rt category source_url sn iu w art w',
       extract rt category source_url sn iu w = (Ok (Some art), w') →
       ∃ response data parsed title c,
         call (format_prompt (take 8000 rt) source_url) 5 w = (Ok response, w')
         ∧ json_loads (unfence response) = Some (PDict data)
         ∧ parse response = Ok (Some parsed)
         ∧ title = dict_get "title" data
         ∧ parsed !! py "title" = Some title
         ∧ parsed !! py "content" = Some (PStr c)
         ∧ art !! py "title" = Some title ∧ truthy title = true
         ∧ (∀ s, title = PStr s → s ≠ [])
         ∧ art !! py "language" = parsed !! py "language"
         ∧ art !! py "language"
           = Some (dict_get_default "language" (PStr (py "unknown")) data)
         ∧ (data !! py "language" = None →
            art !! py "language" = Some (PStr (py "unknown")))
         ∧ art !! py "content" = Some (PStr (capped c))
         ∧ capped c ≠ []
         ∧ (3 ≤ length (strip (capped c)))%nat
         ∧ ((length c ≤ 1500)%nat →
            capped c = c ∧ (50 ≤ length (strip (capped c)))%nat))
  ∧ (∀ rt category source_url sn iu w response w1 data c,
       nonempty rt = true →
       (100 ≤ length (strip rt))%nat →
       call (format_prompt (take 8000 rt) source_url) 5 w = (Ok response, w1) →
       nonempty response = true →
       json_loads (unfence response) = Some (PDict data) →
       truthy (dict_get "title" data) = true →
       data !! py "content" = Some (PStr c) →
       (50 ≤ length (strip c))%nat →
       data !! py "language" = None →
       ∃ art,
         extract rt category source_url sn iu w = (Ok (Some art), w1)
         ∧ art !! py "title" = Some (dict_get "title" data)
         ∧ art !! py "language" = Some (PStr (py "unknown"))
         ∧ art !! py "content" = Some (PStr (capped c))).
Proof.
  split; [|split; [|split]].
  - intros response parsed Hp.
    apply parse_accepts in Hp as (data & c & _ & Ht & _ & Hne & Hlen & Htitle & Hc & _).
    exists (dict_get "title" data), c. repeat split; try done.
    + intros s Hs ->. rewrite Hs in Ht. discriminate.
    + by intros ->.
  - intros response data c Hne Hj Ht Hc Hlen Hlang.
    destruct (parse_valid response data c Hne Hj Ht Hc Hlen) as (parsed & Hp & Hl).
    exists parsed. split; [exact Hp|].
    rewrite Hl. unfold dict_get_default. by rewrite Hlang.
  - intros rt category source_url sn iu w art w' He.
    apply extract_produces in He as (response & parsed & Hcall & Hp & Hf).
    pose proof Hp as Hp'.
    apply parse_accepts in Hp'
      as (data & c & Hj & Ht & _ & Hne & Hlen & Htitle & Hc & _ & Hl).
    destruct (finish_ok parsed c category source_url sn iu Hc)
      as (art' & Hf' & Hcontent & Htitle' & Hlang).
    rewrite Hf in Hf'. injection Hf' as <-.
    exists response, data, parsed, (dict_get "title" data), c.
    split; [exact Hcall|]. split; [exact Hj|]. split; [exact Hp|].
    split; [reflexivity|]. split; [exact Htitle|]. split; [exact Hc|].
    split; [by rewrite Htitle'|]. split; [exact Ht|].
    split; [intros s Hs ->; rewrite Hs in Ht; discriminate|].
    split; [exact Hlang|]. split; [by rewrite Hlang|].
    split; [intros Hnone; rewrite Hlang, Hl; unfold dict_get_default; by rewrite Hnone|].
    split; [exact Hcontent|].
    split; [apply capped_nonempty; by intros ->|].
    split; [by apply capped_trimmed_length|].
    intros Hshort. rewrite capped_short by done. done.
  - intros rt category source_url sn iu w response w1 data c
      Hrt Hlong Hcall Hne Hj Ht Hc Hlen Hlang.
    destruct (parse_valid response data c Hne Hj Ht Hc Hlen) as (parsed & Hp & Hl).
    pose proof Hp as Hp'.
    apply parse_accepts in Hp'
      as (data' & c' & Hj' & _ & Hdc & _ & _ & Htitle & Hc' & _).
    rewrite Hj in Hj'. injection Hj' as <-.
    destruct (finish_ok parsed c' category source_url sn iu Hc')
      as (art & Hf & Hcontent & Htitle' & Hlang').
    assert (c' = c) as -> by congruence.
    exists art. rewrite (extract_run _ _ _ _ _ _ Hrt Hlong), Hcall, Hp, Hf.
    split; [reflexivity|]. split; [by rewrite Htitle'|].
    split; [|exact Hcontent].
    rewrite Hlang', Hl. unfold dict_get_default. by rewrite Hlang.
Qed.

End Normalization.

(** The model answers with a content of 1600 letters: the article is
    produced, with the first 1497 letters and three dots. *)
Lemma normalized_content_witness :
  ∃ art,
    mistral_service.extract_article_with_mistral
      (Examples.answers (Examples.json_text (py "Sarlavha") Examples.long_content))
      (Examples.json_loads_on (py "Sarlavha") Examples.long_content)
      ascii_lower is_ascii_digit
      Examples.article_text (py "sport") Examples.article_url (py "kun.uz") None
      Examples.world0
    = (Ok (Some art),
       mkWorld [] [mistral_service.format_prompt (take 8000 Examples.article_text)
                     Examples.article_url] [])
    ∧ art !! py "content" = Some (PStr (take 1497 Examples.long_content ++ py "..."))
    ∧ length (take 1497 Examples.long_content ++ py "...") = 1500%nat.
Proof.
  apply (proj2 (proj2 (normalized_content_at_most_1500
           (Examples.answers (Examples.json_text (py "Sarlavha") Examples.long_content))
           (Examples.json_loads_on (py "Sarlavha") Examples.long_content)
           ascii_lower is_ascii_digit))
         Examples.article_text (py "sport") Examples.article_url (py "kun.uz") None
         Examples.world0
         (Examples.json_text (py "Sarlavha") Examples.long_content)
         (Examples.parsed_record (py "Sarlavha") Examples.long_content)
         Examples.long_content).
  - reflexivity.
  - apply Nat.leb_le. by_evaluation.
  - by_evaluation.
  - by_evaluation.
  - by_evaluation.
  - apply Nat.ltb_lt. by_evaluation.
Defined.

(** The model answers with 1497 spaces followed by 60 letters: the answer
    is accepted (trimmed length 60), and the article that is returned holds
    1497 spaces and three dots, of trimmed length 3. *)
Lemma truncated_content_counterexample :
  Examples.produced_content
    (mistral_service.extract_article_with_mistral
       (Examples.answers (Examples.json_text (py "Sarlavha") Examples.padded_content))
       (Examples.json_loads_on (py "Sarlavha") Examples.padded_content)
       ascii_lower is_ascii_digit
       Examples.article_text (py "sport") Examples.article_url (py "kun.uz") None
       Examples.world0)
  = Some (PStr (replicate 1497 (chr " ") ++ py "..."))
  ∧ length (strip Examples.padded_content) = 60%nat
  ∧ length (strip (replicate 1497 (chr " ") ++ py "...")) = 3%nat
  ∧ ¬ (50 ≤ length (strip (replicate 1497 (chr " ") ++ py "...")))%nat.
Proof.
  assert (length (strip (replicate 1497 (chr " ") ++ py "...")) = 3%nat) as E
    by by_evaluation.
  split; [by_evaluation|]. split; [by_evaluation|].
  split; [exact E|]. rewrite E. lia.
Qed.

(** An answer without the key language is accepted, with the language
    "unknown". *)
Lemma accepted_record_witness :
  ∃ parsed,
    mistral_service._parse_mistral_response
      (Examples.json_loads_on (py "Sarlavha") Examples.long_content)
      (Examples.json_text (py "Sarlavha") Examples.long_content)
    = Ok (Some parsed)
    ∧ parsed !! py "language" = Some (PStr (py "unknown")).
Proof.
  apply (proj1 (proj2 (accepted_record_title_content_language
           (Examples.answers (Examples.json_text (py "Sarlavha") Examples.long_content))
           (Examples.json_loads_on (py "Sarlavha") Examples.long_content)
           ascii_lower is_ascii_digit))
         (Examples.json_text (py "Sarlavha") Examples.long_content)
         (Examples.json_object (py "Sarlavha") Examples.long_content)
         Examples.long_content).
  - reflexivity.
  - by_evaluation.
  - reflexivity.
  - by_evaluation.
  - apply Nat.leb_le. by_evaluation.
  - by_evaluation.
Defined.

(** ** Facts about the string operations *)

Section StringFacts.

Implicit Types (s l k : list N) (c x : N) (p : N → bool).

Lemma has_char_true c s : has_char c s = true ↔ c ∈ s.
Proof.
  unfold has_char. rewrite existsb_exists. split.
  - intros (x & Hx & He). apply N.eqb_eq in He as ->. by apply list_elem_of_In.
  - intros H. exists c. split; [by apply list_elem_of_In | apply N.eqb_refl].
Qed.

Lemma has_char_false c s : has_char c s = false ↔ c ∉ s.
Proof.
  rewrite <- has_char_true. destruct (has_char c s); split; intros H; congruence.
Qed.

Lemma take_while_elem p s x : x ∈ take_while p s → x ∈ s ∧ p x = true.
Proof.
  induction s as [|y s IH]; cbn; [by intros ?%elem_of_nil|].
  destruct (p y) eqn:Hy; [|by intros ?%elem_of_nil].
  intros [->|H]%elem_of_cons.
  - split; [left | exact Hy].
  - destruct (IH H). split; [by right | done].
Qed.

Lemma drop_while_elem p s x : x ∈ drop_while p s → x ∈ s.
Proof.
  induction s as [|y s IH]; cbn; [done|].
  destruct (p y); [|done]. intros H. right. by apply IH.
Qed.

Lemma take_drop_while p s : take_while p s ++ drop_while p s = s.
Proof.
  induction s as [|y s IH]; cbn; [done|].
  destruct (p y); cbn; [by rewrite IH | done].
Qed.

Lemma drop_while_head p s x : head (drop_while p s) = Some x → p x = false.
Proof.
  induction s as [|y s IH]; cbn; [done|].
  destruct (p y) eqn:Hy; [exact IH|]. cbn. by intros [= <-].
Qed.

Lemma take_while_app_stop p l k :
  (∀ x, x ∈ l → p x = true) → (∀ y, head k = Some y → p y = false) →
  take_while p (l ++ k) = l ∧ drop_while p (l ++ k) = k.
Proof.
  intros Hl Hk. induction l as [|x l IH]; cbn.
  - destruct k as [|y k]; [done|]. cbn. by rewrite (Hk y eq_refl).
  - rewrite (Hl x) by left. destruct IH as [-> ->]; [|done].
    intros y Hy. apply Hl. by right.
Qed.

Lemma before_elem c s x : x ∈ before c s → x ∈ s ∧ x ≠ c.
Proof.
  unfold before. intros [H1 H2]%take_while_elem. split; [done|].
  intros ->. unfold eqc in H2. rewrite N.eqb_refl in H2. discriminate.
Qed.

Lemma after_elem c s x : x ∈ after c s → x ∈ s.
Proof.
  unfold after. intros H. apply list_elem_of_lookup in H as [i H].
  rewrite lookup_drop in H. apply list_elem_of_lookup_2 in H.
  by apply drop_while_elem in H.
Qed.

Lemma before_without c s : has_char c (before c s) = false.
Proof. apply has_char_false. intros H. by apply before_elem in H as [_ ?]. Qed.

Lemma before_keeps_without c c' s : has_char c' s = false → has_char c' (before c s) = false.
Proof.
  rewrite !has_char_false. intros H H'. apply H. by apply before_elem in H' as [? _].
Qed.

(** A string without [c] is its own part before [c]. *)
Lemma before_id c s : has_char c s = false → before c s = s.
Proof.
  rewrite has_char_false. unfold before. induction s as [|y s IH]; cbn; [done|].
  intros H. destruct (eqc c y) eqn:E.
  - apply N.eqb_eq in E as ->. destruct H. left.
  - cbn. rewrite IH; [done|]. intros H'. apply H. by right.
Qed.

Lemma startswith_app (pre : list N) s : startswith pre (pre ++ s) = true.
Proof.
  induction pre as [|a pre IH]; cbn; [done|]. unfold eqc. by rewrite N.eqb_refl.
Qed.

Lemma startswith_prefix (pre : list N) s : startswith pre s = true → ∃ r, s = pre ++ r.
Proof.
  revert s. induction pre as [|a pre IH]; intros s; cbn; [by exists s|].
  destruct s as [|b s]; [done|]. intros [E H]%andb_true_iff.
  apply N.eqb_eq in E as ->. destruct (IH s H) as [r ->]. by exists r.
Qed.

Lemma str_eqb_true s l : str_eqb s l = true ↔ s = l.
Proof. unfold str_eqb. apply bool_decide_eq_true. Qed.

Lemma str_eqb_false s l : str_eqb s l = false ↔ s ≠ l.
Proof. unfold str_eqb. apply bool_decide_eq_false. Qed.

End StringFacts.

(** ** Facts about [urlsplit] and the network location *)

Section UrlFacts.

Variable netloc_extra_check : list N → option exn.

Local Abbreviation urlsplit' := (urlsplit netloc_extra_check).
Local Abbreviation urlparse' := (urlparse netloc_extra_check).
Local Abbreviation check' := (check_netloc netloc_extra_check).

(** The network location is fixed by the first two stages, and the parse
    succeeds exactly when the location passes the checks. *)
Lemma urlsplit_stages (url scheme u1 nl u2 : list N) :
  split_scheme (clean_url url) = (scheme, u1) →
  split_netloc u1 = (nl, u2) →
  match check' nl with
  | Ok _ => ∃ r, urlsplit' url = Ok r ∧ s_netloc r = nl ∧ s_scheme r = scheme
  | Raise e => urlsplit' url = Raise e
  end.
Proof.
  intros E1 E2. unfold urlsplit. rewrite E1, E2.
  destruct (check' nl) as [[]|e]; cbn; [|done].
  repeat match goal with |- context [has_char ?c ?u] => destruct (has_char c u) end;
    eexists; (split; [reflexivity|]); done.
Qed.

Lemma urlparse_netloc (url : list N) p :
  urlparse' url = Ok p → ∃ r, urlsplit' url = Ok r ∧ netloc p = s_netloc r.
Proof.
  unfold urlparse. destruct (urlsplit' url) as [r|e]; cbn; [|done].
  destruct (_ && _); [destruct (_splitparams (s_path r))|];
    intros [= <-]; by exists r.
Qed.

Lemma urlparse_of_urlsplit (url : list N) r :
  urlsplit' url = Ok r → ∃ p, urlparse' url = Ok p ∧ netloc p = s_netloc r.
Proof.
  intros H. unfold urlparse. rewrite H. cbn.
  destruct (_ && _); [destruct (_splitparams (s_path r))|]; by eexists.
Qed.

(** What a successful parse tells about the network location: it passed
    the checks, and it holds no delimiter, tab or newline. *)
Lemma urlsplit_netloc_chars (url : list N) r :
  urlsplit' url = Ok r →
  check' (s_netloc r) = Ok ()
  ∧ ∀ c, c ∈ s_netloc r → netloc_delim c = false ∧ unsafe_byte c = false.
Proof.
  intros H.
  destruct (split_scheme (clean_url url)) as [scheme u1] eqn:E1.
  destruct (split_netloc u1) as [nl u2] eqn:E2.
  pose proof (urlsplit_stages url scheme u1 nl u2 E1 E2) as Hs.
  destruct (check' nl) as [[]|e] eqn:Hc; [|congruence].
  destruct Hs as (r' & Hr' & Hnl & _). rewrite H in Hr'. injection Hr' as <-.
  rewrite Hnl. split; [exact Hc|]. intros c Hin.
  unfold split_netloc in E2. destruct (str_eqb (take 2 u1) (py "//"));
    injection E2 as <- <-; [|by apply elem_of_nil in Hin].
  apply take_while_elem in Hin as [Hin Hd]. split; [by destruct (netloc_delim c)|].
  assert (c ∈ u1) as Hu1.
  { apply list_elem_of_lookup in Hin as [i Hi]. rewrite lookup_drop in Hi.
    by apply list_elem_of_lookup_2 in Hi. }
  assert (c ∈ clean_url url) as Hclean.
  { unfold split_scheme in E1. destruct (_ && _); injection E1 as <- <-; [|done].
    by apply after_elem in Hu1. }
  unfold clean_url in Hclean. apply list_elem_of_filter in Hclean as [Hsafe _].
  by destruct (unsafe_byte c).
Qed.

Lemma filter_safe_id (l : list N) :
  (∀ c, c ∈ l → unsafe_byte c = false) →
  filter (λ c, negb (unsafe_byte c)) l = l.
Proof.
  induction l as [|x l IH]; intros H; [done|].
  rewrite filter_cons. rewrite (H x) by left. cbn.
  rewrite IH; [done|]. intros c Hc. apply H. by right.
Qed.

(** A site-relative target resolved against a parsed network location is
    parsed back to that location. *)
Lemma urlsplit_resolved (nl u : list N) :
  check' nl = Ok () →
  (∀ c, c ∈ nl → netloc_delim c = false ∧ unsafe_byte c = false) →
  startswith (py "/") u = true →
  ∃ r, urlsplit' (py "https://" ++ nl ++ u) = Ok r ∧ s_netloc r = nl.
Proof.
  intros Hc Hchars [t ->]%startswith_prefix.
  set (t' := filter (λ c, negb (unsafe_byte c)) t).
  assert (clean_url (py "https://" ++ nl ++ py "/" ++ t)
          = py "https://" ++ nl ++ py "/" ++ t') as Hclean.
  { unfold clean_url. change (drop_while c0_or_space (py "https://" ++ ?x))
      with (py "https://" ++ x).
    rewrite !filter_app. rewrite (filter_safe_id nl) by (intros c Hin; by apply Hchars).
    reflexivity. }
  assert (split_scheme (py "https://" ++ nl ++ py "/" ++ t')
          = (py "https", py "//" ++ nl ++ py "/" ++ t')) as Hscheme by reflexivity.
  assert (split_netloc (py "//" ++ nl ++ py "/" ++ t') = (nl, py "/" ++ t')) as Hnl.
  { unfold split_netloc. change (take 2 (py "//" ++ ?x)) with (py "//").
    change (drop 2 (py "//" ++ ?x)) with x.
    change (str_eqb (py "//") (py "//")) with true. cbn iota.
    destruct (take_while_app_stop (λ c, negb (netloc_delim c)) nl (py "/" ++ t'))
      as [-> ->]; [| |done].
    - intros c Hin. by destruct (Hchars c Hin) as [-> _].
    - intros y [= <-]. reflexivity. }
  rewrite <- Hclean in Hscheme.
  pose proof (urlsplit_stages _ _ _ _ _ Hscheme Hnl) as Hs. rewrite Hc in Hs.
  destruct Hs as (r & Hr & Hrn & _). by exists r.
Qed.

End UrlFacts.

(** ** The link extractor (services/crawler_service.py) *)

Section LinkExtraction.

Import crawler_service.

Variable netloc_extra_check : list N → option exn.
Variable pattern : Type.
Variable re_match : pattern → list N → bool.

Implicit Types (html base_url bd u t : list N) (pat : pattern).
Implicit Types (links : list (list N)) (seen : gset (list N)).

Local Abbreviation netloc' := (netloc_of netloc_extra_check).
Local Abbreviation accept' := (accept netloc_extra_check pattern re_match).
Local Abbreviation html_loop' := (html_loop netloc_extra_check pattern re_match).
Local Abbreviation markdown_loop' := (markdown_loop netloc_extra_check pattern re_match).
Local Abbreviation extract := (extract_article_links netloc_extra_check pattern re_match).
Local Abbreviation same_site_article :=
  (spec.same_site_article netloc_extra_check pattern re_match).
Local Abbreviation accepted := (spec.accepted netloc_extra_check pattern re_match).
Local Abbreviation collected := (spec.collected netloc_extra_check pattern re_match).

Lemma collected_empty bd pat : collected bd pat [] ∅.
Proof.
  split; [constructor|]. split; intros u.
  - rewrite elem_of_nil. set_solver.
  - by intros ?%elem_of_nil.
Qed.

Lemma accept_cases bd pat u links seen links' seen' :
  accept' bd pat u links seen = Ok (links', seen') →
  (links' = links ∧ seen' = seen ∧ (u ∈ seen ∨ ¬ same_site_article bd pat u))
  ∨ (links' = links ++ [u] ∧ seen' = ({[u]} ∪ seen) ∧ (u ∉ seen)
     ∧ same_site_article bd pat u).
Proof.
  unfold accept. case_bool_decide as Hseen.
  - intros [= <- <-]. left. auto.
  - destruct (netloc' u) as [nl|e] eqn:Hnl; cbn; [|done].
    destruct (str_eqb nl bd) eqn:Hd; cbn.
    + apply str_eqb_true in Hd as ->.
      destruct (_is_article_url pattern re_match u pat) eqn:Hp; cbn.
      * intros [= <- <-]. right. by repeat split.
      * intros [= <- <-]. left. repeat split. right. intros [_ ?]. congruence.
    + apply str_eqb_false in Hd. intros [= <- <-]. left. repeat split. right.
      intros [? _]. congruence.
Qed.

Lemma accept_collected bd pat u links seen links' seen' :
  collected bd pat links seen →
  accept' bd pat u links seen = Ok (links', seen') →
  collected bd pat links' seen'
  ∧ (∀ v, v ∈ links' ↔ v ∈ links ∨ (v = u ∧ same_site_article bd pat u)).
Proof.
  intros (Hnd & Hseen & Hgood) [(-> & -> & Hcase)|(-> & -> & Hnew & Hu)]%accept_cases.
  - split; [done|]. intros v. split; [auto|]. intros [?|[-> Hv]]; [done|].
    destruct Hcase as [?|?]; [by apply Hseen | done].
  - split.
    + split; [|split].
      * apply NoDup_app. split; [done|]. split; [|apply NoDup_singleton].
        intros v Hv ->%list_elem_of_singleton. apply Hnew. by apply Hseen.
      * intros v. rewrite elem_of_union, elem_of_singleton, elem_of_app,
          list_elem_of_singleton, Hseen. tauto.
      * intros v [Hv| ->%list_elem_of_singleton]%elem_of_app; [by apply Hgood | done].
    + intros v. rewrite elem_of_app, list_elem_of_singleton. tauto.
Qed.

(** The loop over the hyperlink targets: the invariant is kept, and the
    links added are exactly the absolute forms that pass the filters. *)
Lemma html_loop_spec bd pat matches : ∀ links seen links' seen',
  collected bd pat links seen →
  html_loop' bd pat matches links seen = Ok (links', seen') →
  collected bd pat links' seen'
  ∧ (∀ v, v ∈ links' ↔
       v ∈ links ∨ ∃ t, t ∈ matches
         ∧ absolute bd (strip_fragment_query t) = Some v ∧ same_site_article bd pat v).
Proof.
  induction matches as [|t rest IH]; intros links seen links' seen' Hinv; cbn.
  - intros [= <- <-]. split; [done|]. intros v. split; [auto|].
    intros [?|(t & []%elem_of_nil & _)]. done.
  - destruct (absolute bd (strip_fragment_query t)) as [u|] eqn:Ha.
    + destruct (accept' bd pat u links seen) as [[links1 seen1]|e] eqn:Hacc; cbn; [|done].
      intros Hloop. destruct (accept_collected _ _ _ _ _ _ _ Hinv Hacc) as [Hinv1 H1].
      destruct (IH _ _ _ _ Hinv1 Hloop) as [Hinv' H']. split; [done|].
      intros v. rewrite H', H1. split.
      * intros [[?|[-> ?]]|(t' & ? & ? & ?)]; [by left| |].
        -- right. exists t. split; [left|done].
        -- right. exists t'. split; [by right|done].
      * intros [?|(t' & [->|?]%elem_of_cons & Hv & ?)]; [by left; left| |].
        -- rewrite Ha in Hv. injection Hv as ->. left. by right.
        -- right. by exists t'.
    + intros Hloop. destruct (IH _ _ _ _ Hinv Hloop) as [Hinv' H']. split; [done|].
      intros v. rewrite H'. split.
      * intros [?|(t' & ? & ? & ?)]; [by left|]. right. exists t'. split; [by right|done].
      * intros [?|(t' & [->|?]%elem_of_cons & Hv & ?)]; [by left|congruence|].
        right. by exists t'.
Qed.

(** The same for the loop over the markdown links. *)
Lemma markdown_loop_spec bd pat (matches : list (list N * list N)) :
  ∀ links seen links' seen',
  collected bd pat links seen →
  markdown_loop' bd pat matches links seen = Ok (links', seen') →
  collected bd pat links' seen'
  ∧ (∀ v, v ∈ links' ↔
       v ∈ links ∨ ∃ m, m ∈ matches
         ∧ v = strip_fragment_query m.2 ∧ same_site_article bd pat v).
Proof.
  induction matches as [|[text t] rest IH]; intros links seen links' seen' Hinv; cbn.
  - intros [= <- <-]. split; [done|]. intros v. split; [auto|].
    intros [?|(m & []%elem_of_nil & _)]. done.
  - destruct (accept' bd pat (strip_fragment_query t) links seen)
      as [[links1 seen1]|e] eqn:Hacc; cbn; [|done].
    intros Hloop. destruct (accept_collected _ _ _ _ _ _ _ Hinv Hacc) as [Hinv1 H1].
    destruct (IH _ _ _ _ Hinv1 Hloop) as [Hinv' H']. split; [done|].
    intros v. rewrite H', H1. split.
    + intros [[?|[-> ?]]|(m & ? & ? & ?)]; [by left| |].
      * right. exists (text, t). split; [left|done].
      * right. exists m. split; [by right|done].
    + intros [?|(m & [->|?]%elem_of_cons & Hv & ?)]; [by left; left| |].
      * cbn in Hv. subst v. left. by right.
      * right. by exists m.
Qed.

(** The two strategies of [extract_article_links], one after the other. *)
Lemma extract_strategies html base_url pat links :
  extract html base_url pat = Ok links →
  ∃ bd html_result seen,
    netloc' base_url = Ok bd
    ∧ html_loop' bd pat (findall href_at 0 html) [] ∅ = Ok (html_result, seen)
    ∧ ((html_result ≠ [] ∧ links = html_result)
       ∨ (html_result = [] ∧ ∃ seen',
            markdown_loop' bd pat (findall markdown_at 0 html) [] ∅ = Ok (links, seen'))).
Proof.
  unfold extract_article_links.
  destruct (netloc' base_url) as [bd|e]; cbn; [|done].
  destruct (html_loop' bd pat (findall href_at 0 html) [] ∅)
    as [[html_result seen]|e] eqn:Hh; cbn; [|done].
  destruct (html_loop_spec _ _ _ _ _ _ _ (collected_empty bd pat) Hh) as [(_ & Hseen & _) _].
  case_bool_decide as Hnil; cbn.
  - subst html_result. assert (seen = ∅) as ->.
    { apply set_eq. intros u. rewrite Hseen, elem_of_nil. split; [done|].
      by intros ?%not_elem_of_empty. }
    destruct (markdown_loop' bd pat _ [] ∅) as [[links1 seen1]|e] eqn:Hm; cbn; [|done].
    intros [= <-]. exists bd, [], ∅. split; [done|]. split; [exact Hh|].
    right. split; [done|]. by exists seen1.
  - intros [= <-]. exists bd, html_result, seen. split; [done|]. split; [exact Hh|].
    by left.
Qed.

(** The invariant holds of the returned links, whichever strategy found
    them. *)
Lemma extract_collected html base_url pat links :
  extract html base_url pat = Ok links →
  ∃ bd seen, netloc' base_url = Ok bd ∧ collected bd pat links seen.
Proof.
  intros (bd & html_result & seen & Hbd & Hh & Hcase)%extract_strategies.
  exists bd.
  destruct (html_loop_spec _ _ _ _ _ _ _ (collected_empty bd pat) Hh) as [Hinv _].
  destruct Hcase as [[_ ->]|(_ & seen' & Hm)].
  - by exists seen.
  - destruct (markdown_loop_spec _ _ _ _ _ _ _ (collected_empty bd pat) Hm) as [Hinv' _].
    by exists seen'.
Qed.

(** C2. Every URL returned by the link extractor has the network location
    of the base URL and matches the article pattern, and the list holds no
    URL twice. *)
Theorem extracted_links_same_domain_article_shape html base_url pat links :
  extract html base_url pat = Ok links →
  ∃ bd,
    netloc' base_url = Ok bd
    ∧ (∀ u, u ∈ links →
         netloc' u = Ok bd ∧ _is_article_url pattern re_match u pat = true)
    ∧ NoDup links.
Proof.
  intros He. destruct (extract_collected _ _ _ _ He) as (bd & seen & Hbd & Hinv).
  destruct Hinv as (Hnodup & _ & Hfilters).
  exists bd. split; [exact Hbd|]. split; [|exact Hnodup].
  intros u Hu. destruct (Hfilters u Hu) as [Hsite Hshape].
  split; [exact Hsite | exact Hshape].
Qed.

(** What the parse of the base URL tells about its network location. *)
Lemma base_domain_chars base_url bd :
  netloc' base_url = Ok bd →
  check_netloc netloc_extra_check bd = Ok ()
  ∧ ∀ c, c ∈ bd → netloc_delim c = false ∧ unsafe_byte c = false.
Proof.
  unfold netloc_of.
  destruct (urlparse netloc_extra_check base_url) as [p|e] eqn:Hp; cbn; [|done].
  intros [= <-]. apply urlparse_netloc in Hp as (r & Hr & ->).
  by apply urlsplit_netloc_chars in Hr.
Qed.

(** A target that starts with a slash is resolved with the network
    location of the base URL, and the result has that network location. *)
Lemma absolute_relative base_url bd u :
  netloc' base_url = Ok bd →
  startswith (py "/") u = true →
  absolute bd u = Some (py "https://" ++ bd ++ u)
  ∧ netloc' (py "https://" ++ bd ++ u) = Ok bd.
Proof.
  intros Hbd Hu. split.
  - unfold absolute. rewrite Hu.
    apply startswith_prefix in Hu as [r ->]. reflexivity.
  - destruct (base_domain_chars _ _ Hbd) as [Hc Hchars].
    destruct (urlsplit_resolved netloc_extra_check bd u Hc Hchars Hu) as (r & Hr & Hnl).
    apply urlparse_of_urlsplit in Hr as (p & Hp & Hpn).
    unfold netloc_of. rewrite Hp. cbn. by rewrite Hpn, Hnl.
Qed.

Lemma has_char_app (c : N) (a b : list N) :
  has_char c (a ++ b) = has_char c a || has_char c b.
Proof. unfold has_char. apply existsb_app. Qed.

Lemma strip_fragment_query_no_query t : no_query (strip_fragment_query t).
Proof.
  unfold no_query, strip_fragment_query. split.
  - apply before_without.
  - apply before_keeps_without, before_without.
Qed.

Lemma resolved_no_query bd u :
  (∀ c, c ∈ bd → netloc_delim c = false ∧ unsafe_byte c = false) →
  no_query u → no_query (py "https://" ++ bd ++ u).
Proof.
  intros Hchars [Hq Hf].
  assert (∀ c, netloc_delim c = true → has_char c bd = false) as Hno.
  { intros c Hc. apply has_char_false. intros Hin.
    destruct (Hchars c Hin). congruence. }
  split; rewrite !has_char_app.
  - rewrite Hq, (Hno (chr "?")) by reflexivity. reflexivity.
  - rewrite Hf, (Hno (chr "#")) by reflexivity. reflexivity.
Qed.

Lemma absolute_no_query base_url bd t u :
  netloc' base_url = Ok bd →
  absolute bd (strip_fragment_query t) = Some u → no_query u.
Proof.
  intros Hbd. unfold absolute.
  destruct (_ || _).
  - destruct (startswith _ _); [|done]. intros Hu.
    assert (u = py "https://" ++ bd ++ strip_fragment_query t) as -> by congruence.
    destruct (base_domain_chars _ _ Hbd) as [_ Hchars].
    apply resolved_no_query; [exact Hchars | apply strip_fragment_query_no_query].
  - intros [= <-]. apply strip_fragment_query_no_query.
Qed.

(** Where the links of a result come from. *)
Lemma extract_sources html base_url pat links :
  extract html base_url pat = Ok links →
  ∃ bd html_result seen,
    netloc' base_url = Ok bd
    ∧ html_loop' bd pat (findall href_at 0 html) [] ∅ = Ok (html_result, seen)
    ∧ (html_result = [] ↔ ∀ t, t ∈ findall href_at 0 html → ¬ accepted bd pat t)
    ∧ (html_result ≠ [] →
       ∀ u, u ∈ links ↔ ∃ t, t ∈ findall href_at 0 html
              ∧ absolute bd (strip_fragment_query t) = Some u
              ∧ same_site_article bd pat u)
    ∧ (html_result = [] →
       ∀ u, u ∈ links ↔ ∃ m, m ∈ findall markdown_at 0 html
              ∧ u = strip_fragment_query m.2 ∧ same_site_article bd pat u).
Proof.
  intros (bd & html_result & seen & Hbd & Hh & Hcase)%extract_strategies.
  exists bd, html_result, seen. split; [exact Hbd|]. split; [exact Hh|].
  destruct (html_loop_spec _ _ _ _ _ _ _ (collected_empty bd pat) Hh) as [_ Hin].
  assert (∀ v, v ∈ html_result ↔ ∃ t, t ∈ findall href_at 0 html
            ∧ absolute bd (strip_fragment_query t) = Some v
            ∧ same_site_article bd pat v) as Hin'.
  { intros v. rewrite Hin, elem_of_nil. tauto. }
  split; [|split].
  - split.
    + intros -> t Ht (u & Ha & Hu).
      apply (elem_of_nil u), Hin'. by exists t.
    + intros Hnone. destruct html_result as [|v ?]; [done|].
      destruct (proj1 (Hin' v)) as (t & Ht & Ha & Hv); [left|].
      destruct (Hnone t Ht). by exists v.
  - intros Hne. destruct Hcase as [[_ ->]|[-> _]]; [exact Hin' | done].
  - intros ->. destruct Hcase as [[? _]|(_ & seen' & Hm)]; [done|].
    destruct (markdown_loop_spec _ _ _ _ _ _ _ (collected_empty bd pat) Hm) as [_ Hm'].
    intros u. rewrite Hm', elem_of_nil. tauto.
Qed.

(** C8. A hyperlink target that starts with a slash (after the fragment
    and the query are cut) is resolved to the absolute URL made of https://,
    the network location of the base URL and the target; that URL has the
    network location of the base URL, so it passes the domain filter, and it
    is among the returned links exactly when it matches the article
    pattern. *)
Theorem relative_target_resolved_before_filters html base_url pat links t :
  extract html base_url pat = Ok links →
  t ∈ findall href_at 0 html →
  startswith (py "/") (strip_fragment_query t) = true →
  ∃ bd,
    netloc' base_url = Ok bd
    ∧ absolute bd (strip_fragment_query t)
      = Some (py "https://" ++ bd ++ strip_fragment_query t)
    ∧ netloc' (py "https://" ++ bd ++ strip_fragment_query t) = Ok bd
    ∧ (py "https://" ++ bd ++ strip_fragment_query t ∈ links
       ↔ _is_article_url pattern re_match
           (py "https://" ++ bd ++ strip_fragment_query t) pat = true).
Proof.
  intros He Ht Hrel.
  destruct (extract_collected _ _ _ _ He) as (bd' & seen' & Hbd' & _ & _ & Hgood).
  destruct (extract_sources _ _ _ _ He) as (bd & html_result & seen & Hbd & Hh & Hnil & Hsome & _).
  destruct (absolute_relative base_url bd _ Hbd Hrel) as [Ha Hn].
  exists bd. split; [exact Hbd|]. split; [exact Ha|]. split; [exact Hn|].
  split.
  - intros Hin. by apply Hgood in Hin as [_ ?].
  - intros Hp.
    assert (html_result ≠ []) as Hne.
    { intros Hempty. apply (proj1 Hnil Hempty t Ht).
      eexists. split; [exact Ha|]. by split. }
    apply (Hsome Hne). exists t. split; [exact Ht|]. split; [exact Ha|]. by split.
Qed.

Local Abbreviation passes := (spec.passes netloc_extra_check pattern re_match).

(** The candidates that pass the filters, each once, in order. *)
Local Abbreviation selected bd pat cs :=
  (first_occurrences (filter (λ u, passes bd pat u = true) cs)).

Lemma passes_site bd pat u : passes bd pat u = true ↔ same_site_article bd pat u.
Proof.
  unfold spec.passes, spec.same_site_article.
  destruct (netloc' u) as [nl|e]; [|by split; [|intros [? _]]].
  rewrite andb_true_iff, str_eqb_true. split.
  - by intros [-> ?].
  - by intros [[= ->] ?].
Qed.

Lemma first_occurrences_elem cs u : u ∈ first_occurrences cs ↔ u ∈ cs.
Proof.
  induction cs as [|x cs IH]; [done|]. cbn [first_occurrences].
  rewrite !elem_of_cons, list_elem_of_filter, IH.
  destruct (decide (u = x)); tauto.
Qed.

Lemma first_occurrences_NoDup cs : NoDup (first_occurrences cs).
Proof.
  induction cs as [|x cs IH]; [constructor|]. cbn [first_occurrences].
  constructor; [|by apply NoDup_filter].
  rewrite list_elem_of_filter. by intros [? _].
Qed.

Lemma filter_not_in_snoc links u (l : list (list N)) :
  filter (λ v, v ∉ links ++ [u]) l = filter (λ v, v ∉ links) (filter (λ v, v ≠ u) l).
Proof.
  induction l as [|x l IH]; [done|]. rewrite !filter_cons, IH.
  destruct (decide (x ≠ u)) as [Hne|Heq%dec_stable].
  - rewrite filter_cons.
    destruct (decide (x ∉ links ++ [u])) as [H1|H1], (decide (x ∉ links)) as [H2|H2];
      try done.
    + destruct H2. intros ?. apply H1, elem_of_app. by left.
    + destruct H1. intros [?|?%list_elem_of_singleton]%elem_of_app; done.
  - subst x. destruct (decide (u ∉ links ++ [u])) as [H1|_]; [|done].
    destruct H1. apply elem_of_app. right. left.
Qed.

Lemma filter_not_in_member links u (l : list (list N)) :
  u ∈ links →
  filter (λ v, v ∉ links) (filter (λ v, v ≠ u) l) = filter (λ v, v ∉ links) l.
Proof.
  intros Hu. induction l as [|x l IH]; [done|]. rewrite !filter_cons.
  destruct (decide (x ≠ u)) as [Hne|Heq%dec_stable].
  - rewrite filter_cons, IH. done.
  - subst x. rewrite IH. by destruct (decide (u ∉ links)).
Qed.

(** One candidate of either loop: the links after it, with what the rest
    of the page adds, are the links before it with what the candidate and
    the rest add. *)
Lemma accept_order bd pat u links seen links1 seen1 :
  (∀ v, v ∈ seen ↔ v ∈ links) →
  accept' bd pat u links seen = Ok (links1, seen1) →
  (∀ v, v ∈ seen1 ↔ v ∈ links1)
  ∧ ∀ cs, links1 ++ filter (λ v, v ∉ links1) (selected bd pat cs)
          = links ++ filter (λ v, v ∉ links) (selected bd pat (u :: cs)).
Proof.
  intros Hseen [(-> & -> & Hcase)|(-> & -> & Hnew & Hu)]%accept_cases.
  - split; [done|]. intros cs. f_equal. rewrite filter_cons.
    destruct (decide (passes bd pat u = true)) as [Hp|Hp]; [|done].
    destruct Hcase as [Hin|Hno]; [|by apply passes_site in Hp].
    apply Hseen in Hin. cbn [first_occurrences]. rewrite filter_cons.
    destruct (decide (u ∉ links)) as [?|_]; [done|].
    symmetry. by apply filter_not_in_member.
  - split.
    + intros v. rewrite elem_of_union, elem_of_singleton, elem_of_app,
        list_elem_of_singleton, Hseen. tauto.
    + intros cs. rewrite filter_cons.
      destruct (decide (passes bd pat u = true)) as [_|Hp];
        [|by apply passes_site in Hu].
      cbn [first_occurrences]. rewrite filter_cons.
      assert (u ∉ links) as Hnotin by by rewrite <- Hseen.
      destruct (decide (u ∉ links)) as [_|?]; [|done].
      rewrite <- app_assoc. cbn [app]. do 2 f_equal. apply filter_not_in_snoc.
Qed.

Lemma html_loop_order bd pat matches : ∀ links seen links' seen',
  (∀ v, v ∈ seen ↔ v ∈ links) →
  html_loop' bd pat matches links seen = Ok (links', seen') →
  links' = links ++ filter (λ v, v ∉ links)
                      (selected bd pat
                         (omap (λ t, absolute bd (strip_fragment_query t)) matches)).
Proof.
  induction matches as [|t rest IH]; intros links seen links' seen' Hseen;
    cbn [html_loop omap list_omap].
  - intros [= <- <-]. cbn. by rewrite app_nil_r.
  - destruct (absolute bd (strip_fragment_query t)) as [u|] eqn:Ha; [|by apply IH].
    destruct (accept' bd pat u links seen) as [[links1 seen1]|e] eqn:Hacc; cbn; [|done].
    intros Hloop. destruct (accept_order _ _ _ _ _ _ _ Hseen Hacc) as [Hseen1 Hstep].
    rewrite (IH _ _ _ _ Hseen1 Hloop). apply Hstep.
Qed.

Lemma markdown_loop_order bd pat (matches : list (list N * list N)) :
  ∀ links seen links' seen',
  (∀ v, v ∈ seen ↔ v ∈ links) →
  markdown_loop' bd pat matches links seen = Ok (links', seen') →
  links' = links ++ filter (λ v, v ∉ links)
                      (selected bd pat
                         ((λ m : list N * list N, strip_fragment_query m.2) <$> matches)).
Proof.
  induction matches as [|[text t] rest IH]; intros links seen links' seen' Hseen;
    cbn [markdown_loop fmap list_fmap snd].
  - intros [= <- <-]. cbn. by rewrite app_nil_r.
  - destruct (accept' bd pat (strip_fragment_query t) links seen)
      as [[links1 seen1]|e] eqn:Hacc; cbn; [|done].
    intros Hloop. destruct (accept_order _ _ _ _ _ _ _ Hseen Hacc) as [Hseen1 Hstep].
    rewrite (IH _ _ _ _ Hseen1 Hloop). apply Hstep.
Qed.

Lemma filter_not_in_nil (l : list (list N)) : filter (λ v, v ∉ @nil (list N)) l = l.
Proof.
  induction l as [|x l IH]; [done|]. rewrite filter_cons, IH.
  destruct (decide (x ∉ [])) as [_|H]; [done|]. destruct H. by intros ?%elem_of_nil.
Qed.

(** What [extract_article_links] returns, as a function of the page: the
    hyperlink candidates that pass the filters when there is one, and
    otherwise the markdown candidates that pass. *)
Lemma extract_selected html base_url pat links :
  extract html base_url pat = Ok links →
  ∃ bd,
    netloc' base_url = Ok bd
    ∧ links
      = (if bool_decide (selected bd pat (html_candidates bd html) = [])
         then selected bd pat (markdown_candidates html)
         else selected bd pat (html_candidates bd html)).
Proof.
  intros He.
  destruct (extract_strategies _ _ _ _ He)
    as (bd & html_result & seen & Hbd & Hh & Hcase).
  assert (∀ v, v ∈ (∅ : gset (list N)) ↔ v ∈ @nil (list N)) as Hempty.
  { intros v. rewrite elem_of_nil. split; [by intros ?%not_elem_of_empty | done]. }
  pose proof (html_loop_order _ _ _ _ _ _ _ Hempty Hh) as Hfirst.
  rewrite app_nil_l, filter_not_in_nil in Hfirst.
  fold (html_candidates bd html) in Hfirst.
  exists bd. split; [done|].
  destruct Hcase as [[Hne ->]|(Hnil & seen' & Hm)].
  - rewrite <- Hfirst. by rewrite bool_decide_eq_false_2.
  - rewrite <- Hfirst, Hnil, bool_decide_eq_true_2 by done.
    pose proof (markdown_loop_order _ _ _ _ _ _ _ Hempty Hm) as Hsecond.
    by rewrite app_nil_l, filter_not_in_nil in Hsecond.
Qed.

Lemma selected_html_elem bd pat html u :
  u ∈ selected bd pat (html_candidates bd html) ↔
  ∃ t, t ∈ findall href_at 0 html
     ∧ absolute bd (strip_fragment_query t) = Some u ∧ same_site_article bd pat u.
Proof.
  rewrite first_occurrences_elem, list_elem_of_filter, passes_site.
  unfold html_candidates. rewrite list_elem_of_omap. split.
  - intros (Hs & t & Ht & Ha). by exists t.
  - intros (t & Ht & Ha & Hs). split; [done|]. by exists t.
Qed.

Lemma selected_markdown_elem bd pat html u :
  u ∈ selected bd pat (markdown_candidates html) ↔
  ∃ m, m ∈ findall markdown_at 0 html
     ∧ u = strip_fragment_query m.2 ∧ same_site_article bd pat u.
Proof.
  rewrite first_occurrences_elem, list_elem_of_filter, passes_site.
  unfold markdown_candidates. rewrite list_elem_of_fmap. split.
  - intros (Hs & m & Hu & Hm). by exists m.
  - intros (m & Hm & Hu & Hs). split; [done|]. by exists m.
Qed.

Lemma selected_html_nil bd pat html :
  selected bd pat (html_candidates bd html) = []
  ↔ ∀ t, t ∈ findall href_at 0 html → ¬ accepted bd pat t.
Proof.
  split.
  - intros Hnil t Ht (u & Ha & Hu).
    apply (elem_of_nil u). rewrite <- Hnil. apply selected_html_elem. by exists t.
  - intros Hnone. destruct (selected bd pat (html_candidates bd html)) as [|u l] eqn:E;
      [done|].
    assert (u ∈ selected bd pat (html_candidates bd html)) as Hu by (rewrite E; left).
    apply selected_html_elem in Hu as (t & Ht & Ha & Hu). destruct (Hnone t Ht).
    by exists u.
Qed.

(** C4, as amended. The markdown scan is used exactly when the pass over
    the hyperlink tags yields no link, that is when no hyperlink target is
    accepted (resolved, on the site of the base URL and of article shape).
    Then [extract_article_links] returns the result of the scan: the targets
    of the markdown links that pass the filters, each once, in page order;
    this is so in particular when there is no hyperlink-tag match at all.
    When some hyperlink target is accepted the scan is not used: the result
    is the list of the accepted hyperlink targets, each once, in page order,
    it is not empty, and a markdown link is returned only if it is also an
    accepted hyperlink target. One of the two cases always holds. *)
Theorem markdown_scan_iff_no_link_accepted html base_url pat links :
  extract html base_url pat = Ok links →
  ∃ bd,
    netloc' base_url = Ok bd
    ∧ ((∀ t, t ∈ findall href_at 0 html → ¬ accepted bd pat t)
       ∨ (∃ t, t ∈ findall href_at 0 html ∧ accepted bd pat t))
    ∧ ((∀ t, t ∈ findall href_at 0 html → ¬ accepted bd pat t) →
       links = selected bd pat (markdown_candidates html)
       ∧ ∀ u, u ∈ links ↔
           ∃ m, m ∈ findall markdown_at 0 html
             ∧ u = strip_fragment_query m.2 ∧ same_site_article bd pat u)
    ∧ ((∃ t, t ∈ findall href_at 0 html ∧ accepted bd pat t) →
       links = selected bd pat (html_candidates bd html)
       ∧ links ≠ []
       ∧ ∀ u, u ∈ links ↔
           ∃ t, t ∈ findall href_at 0 html
             ∧ absolute bd (strip_fragment_query t) = Some u
             ∧ same_site_article bd pat u)
    ∧ (findall href_at 0 html = [] →
       links = selected bd pat (markdown_candidates html)).
Proof.
  intros He. destruct (extract_selected _ _ _ _ He) as (bd & Hbd & Hlinks).
  exists bd. split; [exact Hbd|].
  assert ((∀ t, t ∈ findall href_at 0 html → ¬ accepted bd pat t) →
          links = selected bd pat (markdown_candidates html)) as Hnone.
  { intros Hno%selected_html_nil. by rewrite Hlinks, bool_decide_eq_true_2. }
  split_and!.
  - destruct (decide (selected bd pat (html_candidates bd html) = [])) as [Hnil|Hne].
    + left. by apply selected_html_nil.
    + right. destruct (selected bd pat (html_candidates bd html)) as [|u l] eqn:E; [done|].
      assert (u ∈ selected bd pat (html_candidates bd html)) as Hu by (rewrite E; left).
      apply selected_html_elem in Hu as (t & Ht & Ha & Hu). exists t. split; [done|].
      by exists u.
  - intros Hno. split; [by apply Hnone|]. intros u. rewrite (Hnone Hno).
    apply selected_markdown_elem.
  - intros (t & Ht & Hacc).
    assert (selected bd pat (html_candidates bd html) ≠ []) as Hne.
    { intros Hnil. by apply (proj1 (selected_html_nil bd pat html) Hnil t Ht). }
    rewrite bool_decide_eq_false_2 in Hlinks by done. subst links.
    split_and!; [done..|]. intros u. apply selected_html_elem.
  - intros Hnil. apply Hnone. intros t Ht. rewrite Hnil in Ht. by apply elem_of_nil in Ht.
Qed.

(** Every link returned by [extract_article_links], from either strategy,
    has lost its query and its fragment. *)
Lemma extracted_links_no_query html base_url pat links :
  extract html base_url pat = Ok links → ∀ u, u ∈ links → no_query u.
Proof.
  intros He u Hu.
  destruct (extract_sources _ _ _ _ He)
    as (bd & html_result & seen & Hbd & Hh & Hnil & Hsome & Hnone).
  destruct (decide (html_result = [])) as [Hempty|Hne].
  - destruct (proj1 (Hnone Hempty u) Hu) as (m & _ & Hm & _). rewrite Hm.
    apply strip_fragment_query_no_query.
  - destruct (proj1 (Hsome Hne u) Hu) as (t & _ & Ha & _).
    by apply (absolute_no_query base_url bd t).
Qed.

End LinkExtraction.

(** The links of the listing page of zamon.uz. *)
Lemma extracted_links_witness :
  ∃ bd,
    crawler_service.netloc_of Examples.no_extra_check Examples.zamon_sport = Ok bd
    ∧ (∀ u, u ∈ [py "https://zamon.uz/detail/birinchi"; py "https://zamon.uz/detail/ikkinchi"] →
         crawler_service.netloc_of Examples.no_extra_check u = Ok bd
         ∧ crawler_service._is_article_url Examples.regex Examples.re_match u
             Examples.zamon_pattern = true)
    ∧ NoDup [py "https://zamon.uz/detail/birinchi"; py "https://zamon.uz/detail/ikkinchi"].
Proof.
  apply (extracted_links_same_domain_article_shape Examples.no_extra_check
           Examples.regex Examples.re_match Examples.listing_page Examples.zamon_sport
           Examples.zamon_pattern).
  by_evaluation.
Defined.

(** The target /detail/ikkinchi of the listing page is resolved against
    zamon.uz and returned. *)
Lemma relative_target_witness :
  ∃ bd,
    crawler_service.netloc_of Examples.no_extra_check Examples.zamon_sport = Ok bd
    ∧ crawler_service.absolute bd (crawler_service.strip_fragment_query (py "/detail/ikkinchi"))
      = Some (py "https://" ++ bd ++ crawler_service.strip_fragment_query (py "/detail/ikkinchi"))
    ∧ crawler_service.netloc_of Examples.no_extra_check
        (py "https://" ++ bd ++ crawler_service.strip_fragment_query (py "/detail/ikkinchi"))
      = Ok bd
    ∧ (py "https://" ++ bd ++ crawler_service.strip_fragment_query (py "/detail/ikkinchi")
         ∈ [py "https://zamon.uz/detail/birinchi"; py "https://zamon.uz/detail/ikkinchi"]
       ↔ crawler_service._is_article_url Examples.regex Examples.re_match
           (py "https://" ++ bd ++ crawler_service.strip_fragment_query (py "/detail/ikkinchi"))
           Examples.zamon_pattern = true).
Proof.
  apply (relative_target_resolved_before_filters Examples.no_extra_check
           Examples.regex Examples.re_match Examples.listing_page Examples.zamon_sport
           Examples.zamon_pattern).
  - by_evaluation.
  - assert (re.findall re.href_at 0 Examples.listing_page
            = [py "https://zamon.uz/detail/birinchi?from=list#izoh";
               py "/detail/ikkinchi";
               py "https://zamon.uz/detail/birinchi";
               py "https://kun.uz/detail/boshqa";
               py "/about"]) as -> by by_evaluation.
    right. left.
  - by_evaluation.
Defined.

(** The page holds a hyperlink-tag match, /about, which is no article; the
    markdown scan is used all the same and yields the link of the result. *)
Lemma markdown_scan_counterexample :
  re.findall re.href_at 0 Examples.text_page = [py "/about"]
  ∧ html_candidates (py "zamon.uz") Examples.text_page = [py "https://zamon.uz/about"]
  ∧ re.findall re.markdown_at 0 Examples.text_page
    = [(py "Yangilik", py "https://zamon.uz/detail/uchinchi")]
  ∧ crawler_service.extract_article_links Examples.no_extra_check Examples.regex
      Examples.re_match Examples.text_page Examples.zamon_sport Examples.zamon_pattern
    = Ok [py "https://zamon.uz/detail/uchinchi"].
Proof. split_and!; by_evaluation. Qed.

Lemma markdown_scan_witness :
  ∃ bd,
    crawler_service.netloc_of Examples.no_extra_check Examples.zamon_sport = Ok bd
    ∧ ((∀ t, t ∈ re.findall re.href_at 0 Examples.text_page →
          ¬ accepted Examples.no_extra_check Examples.regex Examples.re_match bd
              Examples.zamon_pattern t)
       ∨ (∃ t, t ∈ re.findall re.href_at 0 Examples.text_page
            ∧ accepted Examples.no_extra_check Examples.regex Examples.re_match bd
                Examples.zamon_pattern t))
    ∧ ((∀ t, t ∈ re.findall re.href_at 0 Examples.text_page →
          ¬ accepted Examples.no_extra_check Examples.regex Examples.re_match bd
              Examples.zamon_pattern t) →
       [py "https://zamon.uz/detail/uchinchi"]
       = first_occurrences
           (filter (λ u, passes Examples.no_extra_check Examples.regex Examples.re_match
                           bd Examples.zamon_pattern u = true)
              (markdown_candidates Examples.text_page))
       ∧ ∀ u, u ∈ [py "https://zamon.uz/detail/uchinchi"] ↔
           ∃ m, m ∈ re.findall re.markdown_at 0 Examples.text_page
             ∧ u = crawler_service.strip_fragment_query m.2
             ∧ same_site_article Examples.no_extra_check Examples.regex
                 Examples.re_match bd Examples.zamon_pattern u)
    ∧ ((∃ t, t ∈ re.findall re.href_at 0 Examples.text_page
          ∧ accepted Examples.no_extra_check Examples.regex Examples.re_match bd
              Examples.zamon_pattern t) →
       [py "https://zamon.uz/detail/uchinchi"]
       = first_occurrences
           (filter (λ u, passes Examples.no_extra_check Examples.regex Examples.re_match
                           bd Examples.zamon_pattern u = true)
              (html_candidates bd Examples.text_page))
       ∧ [py "https://zamon.uz/detail/uchinchi"] ≠ []
       ∧ ∀ u, u ∈ [py "https://zamon.uz/detail/uchinchi"] ↔
           ∃ t, t ∈ re.findall re.href_at 0 Examples.text_page
             ∧ crawler_service.absolute bd (crawler_service.strip_fragment_query t)
               = Some u
             ∧ same_site_article Examples.no_extra_check Examples.regex
                 Examples.re_match bd Examples.zamon_pattern u)
    ∧ (re.findall re.href_at 0 Examples.text_page = [] →
       [py "https://zamon.uz/detail/uchinchi"]
       = first_occurrences
           (filter (λ u, passes Examples.no_extra_check Examples.regex Examples.re_match
                           bd Examples.zamon_pattern u = true)
              (markdown_candidates Examples.text_page))).
Proof.
  apply (markdown_scan_iff_no_link_accepted Examples.no_extra_check
           Examples.regex Examples.re_match Examples.text_page Examples.zamon_sport
           Examples.zamon_pattern).
  by_evaluation.
Defined.

(** ** Pagination (services/crawler_service.py) *)

Section Pagination.

Import crawler_service.

Variable netloc_extra_check : list N → option exn.
Variable unquote_percent : list N → list N.
Variable pattern : Type.
Variable re_match : pattern → list N → bool.
Variable render : nat → list N → Res (list N).
Variable page_goto : list N → Res ().
Variable click_next : nat → list (list N) → Res (option (list N)).

Implicit Types (html base_url bd u t param : list N) (pat : pattern) (w : World).
Implicit Types (links all new : list (list N)) (seen : gset (list N)).
Implicit Types (pages : list Z) (needed : Z).

Local Abbreviation netloc' := (netloc_of netloc_extra_check).
Local Abbreviation extract := (extract_article_links netloc_extra_check pattern re_match).
Local Abbreviation build := (_build_paginated_url netloc_extra_check unquote_percent).
Local Abbreviation loop :=
  (paginate_loop netloc_extra_check unquote_percent pattern re_match render).
Local Abbreviation by_url :=
  (_paginate_by_url netloc_extra_check unquote_percent pattern re_match render).
Local Abbreviation links_from_html :=
  (_extract_links_from_html netloc_extra_check pattern re_match).
Local Abbreviation fetch_links :=
  (spec.fetch_links netloc_extra_check pattern re_match render).
Local Abbreviation paging :=
  (spec.paging netloc_extra_check unquote_percent pattern re_match render).

Lemma fresh_snoc new all l : l ∉ new → fresh new (all ++ [l]) = fresh new all.
Proof.
  unfold fresh. induction new as [|x new IH]; intros Hl; [done|].
  apply not_elem_of_cons in Hl as [Hne Hl]. rewrite !filter_cons, IH by done.
  destruct (decide (x ∉ all ++ [l])) as [H1|H1], (decide (x ∉ all)) as [H2|H2];
    try done.
  - destruct H2. intros ?. apply H1. apply elem_of_app. by left.
  - destruct H1. intros [?|Hx%list_elem_of_singleton]%elem_of_app; [done|].
    by subst.
Qed.

Lemma merge_new_spec new : ∀ all seen added,
  NoDup new → (∀ u, u ∈ seen ↔ u ∈ all) →
  ∃ seen',
    merge_new new all seen added
    = (all ++ fresh new all, seen', added + Z.of_nat (length (fresh new all)))
    ∧ (∀ u, u ∈ seen' ↔ u ∈ all ++ fresh new all).
Proof.
  unfold fresh. induction new as [|l new IH]; intros all seen added Hnd Hseen;
    cbn [merge_new].
  - exists seen. rewrite filter_nil, app_nil_r. cbn. rewrite Z.add_0_r. by split.
  - apply NoDup_cons in Hnd as [Hl Hnd]. rewrite filter_cons.
    case_bool_decide as Hin.
    + apply Hseen in Hin. destruct (decide (l ∉ all)) as [?|_]; [done|].
      by apply IH.
    + assert (l ∉ all) as Hnotin by (by rewrite <- Hseen).
      destruct (decide (l ∉ all)) as [_|?]; [|done].
      destruct (IH (all ++ [l]) ({[l]} ∪ seen) (added + 1) Hnd) as (seen' & E & Hseen').
      { intros u. rewrite elem_of_union, elem_of_singleton, elem_of_app,
          list_elem_of_singleton, Hseen. tauto. }
      pose proof (fresh_snoc new all l Hl) as Hf. unfold fresh in Hf.
      rewrite Hf in E, Hseen'. exists seen'. split.
      * rewrite E. cbn [length]. rewrite <- app_assoc. cbn. f_equal; try done. lia.
      * intros u. rewrite Hseen', <- app_assoc. done.
Qed.

Lemma fresh_nil_iff new all : fresh new all = [] ↔ ∀ u, u ∈ new → u ∈ all.
Proof.
  unfold fresh. split.
  - intros H u Hu. destruct (decide (u ∈ all)) as [|Hn]; [done|].
    assert (u ∈ filter (λ l, l ∉ all) new) as Hf by (by apply list_elem_of_filter).
    rewrite H in Hf. by apply elem_of_nil in Hf.
  - intros H. destruct (filter _ new) as [|u r] eqn:E; [done|].
    assert (u ∈ filter (λ l, l ∉ all) new) as Hf by (rewrite E; left).
    apply list_elem_of_filter in Hf as [Hn Hu]. destruct Hn. by apply H.
Qed.

(** One turn of the loop of [_paginate_by_url]. *)
Lemma paginate_loop_cons base_url needed pat param page rest all seen w :
  loop base_url needed pat param (page :: rest) all seen w =
  if Z.of_nat (length all) >=? needed then (Ok all, w)
  else match build base_url param page with
       | Raise e => (Raise e, w)
       | Ok u =>
           match fetch_links w base_url pat u with
           | Raise _ => (Ok all, requested w u)
           | Ok new =>
               let '(all', seen', added) := merge_new new all seen 0 in
               if added =? 0 then (Ok all', requested w u)
               else loop base_url needed pat param rest all' seen' (requested w u)
           end
       end.
Proof.
  cbn [paginate_loop]. destruct (Z.of_nat (length all) >=? needed); [done|].
  unfold mbind at 1, M_bind, lift. destruct (build base_url param page) as [u|e]; [|done].
  unfold mbind at 1, M_bind, try, crawl_category_page, spec.fetch_links, requested.
  unfold mbind at 1, M_bind.
  destruct (render (length (requests w)) u) as [html|e]; cbn; [|done].
  destruct (extract html base_url pat) as [new|e]; cbn; [|done].
  destruct (merge_new new all seen 0) as [[all' seen'] added].
  destruct (added =? 0); done.
Qed.

Lemma fetch_links_nodup w base_url pat u new :
  fetch_links w base_url pat u = Ok new → NoDup new ∧ ∀ l, l ∈ new → no_query l.
Proof.
  unfold spec.fetch_links. destruct (render _ u) as [html|e]; cbn; [|done]. intros He.
  split.
  - by destruct (extract_collected _ _ _ _ _ _ _ He) as (_ & _ & _ & ? & _).
  - by apply (extracted_links_no_query _ _ _ _ _ _ _ He).
Qed.

(** The loop runs the state machine. *)
Lemma paginate_loop_paging base_url needed pat param pages : ∀ all seen w,
  (∀ u, u ∈ seen ↔ u ∈ all) →
  ∃ res w',
    loop base_url needed pat param pages all seen w = (res, w')
    ∧ paging base_url needed pat param pages all w res w'.
Proof.
  induction pages as [|page rest IH]; intros all seen w Hseen.
  - exists (Ok all), w. split; [done | constructor].
  - rewrite paginate_loop_cons.
    destruct (Z.geb_spec (Z.of_nat (length all)) needed) as [Hge|Hlt].
    { exists (Ok all), w. split; [done|]. apply paging_enough. lia. }
    destruct (build base_url param page) as [u|e] eqn:Hb.
    2:{ exists (Raise e), w. split; [done|]. by apply paging_no_url. }
    destruct (fetch_links w base_url pat u) as [new|e] eqn:Hf.
    2:{ exists (Ok all), (requested w u). split; [done|]. by eapply paging_fetch_error. }
    destruct (fetch_links_nodup _ _ _ _ _ Hf) as [Hnd _].
    destruct (merge_new_spec new all seen 0 Hnd Hseen) as (seen' & -> & Hseen').
    rewrite Z.add_0_l.
    destruct (Z.eqb_spec (Z.of_nat (length (fresh new all))) 0) as [Hz|Hnz].
    + assert (fresh new all = []) as Hnil by (destruct (fresh new all); [done | cbn in Hz; lia]).
      rewrite Hnil, app_nil_r. exists (Ok all), (requested w u). split; [done|].
      eapply paging_nothing_new; [done..|]. by apply fresh_nil_iff.
    + destruct (IH (all ++ fresh new all) seen' (requested w u) Hseen') as (res & w' & E & Hp).
      exists res, w'. split; [exact E|]. eapply paging_next; [done..| |exact Hp].
      intros Hnil. rewrite Hnil in Hnz. done.
Qed.

(** What a run of the state machine leaves behind: the requests are those
    of the first [k] page numbers, in order, and the links collected before
    are a prefix of the links returned. *)
Lemma paging_trace base_url needed pat param pages all w res w' :
  paging base_url needed pat param pages all w res w' →
  ∃ k urls,
    (k ≤ length pages)%nat
    ∧ requests w' = requests w ++ urls
    ∧ Forall2 (λ page u, build base_url param page = Ok u) (take k pages) urls
    ∧ llm_calls w' = llm_calls w ∧ sleeps w' = sleeps w
    ∧ ∀ links, res = Ok links → all `prefix_of` links.
Proof.
  induction 1 as [all w|page rest all w Hn|page rest all w e Hn Hb
                 |page rest all w u e Hn Hb Hf|page rest all w u new Hn Hb Hf Hnew
                 |page rest all w u new res w' Hn Hb Hf Hnew Hp IH].
  1-3: exists 0%nat, []; rewrite app_nil_r;
    split_and!; try done; try (cbn; lia); try constructor;
    by intros links [= <-].
  1-2: exists 1%nat, [u];
    split_and!; try done; try (cbn; lia); try (by repeat constructor);
    by intros links [= <-].
  - destruct IH as (k & urls & Hk & Hr & Hu & Hl & Hs & Hpre).
    exists (S k), (u :: urls). split_and!; try done.
    + cbn; lia.
    + rewrite Hr. cbn. by rewrite <- app_assoc.
    + cbn. by constructor.
    + intros links Hres. etrans; [|by apply Hpre]. by apply prefix_app_r.
Qed.

(** Every link returned by the URL pagination was there before or was
    extracted, without query or fragment, from a requested page. *)
Lemma paging_links_no_query base_url needed pat param pages all w links w' :
  paging base_url needed pat param pages all w (Ok links) w' →
  ∀ l, l ∈ links → l ∈ all ∨ no_query l.
Proof.
  remember (Ok links) as res eqn:Hres. intros Hp. revert links Hres.
  induction Hp as [all w|page rest all w Hn|page rest all w e Hn Hb
                  |page rest all w u e Hn Hb Hf|page rest all w u new Hn Hb Hf Hnew
                  |page rest all w u new res w' Hn Hb Hf Hnew Hp IH];
    intros links Hres l Hl; try (injection Hres as <-; by left); [done|].
  destruct (IH links Hres l Hl) as [[?|Hfresh]%elem_of_app|?]; [by left| |by right].
  right. apply list_elem_of_filter in Hfresh as [_ Hin].
  destruct (fetch_links_nodup _ _ _ _ _ Hf) as [_ Hq]. by apply Hq.
Qed.

(** The state machine is deterministic: the outcome is fixed by which of
    the stop conditions holds first. *)
Lemma paging_functional base_url needed pat param pages all w res1 w1 res2 w2 :
  paging base_url needed pat param pages all w res1 w1 →
  paging base_url needed pat param pages all w res2 w2 →
  res1 = res2 ∧ w1 = w2.
Proof.
  intros H1. revert res2 w2.
  induction H1 as [all w|page rest all w Hn|page rest all w e Hn Hb
                  |page rest all w u e Hn Hb Hf|page rest all w u new Hn Hb Hf Hnew
                  |page rest all w u new res w' Hn Hb Hf Hnew Hp IH];
    intros res2 w2 H2; inversion H2; subst; try done; try lia; try congruence.
  all: repeat match goal with
       | H1 : ?x = Ok ?a, H2 : ?x = Ok ?b |- _ =>
           assert (b = a) by congruence; subst b; clear H2
       end.
  all: try done.
  - split; [congruence | done].
  - match goal with H : fresh _ _ ≠ [] |- _ => destruct H end. by apply fresh_nil_iff.
  - destruct Hnew. by apply fresh_nil_iff.
  - by apply IH.
Qed.

(** An exception comes out of the pagination only when the URL of a page
    cannot be built. *)
Lemma paging_raises base_url needed pat param pages all w e w' :
  paging base_url needed pat param pages all w (Raise e) w' →
  ∃ page, page ∈ pages ∧ build base_url param page = Raise e.
Proof.
  remember (Raise e) as res eqn:Hres. intros Hp. revert Hres.
  induction Hp as [all w|page rest all w Hn|page rest all w e' Hn Hb
                  |page rest all w u e' Hn Hb Hf|page rest all w u new Hn Hb Hf Hnew
                  |page rest all w u new res w' Hn Hb Hf Hnew Hp IH];
    intros Hres; try done.
  - injection Hres as ->. exists page. split; [left | done].
  - destruct (IH Hres) as (page' & ? & ?). exists page'. split; [by right | done].
Qed.

Lemma take_range_2_12 (k : nat) :
  (k ≤ 10)%nat → take k (range 2 12) = range 2 (2 + Z.of_nat k).
Proof. intros H. do 11 (destruct k as [|k]; [reflexivity|]). lia. Qed.

(** C6. [_paginate_by_url] runs the state machine [paging] on the page
    numbers 2 to 11: before each page it stops if the needed count is
    reached; otherwise it requests the page; it stops if the fetch fails,
    keeping the links collected so far, or if the page brings no new link;
    otherwise it goes on with the new links appended, and it stops when the
    ten pages are used up. The outcome is the only one the state machine
    allows. The pages requested are the first [k] of 2, 3, ..., at most ten,
    in order, and the links found before are a prefix of the result. *)
Theorem paginate_by_url_stops base_url needed already_found pat param w :
  ∃ res w',
    by_url base_url needed already_found pat param 10 w = (res, w')
    ∧ paging base_url needed pat param (range 2 12) already_found w res w'
    ∧ (∀ res2 w2,
         paging base_url needed pat param (range 2 12) already_found w res2 w2 →
         res2 = res ∧ w2 = w')
    ∧ (∃ (k : nat) urls,
         (k ≤ 10)%nat
         ∧ requests w' = requests w ++ urls
         ∧ Forall2 (λ page u, build base_url param page = Ok u)
             (range 2 (2 + Z.of_nat k)) urls)
    ∧ (∀ links, res = Ok links → already_found `prefix_of` links)
    ∧ (∀ e, res = Raise e →
         ∃ page, page ∈ range 2 12 ∧ build base_url param page = Raise e).
Proof.
  unfold _paginate_by_url. change (range 2 (10 + 2)) with (range 2 12).
  destruct (paginate_loop_paging base_url needed pat param (range 2 12) already_found
              (list_to_set already_found) w) as (res & w' & E & Hp).
  { intros u. apply elem_of_list_to_set. }
  exists res, w'. split; [exact E|]. split; [exact Hp|].
  split; [|split; [|split]].
  - intros res2 w2 Hp2. destruct (paging_functional _ _ _ _ _ _ _ _ _ _ _ Hp Hp2). by split.
  - destruct (paging_trace _ _ _ _ _ _ _ _ _ Hp) as (k & urls & Hk & Hr & Hu & _).
    change (length (range 2 12)) with 10%nat in Hk.
    exists k, urls. split; [exact Hk|]. split; [exact Hr|].
    by rewrite <- take_range_2_12.
  - by destruct (paging_trace _ _ _ _ _ _ _ _ _ Hp) as (k & urls & _ & _ & _ & _ & _ & ?).
  - intros e ->. by apply paging_raises in Hp.
Qed.

(** The links collected from one page of the rendering session: each is a
    hyperlink target cut at its fragment only, so with its query. *)
Lemma links_loop_spec bd pat (matches : list (list N * list N)) : ∀ (acc res : gset (list N)),
  links_loop netloc_extra_check pattern re_match bd pat matches acc = Ok res →
  ∀ u, u ∈ res ↔
    u ∈ acc ∨ ∃ m, m ∈ matches ∧ u = before (chr "#") (strip m.1)
                 ∧ same_site_article netloc_extra_check pattern re_match bd pat u.
Proof.
  induction matches as [|[t t'] rest IH]; intros acc res; cbn [links_loop].
  - intros [= <-] u. split; [auto|]. intros [?|(m & []%elem_of_nil & _)]. done.
  - remember (before (chr "#") (strip t)) as u0 eqn:Hu0.
    assert (∀ u, (∃ m, m ∈ (t, t') :: rest ∧ u = before (chr "#") (strip m.1)
                   ∧ same_site_article netloc_extra_check pattern re_match bd pat u)
              ↔ (u = u0
                 ∧ same_site_article netloc_extra_check pattern re_match bd pat u)
                ∨ ∃ m, m ∈ rest ∧ u = before (chr "#") (strip m.1)
                   ∧ same_site_article netloc_extra_check pattern re_match bd pat u)
      as Hsplit.
    { intros u. rewrite Hu0. split.
      - intros (m & [->|Hm]%elem_of_cons & Hu & Hs); [by left|]. right. by exists m.
      - intros [[Hu Hs]|(m & Hm & Hu & Hs)].
        + exists (t, t'). split; [left | done].
        + exists m. split; [by right | done]. }
    clear Hu0. destruct (netloc' u0) as [nl|e] eqn:Hnl; cbn; [|done].
    destruct (str_eqb nl bd) eqn:Hd; cbn.
    + apply str_eqb_true in Hd as ->.
      destruct (_is_article_url pattern re_match u0 pat) eqn:Hp; cbn.
      * intros Hl u. rewrite (IH _ _ Hl u), Hsplit, elem_of_union, elem_of_singleton.
        split; [|tauto]. intros [[->|?]|?]; [|tauto..]. right. left. done.
      * intros Hl u. rewrite (IH _ _ Hl u), Hsplit. split; [tauto|].
        intros [?|[[-> [_ ?]]|?]]; [tauto|congruence|tauto].
    + apply str_eqb_false in Hd.
      intros Hl u. rewrite (IH _ _ Hl u), Hsplit. split; [tauto|].
      intros [?|[[-> [? _]]|?]]; [tauto|congruence|tauto].
Qed.

(** The links returned by the interactive pagination were there before or
    were collected, with their query, from a page shown after a click. *)
Lemma interactive_loop_spec needed bd pat buttons attempts : ∀ (acc res : gset (list N)),
  interactive_loop netloc_extra_check pattern re_match click_next
    needed bd pat buttons attempts acc = Ok res →
  ∀ u, u ∈ res →
    u ∈ acc ∨ ∃ attempt html m,
      attempt ∈ attempts
      ∧ click_next (Z.to_nat attempt) buttons = Ok (Some html)
      ∧ m ∈ findall href_http_at 0 html
      ∧ u = before (chr "#") (strip m.1).
Proof.
  induction attempts as [|attempt rest IH]; intros acc res; cbn [interactive_loop].
  - intros [= <-] u ?. by left.
  - destruct (_ >=? needed); [intros [= <-] u ?; by left|].
    destruct (click_next (Z.to_nat attempt) buttons) as [[html|]|e] eqn:Hc; cbn; [| |done].
    + destruct (links_from_html html bd pat) as [new|e] eqn:Hn; cbn; [|done].
      intros Hl u Hu. destruct (IH _ _ Hl u Hu) as [[?|Hnew]%elem_of_union|(a & h & m & ? & ? & ? & ?)].
      * by left.
      * right. apply (links_loop_spec _ _ _ _ _ Hn) in Hnew as [[]%not_elem_of_empty|(m & ? & ? & _)].
        exists attempt, html, m. split; [left | done].
      * right. exists a, h, m. split; [by right | done].
    + intros [= <-] u ?. by left.
Qed.

(** C3, as amended. The query and the fragment are cut from every link
    returned by [extract_article_links], which serves the first pass and
    every pass of the URL-parameter pagination alike: the links that
    [_paginate_by_url] adds to those found before hold no query. Only the
    interactive pagination keeps the query: [_extract_links_from_html]
    collects exactly the accepted hyperlink targets cut at the fragment, a
    target without fragment or surrounding blanks is collected unchanged, and
    every link returned by [_paginate_inner] was found before or is such a
    target of a page shown after a click. *)
Theorem query_stripped_except_interactive_pagination :
  (∀ html base_url pat links,
     extract html base_url pat = Ok links → ∀ u, u ∈ links → no_query u)
  ∧ (∀ base_url needed already_found pat param w links w',
       by_url base_url needed already_found pat param 10 w = (Ok links, w') →
       ∀ u, u ∈ links → u ∈ already_found ∨ no_query u)
  ∧ (∀ html bd pat (links : gset (list N)),
       links_from_html html bd pat = Ok links →
       ∀ u, u ∈ links ↔
         ∃ m, m ∈ findall href_http_at 0 html
           ∧ u = before (chr "#") (strip m.1)
           ∧ same_site_article netloc_extra_check pattern re_match bd pat u)
  ∧ (∀ t, has_char (chr "#") t = false → strip t = t →
       before (chr "#") (strip t) = t)
  ∧ (∀ url needed already_found base_url pat buttons links,
       _paginate_inner netloc_extra_check pattern re_match page_goto click_next
         url needed already_found base_url pat buttons = Ok links →
       ∀ u, u ∈ links →
         u ∈ already_found
         ∨ ∃ attempt html m,
             click_next attempt buttons = Ok (Some html)
             ∧ m ∈ findall href_http_at 0 html
             ∧ u = before (chr "#") (strip m.1)).
Proof.
  split_and!.
  - intros html base_url pat links. apply extracted_links_no_query.
  - intros base_url needed already_found pat param w links w' E u Hu.
    unfold _paginate_by_url in E.
    destruct (paginate_loop_paging base_url needed pat param (range 2 (10 + 2))
                already_found (list_to_set already_found) w) as (res & w2 & E' & Hp).
    { intros v. apply elem_of_list_to_set. }
    rewrite E in E'. injection E' as <- <-.
    by apply (paging_links_no_query _ _ _ _ _ _ _ _ _ Hp).
  - intros html bd pat links Hl u.
    rewrite (links_loop_spec _ _ _ _ _ Hl u). split; [|by right].
    intros [[]%not_elem_of_empty|?]. done.
  - intros t Hf ->. by apply before_id.
  - intros url0 needed already_found base_url pat buttons links.
    unfold _paginate_inner. destruct (netloc' base_url) as [bd|e]; cbn; [|done].
    destruct (page_goto url0) as [[]|e].
    + destruct (interactive_loop _ _ _ _ needed bd pat buttons (range 0 10) _)
        as [res|e] eqn:Hl; cbn; [|done].
      intros [= <-] u Hu. apply elem_of_elements in Hu.
      destruct (interactive_loop_spec _ _ _ _ _ _ _ Hl u Hu)
        as [Hin|(attempt & html & m & _ & ? & ? & ?)].
      * left. by apply elem_of_list_to_set in Hin.
      * right. by exists (Z.to_nat attempt), html, m.
    + intros [= <-] u Hu. left. by apply elem_of_elements, elem_of_list_to_set in Hu.
Qed.

End Pagination.

(** A run of the URL pagination on zamon.uz: page 2 brings two links, page
    3 brings nothing new, and the pagination stops. The first hyperlink
    target of the page has the query from=list; the link collected for it has
    none, while the interactive extractor keeps it. *)
Lemma url_pagination_strips_query_counterexample :
  re.findall re.href_at 0 Examples.listing_page !! 0%nat
  = Some (py "https://zamon.uz/detail/birinchi?from=list#izoh")
  ∧ crawler_service._paginate_by_url Examples.no_extra_check Examples.no_percent
      Examples.regex Examples.re_match (Examples.shows Examples.listing_page)
      Examples.zamon_sport 5 [] Examples.zamon_pattern (py "page") 10 Examples.world0
    = (Ok [py "https://zamon.uz/detail/birinchi"; py "https://zamon.uz/detail/ikkinchi"],
       mkWorld [py "https://zamon.uz/categories/sport?page=2";
                py "https://zamon.uz/categories/sport?page=3"] [] [])
  ∧ has_char (chr "?") (py "https://zamon.uz/detail/birinchi") = false
  ∧ crawler_service._extract_links_from_html Examples.no_extra_check Examples.regex
      Examples.re_match Examples.listing_page (py "zamon.uz") Examples.zamon_pattern
    = Ok ({[ py "https://zamon.uz/detail/birinchi?from=list" ]}
          ∪ {[ py "https://zamon.uz/detail/birinchi" ]}).
Proof. split_and!; by_evaluation. Qed.

Lemma query_stripped_witness :
  py "https://zamon.uz/detail/birinchi" ∈ @nil (list N)
  ∨ no_query (py "https://zamon.uz/detail/birinchi").
Proof.
  apply (proj1 (proj2 (query_stripped_except_interactive_pagination
           Examples.no_extra_check Examples.no_percent Examples.regex Examples.re_match
           (Examples.shows Examples.listing_page) (λ _, Ok ()) (λ _ _, Ok None)))
         Examples.zamon_sport 5 [] Examples.zamon_pattern (py "page") Examples.world0
         [py "https://zamon.uz/detail/birinchi"; py "https://zamon.uz/detail/ikkinchi"]
         (mkWorld [py "https://zamon.uz/categories/sport?page=2";
                   py "https://zamon.uz/categories/sport?page=3"] [] [])).
  - by_evaluation.
  - apply list_elem_of_here.
Defined.

(** ** The builder of the page URLs (services/crawler_service.py) *)

Section PageUrl.

Import crawler_service.

Variable netloc_extra_check : list N → option exn.
Variable unquote_percent : list N → list N.

Implicit Types (s host path param value : list N) (c : N).

Local Abbreviation build := (_build_paginated_url netloc_extra_check unquote_percent).

(** Membership in a list that is written out. *)
Local Ltac in_list :=
  solve [repeat first [apply list_elem_of_here | apply list_elem_of_further]].

Lemma always_safe_cases c :
  always_safe c = true →
  (48 ≤ c ≤ 57 ∨ 65 ≤ c ≤ 90 ∨ 97 ≤ c ≤ 122 ∨ c = 95 ∨ c = 46 ∨ c = 45 ∨ c = 126)%N.
Proof.
  unfold always_safe, is_ascii_alpha, is_ascii_upper, is_ascii_lower, is_ascii_digit,
    has_char, eqc.
  change (py "_.-~") with [95; 46; 45; 126]%N. cbn [existsb].
  rewrite !orb_true_iff, !andb_true_iff, !N.leb_le, !N.eqb_eq. lia.
Qed.

(** A character of a plain path is none of the characters that structure a
    URL, and is no blank or control character. *)
Lemma safe_path_char c (x : N) :
  always_safe c = true ∨ c = chr "/" →
  x ∈ [chr ":"; chr "?"; chr "#"; chr ";"; chr "&"; chr "="; chr "+"; chr "%";
       chr "["; chr "]"] ∨ (x ≤ 32)%N →
  c ≠ x.
Proof.
  change [chr ":"; chr "?"; chr "#"; chr ";"; chr "&"; chr "="; chr "+"; chr "%";
          chr "["; chr "]"] with [58; 63; 35; 59; 38; 61; 43; 37; 91; 93]%N.
  change (chr "/") with 47%N.
  intros Hc Hx Heq. subst x.
  assert (c ≤ 32 ∨ c = 58 ∨ c = 63 ∨ c = 35 ∨ c = 59 ∨ c = 38 ∨ c = 61 ∨ c = 43
          ∨ c = 37 ∨ c = 91 ∨ c = 93)%N as Hx'.
  { destruct Hx as [Hx|Hx]; [|by left]. right.
    repeat (apply elem_of_cons in Hx as [Hx|Hx]; [tauto|]).
    by apply elem_of_nil in Hx. }
  destruct Hc as [Hc%always_safe_cases|Hc]; lia.
Qed.

Lemma safe_is_path s : safe s → safe_path s.
Proof. intros H c Hc. left. by apply H. Qed.

Lemma safe_path_has_char s (x : N) :
  safe_path s →
  x ∈ [chr ":"; chr "?"; chr "#"; chr ";"; chr "&"; chr "="; chr "+"; chr "%";
       chr "["; chr "]"] →
  has_char x s = false.
Proof.
  intros Hs Hx. apply has_char_false. intros Hin.
  by apply (safe_path_char x x (Hs x Hin)); [left|].
Qed.

Lemma safe_path_app s1 s2 : safe_path s1 → safe_path s2 → safe_path (s1 ++ s2).
Proof. intros H1 H2 c [?|?]%elem_of_app; auto. Qed.

Lemma safe_no_slash s : safe s → has_char (chr "/") s = false.
Proof.
  intros Hs. apply has_char_false. intros Hin.
  apply Hs, always_safe_cases in Hin. change (chr "/") with 47%N in Hin. lia.
Qed.

Lemma safe_path_ascii s : safe_path s → is_ascii s = true.
Proof.
  intros Hs. unfold is_ascii. apply forallb_forall. intros c Hc%list_elem_of_In.
  apply N.ltb_lt. destruct (Hs c Hc) as [H%always_safe_cases| ->]; [lia | done].
Qed.

Lemma safe_path_unsafe_byte s c : safe_path s → c ∈ s → unsafe_byte c = false.
Proof.
  intros Hs Hc. unfold unsafe_byte.
  assert (c ≠ 9 ∧ c ≠ 13 ∧ c ≠ 10)%N as (H1 & H2 & H3).
  { split_and!; apply (safe_path_char c _ (Hs c Hc)); right; lia. }
  apply N.eqb_neq in H1, H2, H3. by rewrite H1, H2, H3.
Qed.

(** Splitting at a character that occurs first right after [l]. *)
Lemma before_after_app c (l k : list N) :
  has_char c l = false →
  before c (l ++ c :: k) = l ∧ after c (l ++ c :: k) = k
  ∧ has_char c (l ++ c :: k) = true.
Proof.
  intros Hl. unfold before, after.
  destruct (take_while_app_stop (λ x, negb (eqc c x)) l (c :: k)) as [-> ->].
  - intros x Hx. apply negb_true_iff, N.eqb_neq. intros ->.
    by apply has_char_false in Hl.
  - intros y [= <-]. unfold eqc. by rewrite N.eqb_refl.
  - split_and!; try done. rewrite has_char_app. cbn. unfold eqc.
    rewrite N.eqb_refl. apply orb_true_r.
Qed.

Lemma split_without c s : has_char c s = false → split c s = [s].
Proof.
  intros H. induction s as [|x s IH]; [done|].
  cbn in H. apply orb_false_iff in H as [Hx Hs]. cbn. rewrite Hx, IH; done.
Qed.

Lemma replace_char_without (a b : N) s : has_char a s = false → replace_char a b s = s.
Proof.
  intros H. induction s as [|x s IH]; [done|].
  cbn in H. apply orb_false_iff in H as [Hx Hs]. unfold replace_char in *. cbn.
  rewrite Hx. f_equal. by apply IH.
Qed.

(** [quote_plus] leaves a safe text as it is. *)
Lemma utf8_encode_ascii s : is_ascii s = true → utf8_encode s = Ok s.
Proof.
  induction s as [|x s IH]; [done|]. cbn [is_ascii forallb].
  intros [Hx Hs]%andb_true_iff. cbn [utf8_encode]. unfold utf8_encode_char.
  rewrite Hx. cbn. rewrite (IH Hs). done.
Qed.

Lemma quote_plus_safe s : safe s → quote_plus s = Ok s.
Proof.
  intros Hs. unfold quote_plus.
  rewrite utf8_encode_ascii by by apply safe_path_ascii, safe_is_path. cbn. f_equal.
  induction s as [|x s IH]; [done|]. cbn. unfold quote_byte at 1.
  rewrite (Hs x) by left. cbn. f_equal. apply IH. intros c Hc. apply Hs. by right.
Qed.

(** The decimal text of an integer is safe. *)
Lemma py_ascii (l : list ascii) :
  Forall (λ a, (N_of_ascii a < 128)%N) l →
  utf8_decode (N_of_ascii <$> l) 0 0%N = N_of_ascii <$> l.
Proof.
  induction 1 as [|a l Ha _ IH]; [done|]. cbn [fmap list_fmap utf8_decode].
  destruct (N.ltb_spec (N_of_ascii a) 128); [|lia]. f_equal. exact IH.
Qed.

Lemma string_of_uint_safe (d : Decimal.uint) :
  Forall (λ a, always_safe (N_of_ascii a) = true)
    (String.list_ascii_of_string (NilEmpty.string_of_uint d)).
Proof. induction d; cbn; constructor; done. Qed.

Lemma str_of_int_safe (n : Z) : safe (str_of_int n).
Proof.
  unfold str_of_int, py.
  assert (Forall (λ a, always_safe (N_of_ascii a) = true)
            (String.list_ascii_of_string (NilZero.string_of_int (Z.to_int n)))) as H.
  { unfold NilZero.string_of_int, NilZero.string_of_uint.
    destruct (Z.to_int n) as [d|d]; [|cbn; constructor; [done|]];
      (destruct d; [by repeat constructor|apply (string_of_uint_safe (_ d))..]). }
  rewrite py_ascii.
  - intros c (a & -> & Ha)%list_elem_of_fmap. by apply (proj1 (Forall_forall _ _) H).
  - eapply Forall_impl; [exact H|]. intros a Ha. cbn in Ha.
    apply always_safe_cases in Ha. lia.
Qed.

Lemma str_of_int_nonempty (n : Z) : str_of_int n ≠ [].
Proof.
  unfold str_of_int, NilZero.string_of_int, NilZero.string_of_uint.
  destruct (Z.to_int n) as [d|d]; destruct d; done.
Qed.

(** How [urlparse] splits a plain URL. *)
Lemma urlparse_plain scheme host path qq :
  plain_parts scheme host path →
  (∀ c, c ∈ qq → unsafe_byte c = false) →
  has_char (chr "#") qq = false →
  urlparse netloc_extra_check (plain_url scheme host path qq)
  = Ok (mkParse scheme host path [] qq []).
Proof.
  intros (Hscheme & Hhost & Hsafe & Hpath & Hslash) Hqq Hfrag.
  set (tail := if nonempty qq then py "?" ++ qq else []).
  set (rest := path ++ tail).
  assert (∀ c, c ∈ rest → unsafe_byte c = false) as Hrest.
  { intros c [Hc|Hc]%elem_of_app; [by eapply safe_path_unsafe_byte|].
    unfold tail in Hc. destruct (nonempty qq); [|by apply elem_of_nil in Hc].
    apply elem_of_app in Hc as [Hc%list_elem_of_singleton|Hc]; [by subst | by apply Hqq]. }
  assert (clean_url (plain_url scheme host path qq) = scheme ++ py "://" ++ host ++ rest)
    as Hclean.
  { unfold plain_url, clean_url. fold tail. fold rest.
    assert (drop_while c0_or_space (scheme ++ py "://" ++ host ++ rest)
            = scheme ++ py "://" ++ host ++ rest) as ->
      by (by destruct Hscheme as [-> | ->]).
    rewrite !filter_app.
    rewrite (filter_safe_id host)
      by (intros c Hc; eapply safe_path_unsafe_byte; [by apply safe_is_path|done]).
    rewrite (filter_safe_id rest) by done.
    by destruct Hscheme as [-> | ->]. }
  assert (split_scheme (scheme ++ py "://" ++ host ++ rest)
          = (scheme, py "//" ++ host ++ rest)) as Hsch
    by (by destruct Hscheme as [-> | ->]).
  assert (split_netloc (py "//" ++ host ++ rest) = (host, rest)) as Hnl.
  { unfold split_netloc. change (take 2 (py "//" ++ ?x)) with (py "//").
    change (drop 2 (py "//" ++ ?x)) with x.
    change (str_eqb (py "//") (py "//")) with true. cbn iota.
    destruct (take_while_app_stop (λ c, negb (netloc_delim c)) host rest) as [-> ->];
      [| |done].
    - intros c Hc. apply negb_true_iff. unfold netloc_delim.
      apply has_char_false. intros Hin.
      change (py "/?#") with [chr "/"; chr "?"; chr "#"] in Hin.
      apply elem_of_cons in Hin as [->|Hin].
      { apply safe_no_slash in Hsafe. by apply has_char_false in Hsafe. }
      apply (safe_path_char c c); [left; by apply Hsafe| |done]. left.
      apply elem_of_cons in Hin as [->|Hin]; [by right; left|].
      apply list_elem_of_singleton in Hin as ->. by do 2 right; left.
    - intros y Hy. unfold rest, tail in Hy.
      destruct Hslash as [-> | [r ->]%startswith_prefix].
      + destruct (nonempty qq); [|done]. by injection Hy as <-.
      + by injection Hy as <-. }
  assert (check_netloc netloc_extra_check host = Ok ()) as Hcheck.
  { unfold check_netloc.
    rewrite (safe_path_has_char host (chr "[")), (safe_path_has_char host (chr "]"));
      [|by apply safe_is_path|in_list|by apply safe_is_path|in_list].
    by rewrite safe_path_ascii by by apply safe_is_path. }
  rewrite <- Hclean in Hsch.
  unfold urlparse, urlsplit. rewrite Hsch, Hnl, Hcheck. cbn [mbind Res_bind].
  assert (has_char (chr "#") rest = false) as ->.
  { unfold rest, tail. rewrite has_char_app, (safe_path_has_char path) by (done || in_list).
    destruct (nonempty qq); [|done]. by rewrite has_char_app, Hfrag. }
  assert ((if has_char (chr "?") rest
           then (before (chr "?") rest, after (chr "?") rest) else (rest, []))
          = (path, qq)) as ->.
  { unfold rest, tail. destruct qq as [|q0 qq']; cbn [nonempty].
    - rewrite app_nil_r. by rewrite (safe_path_has_char path) by (done || in_list).
    - change (py "?" ++ q0 :: qq') with (chr "?" :: q0 :: qq').
      destruct (before_after_app (chr "?") path (q0 :: qq')) as (-> & -> & ->); [|done].
      apply safe_path_has_char; [done | in_list]. }
  cbn [mbind Res_bind mret Res_ret s_scheme s_path s_netloc s_query s_fragment].
  rewrite (safe_path_has_char path (chr ";")) by (done || in_list).
  by rewrite andb_false_r.
Qed.

Lemma parse_qs_single param value :
  safe param → safe value → value ≠ [] →
  parse_qs unquote_percent (param ++ py "=" ++ value) = [(param, [value])].
Proof.
  intros Hp Hv Hne.
  assert (safe_path (param ++ value)) as Hpv
    by (apply safe_path_app; by apply safe_is_path).
  assert (∀ x, x ∈ [chr "&"; chr "+"; chr "%"] → has_char x (param ++ py "=" ++ value) = false)
    as Hno.
  { intros x Hx.
    repeat (apply elem_of_cons in Hx as [->|Hx];
            [rewrite !has_char_app,
               (safe_path_has_char param), (safe_path_has_char value);
             [done|by apply safe_is_path|in_list|by apply safe_is_path|in_list]|]).
    by apply elem_of_nil in Hx. }
  unfold parse_qs, parse_qsl. rewrite split_without by (apply Hno; in_list).
  cbn [omap list_omap].
  change (py "=" ++ value) with (chr "=" :: value).
  destruct (before_after_app (chr "=") param value) as (-> & -> & ->).
  { apply safe_path_has_char; [by apply safe_is_path | in_list]. }
  destruct value as [|v0 value']; [done|]. cbn [nonempty andb].
  unfold unquote.
  rewrite !replace_char_without
    by (apply safe_path_has_char; [by apply safe_is_path | in_list]).
  rewrite !(safe_path_has_char _ (chr "%"))
    by (by apply safe_is_path || in_list).
  reflexivity.
Qed.

Lemma urlencode_single param value :
  safe param → safe value → urlencode [(param, [value])] = Ok (param ++ py "=" ++ value).
Proof.
  intros Hp Hv. unfold urlencode. cbn [urlencode_pairs urlencode_items].
  rewrite (quote_plus_safe param Hp). cbn [mbind Res_bind].
  rewrite (quote_plus_safe value Hv). cbn. by rewrite ?app_nil_r.
Qed.

Lemma urlunparse_plain scheme host path qq :
  plain_parts scheme host path → qq ≠ [] →
  urlunparse (mkParse scheme host path [] qq []) = plain_url scheme host path qq.
Proof.
  intros (Hscheme & Hhost & _ & _ & Hslash) Hqq.
  unfold urlunparse, urlunsplit, plain_url. cbn [urllib.params urllib.path urllib.scheme urllib.netloc urllib.query urllib.fragment].
  destruct host as [|h0 host']; [done|]. destruct qq as [|q0 qq']; [done|].
  cbn [nonempty orb].
  assert ((if nonempty path && negb (str_eqb (take 1 path) (py "/"))
           then py "/" ++ path else path) = path) as ->.
  { destruct Hslash as [-> | [r ->]%startswith_prefix]; [done|].
    change (take 1 (py "/" ++ r)) with (py "/").
    by change (str_eqb (py "/") (py "/")) with true. }
  cbn [nonempty]. cbv zeta.
  destruct Hscheme as [-> | ->].
  - change (nonempty (py "http")) with true. cbv iota.
    rewrite <- !app_assoc. reflexivity.
  - change (nonempty (py "https")) with true. cbv iota.
    rewrite <- !app_assoc. reflexivity.
Qed.

(** The pairs of a query that the builder hands back unchanged: names and
    values of safe characters, no value empty. *)
Local Abbreviation plain_pairs :=
  (Forall (λ kv : list N * list N, safe kv.1 ∧ safe kv.2 ∧ kv.2 ≠ [])).

Local Abbreviation item := (λ kv : list N * list N, kv.1 ++ py "=" ++ kv.2).
Local Abbreviation entry := (λ kv : list N * list N, (kv.1, [kv.2])).

Lemma safe_has_char s (x : N) :
  safe s →
  x ∈ [chr ":"; chr "?"; chr "#"; chr ";"; chr "&"; chr "="; chr "+"; chr "%";
       chr "["; chr "]"] ∨ (x ≤ 32)%N →
  has_char x s = false.
Proof.
  intros Hs Hx. apply has_char_false. intros Hin.
  apply (safe_path_char x x); [left; by apply Hs | done | done].
Qed.

Lemma item_has_char k v (x : N) :
  safe k → safe v →
  x ∈ [chr ":"; chr "?"; chr "#"; chr ";"; chr "&"; chr "+"; chr "%";
       chr "["; chr "]"] ∨ (x ≤ 32)%N →
  has_char x (k ++ py "=" ++ v) = false.
Proof.
  intros Hk Hv Hx. rewrite !has_char_app.
  assert (x ≠ chr "=") as Hne.
  { destruct Hx as [Hx|Hx].
    - repeat (apply elem_of_cons in Hx as [->|Hx]; [done|]). by apply elem_of_nil in Hx.
    - intros ->. change (chr "=") with 61%N in Hx. lia. }
  assert (x ∈ [chr ":"; chr "?"; chr "#"; chr ";"; chr "&"; chr "="; chr "+"; chr "%";
               chr "["; chr "]"] ∨ (x ≤ 32)%N) as Hx'.
  { destruct Hx as [Hx|Hx]; [left|by right].
    repeat (apply elem_of_cons in Hx as [->|Hx]; [in_list|]). by apply elem_of_nil in Hx. }
  rewrite (safe_has_char k x Hk Hx'), (safe_has_char v x Hv Hx').
  change (py "=") with [chr "="]. cbn. unfold eqc.
  destruct (N.eqb_spec x (chr "=")); done.
Qed.

Lemma split_app_sep c s (rest : list N) :
  has_char c s = false → split c (s ++ c :: rest) = s :: split c rest.
Proof.
  induction s as [|x s IH]; cbn [app split has_char existsb].
  - intros _. unfold eqc. by rewrite N.eqb_refl.
  - intros [Hx Hs]%orb_false_iff. rewrite Hx, (IH Hs). done.
Qed.

Lemma split_join c (items : list (list N)) :
  items ≠ [] → Forall (λ s, has_char c s = false) items →
  split c (join [c] items) = items.
Proof.
  intros Hne Hall. induction Hall as [|s items Hs Hall IH]; [done|].
  destruct items as [|s' items]; cbn [join].
  - by apply split_without.
  - cbn [app]. rewrite split_app_sep by done. f_equal. by apply IH.
Qed.

Lemma query_text_chars pairs (x : N) :
  plain_pairs pairs →
  x ∈ [chr ":"; chr "?"; chr "#"; chr ";"; chr "+"; chr "%"; chr "["; chr "]"]
  ∨ (x ≤ 32)%N →
  has_char x (query_text pairs) = false.
Proof.
  intros Hall Hx. unfold query_text.
  assert (x ∈ [chr ":"; chr "?"; chr "#"; chr ";"; chr "&"; chr "+"; chr "%";
               chr "["; chr "]"] ∨ (x ≤ 32)%N) as Hx'.
  { destruct Hx as [Hx|Hx]; [left|by right].
    repeat (apply elem_of_cons in Hx as [->|Hx]; [in_list|]). by apply elem_of_nil in Hx. }
  assert (x ≠ chr "&") as Hne.
  { destruct Hx as [Hx|Hx].
    - repeat (apply elem_of_cons in Hx as [->|Hx]; [done|]). by apply elem_of_nil in Hx.
    - intros ->. change (chr "&") with 38%N in Hx. lia. }
  induction Hall as [|[k v] pairs (Hk & Hv & _) Hall IH]; [done|].
  cbn [fmap list_fmap join fst snd]. destruct pairs as [|kv pairs].
  - by apply item_has_char.
  - cbn [fmap list_fmap] in IH |- *. rewrite has_char_app, (item_has_char k v x Hk Hv Hx').
    rewrite has_char_app, IH. change (py "&") with [chr "&"]. cbn. unfold eqc.
    destruct (N.eqb_spec x (chr "&")); done.
Qed.

Lemma query_text_nonempty pairs : pairs ≠ [] → query_text pairs ≠ [].
Proof.
  unfold query_text. destruct pairs as [|[k v] pairs]; [done|]. intros _.
  cbn [fmap list_fmap join fst snd].
  change (py "=" ++ v) with (chr "=" :: v).
  destruct (item <$> pairs); by destruct k.
Qed.

(** One name=value item, read back by [parse_qsl]. *)
Lemma parse_item k v :
  safe k → safe v → v ≠ [] →
  (if has_char (chr "=") (k ++ py "=" ++ v)
      && nonempty (after (chr "=") (k ++ py "=" ++ v))
   then Some (unquote unquote_percent
                (replace_char (chr "+") (chr " ") (before (chr "=") (k ++ py "=" ++ v))),
              unquote unquote_percent
                (replace_char (chr "+") (chr " ") (after (chr "=") (k ++ py "=" ++ v))))
   else None) = Some (k, v).
Proof.
  intros Hk Hv Hne. change (py "=" ++ v) with (chr "=" :: v).
  destruct (before_after_app (chr "=") k v) as (-> & -> & ->).
  { apply safe_has_char; [done | left; in_list]. }
  destruct v as [|v0 v']; [done|]. cbn [nonempty andb]. unfold unquote.
  rewrite !replace_char_without by (apply safe_has_char; [done | left; in_list]).
  by rewrite !(safe_has_char _ (chr "%")) by (done || (left; in_list)).
Qed.

Lemma parse_qsl_query_text pairs :
  plain_pairs pairs → parse_qsl unquote_percent (query_text pairs) = pairs.
Proof.
  intros Hall. unfold parse_qsl, query_text.
  destruct (decide (pairs = [])) as [->|Hne]; [done|].
  change (py "&") with [chr "&"]. rewrite split_join.
  - induction Hall as [|[k v] pairs (Hk & Hv & Hv') Hall IH]; [done|].
    cbn [fmap list_fmap omap list_omap fst snd].
    rewrite (parse_item k v Hk Hv Hv'). f_equal.
    destruct (decide (pairs = [])) as [->|Hne']; [done|]. by apply IH.
  - by destruct pairs.
  - apply Forall_fmap. eapply Forall_impl; [exact Hall|].
    intros [k v] (Hk & Hv & _). cbn. apply item_has_char; [done..|]. left. in_list.
Qed.

Lemma qdict_append_fresh k v (d : list (list N * list (list N))) :
  k ∉ d.*1 → qdict_append k v d = d ++ [(k, [v])].
Proof.
  induction d as [|[k' vs] d IH]; [done|]. cbn [fmap list_fmap qdict_append fst].
  intros [Hne Hk]%not_elem_of_cons. unfold str_eqb.
  rewrite bool_decide_eq_false_2 by done. cbn. by rewrite IH.
Qed.

Lemma parse_qs_fold pairs : ∀ d : list (list N * list (list N)),
  NoDup pairs.*1 → (∀ k, k ∈ pairs.*1 → k ∉ d.*1) →
  foldl (λ d '(name, value), qdict_append name value d) d pairs = d ++ (entry <$> pairs).
Proof.
  induction pairs as [|[k v] pairs IH]; intros d Hnd Hfresh.
  - cbn. by rewrite app_nil_r.
  - cbn [fmap list_fmap fst] in Hnd, Hfresh. apply NoDup_cons in Hnd as [Hk Hnd].
    cbn [foldl]. rewrite qdict_append_fresh by (apply Hfresh; left).
    rewrite IH; [by rewrite <- app_assoc|done|].
    intros k' Hk'. rewrite fmap_app, elem_of_app. intros [Hin|Hin].
    + by apply (Hfresh k'); [right|].
    + cbn in Hin. apply list_elem_of_singleton in Hin as ->. done.
Qed.

Lemma parse_qs_query_text pairs :
  plain_pairs pairs → NoDup pairs.*1 →
  parse_qs unquote_percent (query_text pairs) = entry <$> pairs.
Proof.
  intros Hall Hnd. unfold parse_qs. rewrite parse_qsl_query_text by done.
  rewrite parse_qs_fold; [done..|]. intros k _ ?%elem_of_nil. done.
Qed.

Lemma qdict_set_entries param value pairs :
  qdict_set param [value] (entry <$> pairs) = entry <$> set_param param value pairs.
Proof.
  induction pairs as [|[k v] pairs IH]; [done|].
  cbn [fmap list_fmap qdict_set set_param fst snd].
  destruct (str_eqb param k); [done|]. cbn [fmap list_fmap fst snd]. by rewrite IH.
Qed.

Lemma urlencode_entries pairs :
  plain_pairs pairs → urlencode (entry <$> pairs) = Ok (query_text pairs).
Proof.
  intros Hall. unfold urlencode, query_text.
  assert (urlencode_pairs (entry <$> pairs) = Ok (item <$> pairs)) as ->; [|done].
  induction Hall as [|[k v] pairs (Hk & Hv & _) Hall IH]; [done|].
  cbn [fmap list_fmap urlencode_pairs urlencode_items fst snd].
  rewrite (quote_plus_safe k Hk). cbn [mbind Res_bind].
  rewrite (quote_plus_safe v Hv). cbn [mbind Res_bind mret Res_ret]. rewrite IH. done.
Qed.

Lemma set_param_plain param value pairs :
  safe param → safe value → value ≠ [] →
  plain_pairs pairs → plain_pairs (set_param param value pairs).
Proof.
  intros Hp Hv Hne. induction 1 as [|[k v] pairs (Hk & Hv' & Hne') Hall IH];
    cbn [set_param].
  - by repeat constructor.
  - destruct (str_eqb param k); constructor; done.
Qed.

Lemma set_param_keys param value pairs :
  (set_param param value pairs).*1
  = if bool_decide (param ∈ pairs.*1) then pairs.*1 else pairs.*1 ++ [param].
Proof.
  induction pairs as [|[k v] pairs IH]; [done|].
  cbn [set_param fmap list_fmap fst]. unfold str_eqb.
  destruct (decide (param = k)) as [->|Hne].
  - rewrite !bool_decide_eq_true_2; [done|left|done].
  - rewrite (bool_decide_eq_false_2 (param = k)) by done.
    cbn [fmap list_fmap fst]. rewrite IH.
    destruct (decide (param ∈ pairs.*1)) as [Hin|Hin].
    + rewrite !bool_decide_eq_true_2; [done|by right|done].
    + rewrite !bool_decide_eq_false_2; [done| |done].
      by intros [?|?]%elem_of_cons.
Qed.

Lemma set_param_absent param value (pairs : list (list N * list N)) :
  param ∉ pairs.*1 → set_param param value pairs = pairs ++ [(param, value)].
Proof.
  induction pairs as [|[k v] pairs IH]; [done|].
  cbn [fmap list_fmap fst set_param]. intros [Hne Hin]%not_elem_of_cons.
  unfold str_eqb. rewrite bool_decide_eq_false_2 by done. cbn. by rewrite IH.
Qed.

Lemma set_param_present param value (pairs : list (list N * list N)) :
  param ∈ pairs.*1 →
  ∃ l1 old l2,
    pairs = l1 ++ (param, old) :: l2 ∧ (param ∉ l1.*1)
    ∧ set_param param value pairs = l1 ++ (param, value) :: l2.
Proof.
  induction pairs as [|[k v] pairs IH]; [by intros ?%elem_of_nil|].
  cbn [fmap list_fmap fst set_param]. intros Hin. unfold str_eqb.
  case_bool_decide as Hk.
  - subst k. exists [], v, pairs. split_and!; [done| |done]. by intros ?%elem_of_nil.
  - apply elem_of_cons in Hin as [?|Hin]; [done|].
    destruct (IH Hin) as (l1 & old & l2 & -> & Hl1 & ->).
    exists ((k, v) :: l1), old, l2. split_and!; [done| |done].
    cbn [fmap list_fmap fst]. by intros [?|?]%elem_of_cons.
Qed.

(** The builder on a plain URL with a query of plain pairs. *)
Lemma build_plain_pairs scheme host path param (pairs : list (list N * list N))
    (page_number : Z) :
  plain_parts scheme host path → safe param → plain_pairs pairs → NoDup pairs.*1 →
  build (plain_url scheme host path (query_text pairs)) param page_number
  = Ok (plain_url scheme host path
          (query_text (set_param param (str_of_int page_number) pairs))).
Proof.
  intros Hparts Hp Hall Hnd.
  pose proof (str_of_int_safe page_number) as Hn.
  pose proof (str_of_int_nonempty page_number) as Hn'.
  unfold _build_paginated_url.
  rewrite (urlparse_plain scheme host path (query_text pairs) Hparts).
  - cbn [mbind Res_bind urllib.query].
    rewrite parse_qs_query_text, qdict_set_entries by done.
    rewrite urlencode_entries by by apply set_param_plain.
    cbn [mbind Res_bind mret Res_ret]. unfold replace_query.
    cbn [urllib.params urllib.path urllib.scheme urllib.netloc urllib.query urllib.fragment].
    rewrite urlunparse_plain; [done..|].
    apply query_text_nonempty. by destruct pairs as [|[k v] pairs]; cbn;
      [|destruct (str_eqb param k)].
  - intros c Hc. destruct (unsafe_byte c) eqn:Hu; [|done].
    assert (has_char c (query_text pairs) = false) as Hno.
    { apply query_text_chars; [done|]. right.
      unfold unsafe_byte in Hu. rewrite !orb_true_iff, !N.eqb_eq in Hu. lia. }
    apply has_char_false in Hno. done.
  - apply query_text_chars; [done|]. left. in_list.
Qed.

(** C9. For a plain URL (the scheme http or https, a host and a path of
    safe characters) whose query is a list of name=value pairs, joined by
    ampersands, with distinct names, safe characters and no empty value, a
    parameter name of safe characters and any page number, the builder
    returns the same URL with the query rewritten: when a pair has the name
    of the parameter, its value is replaced by the number where it stands and
    every other pair is kept, in the same order; when no pair has that
    name, every pair is kept and the parameter is appended with the number as
    the last pair. In particular a URL without a query gets the question mark,
    the name, an equals sign and the number, and a URL whose query is the
    parameter alone gets the value replaced. So .../sport/?page=1 and
    .../sport/ both give .../sport/?page=2 for the name page and the
    number 2. *)
Theorem build_paginated_url_replaces_or_appends
    scheme host path param (pairs : list (list N * list N)) (page_number : Z) :
  plain_parts scheme host path →
  safe param →
  plain_pairs pairs →
  NoDup pairs.*1 →
  build (plain_url scheme host path (query_text pairs)) param page_number
  = Ok (plain_url scheme host path
          (query_text (set_param param (str_of_int page_number) pairs)))
  ∧ (param ∈ pairs.*1 →
     ∃ l1 old l2,
       pairs = l1 ++ (param, old) :: l2 ∧ (param ∉ l1.*1)
       ∧ set_param param (str_of_int page_number) pairs
         = l1 ++ (param, str_of_int page_number) :: l2)
  ∧ (param ∉ pairs.*1 →
     set_param param (str_of_int page_number) pairs
     = pairs ++ [(param, str_of_int page_number)])
  ∧ build (scheme ++ py "://" ++ host ++ path) param page_number
    = Ok (scheme ++ py "://" ++ host ++ path
          ++ py "?" ++ param ++ py "=" ++ str_of_int page_number)
  ∧ (∀ value, safe value → value ≠ [] →
     build (scheme ++ py "://" ++ host ++ path ++ py "?" ++ param ++ py "=" ++ value)
       param page_number
     = Ok (scheme ++ py "://" ++ host ++ path
           ++ py "?" ++ param ++ py "=" ++ str_of_int page_number)).
Proof.
  intros Hparts Hp Hall Hnd.
  pose proof (str_of_int_safe page_number) as Hn.
  assert (∀ q : list N, nonempty (param ++ py "=" ++ q) = true) as Hq
    by (intros q; change (py "=" ++ q) with (chr "=" :: q); by destruct param).
  split_and!.
  - by apply build_plain_pairs.
  - apply set_param_present.
  - apply set_param_absent.
  - pose proof (build_plain_pairs scheme host path param [] page_number Hparts Hp
                  (Forall_nil_2 _) (NoDup_nil_2)) as Hb.
    unfold plain_url, query_text in Hb.
    cbn [fmap list_fmap join set_param fst snd nonempty] in Hb.
    rewrite Hq, app_nil_r in Hb. exact Hb.
  - intros value Hv Hne.
    pose proof (build_plain_pairs scheme host path param [(param, value)] page_number
                  Hparts Hp) as Hb.
    unfold plain_url, query_text in Hb.
    cbn [fmap list_fmap join set_param fst snd] in Hb.
    unfold str_eqb in Hb. rewrite bool_decide_eq_true_2 in Hb by done.
    cbn [fmap list_fmap join fst snd] in Hb. rewrite !Hq in Hb. apply Hb.
    + by repeat constructor.
    + cbn. apply NoDup_singleton.
Qed.

End PageUrl.

(** The listing of gazeta.uz with three parameters: the page number is
    replaced where it stands, and sort and lang are kept. *)
Lemma build_paginated_url_witness :
  crawler_service._build_paginated_url Examples.no_extra_check Examples.no_percent
    (py "https://www.gazeta.uz/oz/sport/?sort=new&page=1&lang=uz") (py "page") 2
  = Ok (py "https://www.gazeta.uz/oz/sport/?sort=new&page=2&lang=uz")
  ∧ set_param (py "page") (str_of_int 2)
      [(py "sort", py "new"); (py "page", py "1"); (py "lang", py "uz")]
    = [(py "sort", py "new"); (py "page", py "2"); (py "lang", py "uz")].
Proof.
  assert (∀ s : list N, forallb always_safe s = true → safe s) as Hsafe.
  { intros s Hs c Hc. by apply (proj1 (forallb_forall _ _) Hs), list_elem_of_In. }
  assert (py "https://www.gazeta.uz/oz/sport/?sort=new&page=1&lang=uz"
          = plain_url (py "https") (py "www.gazeta.uz") (py "/oz/sport/")
              (query_text [(py "sort", py "new"); (py "page", py "1");
                           (py "lang", py "uz")])) as -> by by_evaluation.
  assert (py "https://www.gazeta.uz/oz/sport/?sort=new&page=2&lang=uz"
          = plain_url (py "https") (py "www.gazeta.uz") (py "/oz/sport/")
              (query_text (set_param (py "page") (str_of_int 2)
                             [(py "sort", py "new"); (py "page", py "1");
                              (py "lang", py "uz")]))) as -> by by_evaluation.
  split; [|by_evaluation].
  refine (proj1 (build_paginated_url_replaces_or_appends
                   Examples.no_extra_check Examples.no_percent
                   (py "https") (py "www.gazeta.uz") (py "/oz/sport/") (py "page")
                   [(py "sort", py "new"); (py "page", py "1"); (py "lang", py "uz")] 2
                   _ _ _ _)).
  - split_and!; [by right|done|by apply Hsafe| |by right].
    intros c Hc. repeat (apply elem_of_cons in Hc as [->|Hc]; [by (left + right)|]).
    by apply elem_of_nil in Hc.
  - by apply Hsafe.
  - repeat constructor; by (apply Hsafe || discriminate).
  - apply (bool_decide_unpack _). vm_compute. exact I.
Defined.

(** The same examples as the strings of the specification and of the
    docstring, for any behaviour of the unmodelled library parts. *)
Lemma build_paginated_url_examples netloc_extra_check unquote_percent :
  crawler_service._build_paginated_url netloc_extra_check unquote_percent
    (py "https://www.gazeta.uz/oz/sport/?page=1") (py "page") 2
  = Ok (py "https://www.gazeta.uz/oz/sport/?page=2")
  ∧ crawler_service._build_paginated_url netloc_extra_check unquote_percent
      (py "https://www.gazeta.uz/oz/sport/") (py "page") 2
    = Ok (py "https://www.gazeta.uz/oz/sport/?page=2")
  ∧ crawler_service._build_paginated_url netloc_extra_check unquote_percent
      (py "https://www.uzdaily.uz/uz/section/7/?page=1") (py "page") 2
    = Ok (py "https://www.uzdaily.uz/uz/section/7/?page=2")
  ∧ crawler_service._build_paginated_url netloc_extra_check unquote_percent
      (py "https://zamon.uz/categories/sport?page=1") (py "page") 3
    = Ok (py "https://zamon.uz/categories/sport?page=3").
Proof. split_and!; by_evaluation. Qed.

(** ** The extraction of one article and of a batch (services/mistral_service.py) *)

Section Extraction.

Import mistral_service.

Variable mistral : nat → list N → Res (list N).
Variable json_loads : list N → option pyval.
Variable lower : list N → list N.
Variable re_digit : N → bool.

Implicit Types (d parsed art data : gmap (list N) pyval) (w : World).
Implicit Types (c content response raw_text category source_url source_name : list N).

Local Abbreviation parse := (_parse_mistral_response json_loads).
Local Abbreviation finish' := (finish re_digit).
Local Abbreviation extract := (extract_article_with_mistral mistral json_loads lower re_digit).
Local Abbreviation call := (_call_mistral_with_retry mistral lower).
Local Abbreviation batch := (process_articles_batch mistral json_loads lower re_digit).

Local Ltac key_ne := let H := fresh in intros H; vm_compute in H; discriminate H.

(** Equalities between sets of keys, element by element. *)
Local Ltac set_elems :=
  apply set_eq; intros ?;
  repeat first [rewrite elem_of_union | rewrite elem_of_singleton | rewrite elem_of_empty];
  intuition (subst; auto).

Lemma after_calls_none w prompt : after_calls w prompt 0 [] = w.
Proof. destruct w. unfold after_calls. cbn. by rewrite !app_nil_r. Qed.

Lemma after_calls_after w prompt k1 (l1 : list Z) k2 (l2 : list Z) :
  after_calls (after_calls w prompt k1 l1) prompt k2 l2
  = after_calls w prompt (k1 + k2) (l1 ++ l2).
Proof. unfold after_calls; cbn. by rewrite <- !app_assoc, replicate_add. Qed.

(** What a run of the retry loop does to the world, whatever the model
    answers: [k] calls with the same prompt and the first [j] delays, one
    after each call but possibly the last. *)
Lemma retry_loop_effects prompt attempts : ∀ w, ∃ r (k j : nat),
  retry_loop mistral lower prompt attempts w
  = (r, after_calls w prompt k (backoff <$> take j attempts))
  ∧ (k ≤ length attempts)%nat ∧ (j ≤ k)%nat ∧ (k ≤ S j)%nat
  ∧ (attempts ≠ [] → (1 ≤ k)%nat)
  ∧ (∀ response, r = Ok response → k = S j).
Proof.
  induction attempts as [|a rest IH]; intros w.
  - exists (Raise exhausted), 0%nat, 0%nat. cbn [retry_loop take fmap list_fmap].
    rewrite after_calls_none. repeat split; try done; cbn; lia.
  - rewrite retry_loop_cons.
    destruct (spec.outcome mistral w prompt 0) as [r|e] eqn:Ho.
    { exists (Ok r), 1%nat, 0%nat. repeat split; try done; cbn; lia. }
    destruct (is_rate_limit lower (exn_msg e)).
    2:{ exists (Raise e), 1%nat, 0%nat. repeat split; try done; cbn; lia. }
    destruct (IH (after_calls w prompt 1 [backoff a])) as (r & k & j & E & H1 & H2 & H3 & _ & H5).
    exists r, (S k), (S j). rewrite E, after_calls_step.
    repeat split; try done; cbn; try lia.
    intros response Hr. f_equal. by apply (H5 response).
Qed.

Lemma extract_effects raw_text category source_url source_name image_url w :
  ∃ r (k j : nat),
    extract raw_text category source_url source_name image_url w
    = (Ok r, after_calls w (format_prompt (take 8000 raw_text) source_url) k
               (take j [2; 4; 8; 16; 32]))
    ∧ (k ≤ 5)%nat ∧ (j ≤ k)%nat ∧ (k ≤ S j)%nat
    ∧ (k = 0%nat ↔ raw_text = [] ∨ (length (strip raw_text) < 100)%nat)
    ∧ (r ≠ None → k = S j).
Proof.
  destruct (nonempty raw_text) eqn:Hne;
    [destruct (Nat.ltb_spec (length (strip raw_text)) 100) as [Hlt|Hge]|].
  - exists None, 0%nat, 0%nat. unfold extract_article_with_mistral. rewrite Hne.
    destruct (Nat.ltb_spec (length (strip raw_text)) 100) as [_|]; [|lia].
    cbn [negb orb take]. rewrite after_calls_none.
    split_and!; first [done | lia | by split; [right|]].
  - rewrite extract_run by done. unfold _call_mistral_with_retry.
    destruct (retry_loop_effects (format_prompt (take 8000 raw_text) source_url)
                (range 0 5) w) as (r & k & j & E & H1 & H2 & H3 & H4 & H5).
    rewrite E. rewrite fmap_take.
    change (backoff <$> range 0 5) with [2; 4; 8; 16; 32].
    change (length (range 0 5)) with 5%nat in H1.
    assert (1 ≤ k)%nat as Hk by (by apply H4).
    assert (k = 0%nat ↔ raw_text = [] ∨ (length (strip raw_text) < 100)%nat) as Hiff.
    { split; [lia|]. intros [->|?]; [discriminate | lia]. }
    destruct r as [response|e].
    2:{ exists None, k, j. split_and!; done. }
    specialize (H5 response eq_refl).
    destruct (parse response) as [[parsed|]|e];
      [destruct (finish' parsed category source_url source_name image_url) as [art|e]|..];
      eexists _, k, j; (split; [reflexivity|]); split_and!; done.
  - exists None, 0%nat, 0%nat. unfold extract_article_with_mistral. rewrite Hne.
    cbn [negb orb take]. rewrite after_calls_none.
    destruct raw_text; [|discriminate].
    split_and!; first [done | lia | by split; [left|]].
Qed.


(** X1. [extract_article_with_mistral] never raises: it returns an article
    or None. It sends no request to the renderer. It sends the same prompt,
    built from the first 8000 characters of the text and the URL, at most
    five times, and between the calls it sleeps the first delays of 2, 4, 8,
    16, 32 seconds; when an article is returned there is one sleep less than
    calls. It does not call the model at all exactly when the text is empty
    or has fewer than 100 characters once stripped. *)
Theorem extract_never_raises_at_most_five_calls
    raw_text category source_url source_name image_url w :
  ∃ r w' (k j : nat),
    extract raw_text category source_url source_name image_url w = (Ok r, w')
    ∧ requests w' = requests w
    ∧ llm_calls w'
      = llm_calls w ++ replicate k (format_prompt (take 8000 raw_text) source_url)
    ∧ sleeps w' = sleeps w ++ take j [2; 4; 8; 16; 32]
    ∧ (k ≤ 5)%nat ∧ (j ≤ k)%nat ∧ (k ≤ S j)%nat
    ∧ (k = 0%nat ↔ raw_text = [] ∨ (length (strip raw_text) < 100)%nat)
    ∧ (r ≠ None → k = S j).
Proof.
  destruct (extract_effects raw_text category source_url source_name image_url w)
    as (r & k & j & E & H).
  exists r, (after_calls w (format_prompt (take 8000 raw_text) source_url) k
               (take j [2; 4; 8; 16; 32])), k, j.
  split; [exact E|]. split; [reflexivity|]. split; [reflexivity|].
  split; [reflexivity|]. exact H.
Qed.

(** The keys of the record built from an accepted response. *)
Lemma parse_dom response parsed :
  parse response = Ok (Some parsed) →
  dom parsed = list_to_set (py <$> ["title"; "content"; "date_of_publication"; "language"]%string).
Proof.
  unfold _parse_mistral_response.
  destruct (nonempty response); cbn [negb]; [|discriminate].
  destruct (json_loads (unfence response)) as [v|] eqn:Hj; [|discriminate].
  destruct v as [| | | | |l|data]; try discriminate.
  destruct (negb _ || negb _); [discriminate|].
  destruct (dict_get "content" data) as [| | | |content| |] eqn:Hg; try discriminate.
  destruct (length (strip content) <? 50)%nat; [discriminate|].
  intros [= <-]. rewrite !dom_insert_L, dom_empty_L. cbn [list_to_set fmap list_fmap].
  set_elems.
Qed.

(** The fields set by the last steps of the extraction. *)
Lemma finish_fields parsed category source_url source_name image_url art :
  finish' parsed category source_url source_name image_url = Ok art →
  art !! py "category" = Some (PStr category)
  ∧ art !! py "source_url" = Some (PStr source_url)
  ∧ art !! py "source_name" = Some (PStr source_name)
  ∧ art !! py "image_url" = Some (of_option image_url)
  ∧ art !! py "date_of_publication"
    = Some (if truthy (dict_get "date_of_publication" parsed)
            then dict_get "date_of_publication" parsed
            else of_option (_extract_date_from_url re_digit source_url))
  ∧ dom art
    = list_to_set (py <$> ["category"; "source_url"; "source_name"; "image_url";
                           "date_of_publication"]%string) ∪ dom parsed.
Proof.
  unfold finish.
  set (parsed1 := if negb (truthy (dict_get "date_of_publication" parsed)) then _ else _).
  assert (parsed1 !! py "date_of_publication"
          = Some (if truthy (dict_get "date_of_publication" parsed)
                  then dict_get "date_of_publication" parsed
                  else of_option (_extract_date_from_url re_digit source_url))
          ∧ dom parsed1 = {[py "date_of_publication"]} ∪ dom parsed) as [Hd Hdom].
  { unfold parsed1, dict_get.
    destruct (parsed !! py "date_of_publication") as [v|] eqn:Hv; cbn [default]; unfold id.
    - destruct (truthy v); cbn [negb].
      + split; [exact Hv|]. apply elem_of_dom_2 in Hv. set_elems.
      + rewrite lookup_insert_eq, dom_insert_L. done.
    - cbn [truthy negb]. rewrite lookup_insert_eq, dom_insert_L. done. }
  destruct (parsed1 !! py "content") as [[| | | |content| |]|] eqn:Hc; try discriminate.
  set (parsed2 := if (1500 <? length content)%nat then _ else _).
  assert (parsed2 !! py "date_of_publication" = parsed1 !! py "date_of_publication"
          ∧ dom parsed2 = dom parsed1) as [Hd2 Hdom2].
  { unfold parsed2. destruct (1500 <? length content)%nat; [|done].
    rewrite lookup_insert_ne by key_ne. rewrite dom_insert_L.
    apply elem_of_dom_2 in Hc. split; [done | set_elems]. }
  intros [= <-]. split_and!.
  - do 3 (rewrite lookup_insert_ne by key_ne). by rewrite lookup_insert_eq.
  - do 2 (rewrite lookup_insert_ne by key_ne). by rewrite lookup_insert_eq.
  - do 1 (rewrite lookup_insert_ne by key_ne). by rewrite lookup_insert_eq.
  - by rewrite lookup_insert_eq.
  - do 4 (rewrite lookup_insert_ne by key_ne). by rewrite Hd2, Hd.
  - rewrite !dom_insert_L, Hdom2, Hdom. cbn [list_to_set fmap list_fmap]. set_elems.
Qed.

(** X2. An article returned by [extract_article_with_mistral] has exactly
    the eight keys title, content, date_of_publication, language, category,
    source_url, source_name and image_url; its category, source_url and
    source_name are the arguments of the call, and its image_url is the
    argument, None when there is none. *)
Theorem produced_article_has_eight_fields
    raw_text category source_url source_name image_url w art w' :
  extract raw_text category source_url source_name image_url w = (Ok (Some art), w') →
  dom art = article_keys
  ∧ art !! py "category" = Some (PStr category)
  ∧ art !! py "source_url" = Some (PStr source_url)
  ∧ art !! py "source_name" = Some (PStr source_name)
  ∧ art !! py "image_url" = Some (of_option image_url).
Proof.
  intros H. apply extract_produces in H as (response & parsed & _ & Hp & Hf).
  apply parse_dom in Hp.
  apply finish_fields in Hf as (H1 & H2 & H3 & H4 & _ & Hdom).
  split_and!; try done.
  rewrite Hdom, Hp. unfold article_keys. cbn [list_to_set fmap list_fmap]. set_elems.
Qed.

(** X3. The date of a returned article is the date of the object the
    model answered with when that value is truthy, and otherwise the date
    that [_extract_date_from_url] reads from the source URL, None when the
    URL holds none. *)
Theorem produced_article_date_from_model_or_url
    raw_text category source_url source_name image_url w art w' :
  extract raw_text category source_url source_name image_url w = (Ok (Some art), w') →
  ∃ response data,
    call (format_prompt (take 8000 raw_text) source_url) 5 w = (Ok response, w')
    ∧ json_loads (unfence response) = Some (PDict data)
    ∧ art !! py "date_of_publication"
      = Some (if truthy (dict_get "date_of_publication" data)
              then dict_get "date_of_publication" data
              else of_option (_extract_date_from_url re_digit source_url)).
Proof.
  intros H. apply extract_produces in H as (response & parsed & Hcall & Hp & Hf).
  apply parse_accepts in Hp as (data & c & Hj & _ & _ & _ & _ & _ & _ & Hdate & _).
  apply finish_fields in Hf as (_ & _ & _ & _ & Hd & _).
  exists response, data. split_and!; try done.
  rewrite Hd. unfold dict_get at 1 2. rewrite Hdate. reflexivity.
Qed.







(** *** The date in the URL *)

Lemma date_at_Some s y m dd :
  date_at re_digit s = Some (y, m, dd) ↔
  ∃ post, s = dated_segment y m dd ++ post ∧ date_shape re_digit y m dd.
Proof.
  unfold dated_segment, date_shape. change (py "/") with [chr "/"]. split.
  - do 12 (destruct s as [|? s]; [discriminate|]). cbn [date_at].
    destruct (_ && _) eqn:Hc; [|discriminate]. intros [= <- <- <-].
    rewrite !andb_true_iff in Hc. destruct Hc as [[[[H0 H1] H2] H3] Hd].
    unfold eqc in H0, H1, H2, H3. apply N.eqb_eq in H0, H1, H2, H3. subst.
    exists s. split; [reflexivity|]. split_and!; try reflexivity. exact Hd.
  - intros (post & -> & Hy & Hm & Hd & Hdig).
    do 4 (destruct y as [|? y]; [discriminate|]). destruct y; [|discriminate].
    do 2 (destruct m as [|? m]; [discriminate|]). destruct m; [|discriminate].
    do 2 (destruct dd as [|? dd]; [discriminate|]). destruct dd; [|discriminate].
    cbn [app date_at]. unfold eqc. rewrite N.eqb_refl. cbn [andb].
    cbn [app] in Hdig. rewrite Hdig. reflexivity.
Qed.

Lemma date_search_Some s g :
  date_search re_digit s = Some g →
  ∃ pre rest, s = pre ++ rest ∧ date_at re_digit rest = Some g
    ∧ ∀ i, (i < length pre)%nat → date_at re_digit (drop i s) = None.
Proof.
  induction s as [|c s IH].
  - cbn. discriminate.
  - cbn [date_search]. destruct (date_at re_digit (c :: s)) as [g'|] eqn:Hat.
    + intros [= ->]. exists [], (c :: s). split_and!; [done | done |].
      intros i Hi. cbn in Hi. lia.
    + intros H. destruct (IH H) as (pre & rest & -> & Hr & Hnone).
      exists (c :: pre), rest. split_and!; [done | done |].
      intros [|i] Hi; [exact Hat|]. apply Hnone. cbn in Hi. lia.
Qed.

Lemma date_search_None s :
  date_search re_digit s = None ↔ ∀ i, date_at re_digit (drop i s) = None.
Proof.
  induction s as [|c s IH].
  - cbn. split; [|done]. intros _ i. by rewrite drop_nil.
  - cbn [date_search]. destruct (date_at re_digit (c :: s)) as [g'|] eqn:Hat.
    + split; [discriminate|]. intros H. specialize (H 0%nat). rewrite drop_0 in H. congruence.
    + rewrite IH. split.
      * intros H [|i]; [exact Hat | apply H].
      * intros H i. apply (H (S i)).
Qed.

(** X6. [_extract_date_from_url] returns the date of the first segment
    of the URL that has the shape /YYYY/MM/DD/ (four, two and two digits
    between slashes), written YYYY-MM-DD, ten characters long; it returns
    None exactly when the URL has no such segment. *)
Theorem extract_date_from_url_first_dated_segment (url : list N) :
  (∀ date : list N, _extract_date_from_url re_digit url = Some date →
     ∃ pre y m dd post,
       url = pre ++ dated_segment y m dd ++ post
       ∧ date_shape re_digit y m dd
       ∧ date = y ++ py "-" ++ m ++ py "-" ++ dd
       ∧ length date = 10%nat
       ∧ ∀ pre' y' m' dd' post',
           url = pre' ++ dated_segment y' m' dd' ++ post' →
           date_shape re_digit y' m' dd' → (length pre ≤ length pre')%nat)
  ∧ (_extract_date_from_url re_digit url = None ↔
     ∀ pre y m dd post,
       url = pre ++ dated_segment y m dd ++ post → ¬ date_shape re_digit y m dd).
Proof.
  unfold _extract_date_from_url. split.
  - intros date. destruct (date_search re_digit url) as [[[y m] dd]|] eqn:Hs; [|discriminate].
    intros [= <-]. apply date_search_Some in Hs as (pre & rest & -> & Hat & Hleft).
    apply date_at_Some in Hat as (post & -> & Hshape).
    exists pre, y, m, dd, post. split_and!; try done.
    + destruct Hshape as (Hy & Hm & Hd & _).
      repeat first [rewrite length_app | rewrite length_cons].
      rewrite Hy, Hm, Hd. reflexivity.
    + intros pre' y' m' dd' post' E Hshape'.
      destruct (Nat.le_gt_cases (length pre) (length pre')) as [|Hlt]; [done|].
      specialize (Hleft _ Hlt). rewrite E, drop_app_length in Hleft.
      assert (date_at re_digit (dated_segment y' m' dd' ++ post') = Some (y', m', dd'))
        as Hat by (apply date_at_Some; by exists post').
      congruence.
  - destruct (date_search re_digit url) as [[[y m] dd]|] eqn:Hs.
    + split; [discriminate|]. intros H. exfalso.
      apply date_search_Some in Hs as (pre & rest & -> & Hat & _).
      apply date_at_Some in Hat as (post & -> & Hshape).
      by apply (H pre y m dd post).
    + split; [|done]. intros _ pre y m dd post -> Hshape.
      rewrite date_search_None in Hs. specialize (Hs (length pre)).
      rewrite drop_app_length in Hs.
      assert (date_at re_digit (dated_segment y m dd ++ post) = Some (y, m, dd))
        as Hat by (apply date_at_Some; by exists post).
      congruence.
Qed.


(** *** Code fences around the response *)

Lemma strip_between (ws1 ws2 x : list N) (c1 c2 : N) :
  blank ws1 → blank ws2 →
  head x = Some c1 → isspace c1 = false → last x = Some c2 → isspace c2 = false →
  strip (ws1 ++ x ++ ws2) = x.
Proof.
  intros H1 H2 Hh Hc1 Hl Hc2. unfold strip, lstrip, rstrip.
  destruct (take_while_app_stop isspace ws1 (x ++ ws2)) as [_ ->]; [exact H1| |].
  { intros y. destruct x; [discriminate|]. cbn. intros [= <-]. cbn in Hh. congruence. }
  rewrite reverse_app.
  destruct (take_while_app_stop isspace (reverse ws2) (reverse x)) as [_ ->].
  - intros y Hy. apply H2. by apply elem_of_reverse.
  - intros y. rewrite head_reverse. congruence.
  - apply reverse_involutive.
Qed.

Lemma rstrip_prefix (t : list N) : ∃ ws, t = rstrip t ++ ws.
Proof.
  exists (reverse (take_while isspace (reverse t))). unfold rstrip.
  rewrite <- reverse_app, take_drop_while. by rewrite reverse_involutive.
Qed.

Lemma strip_strip (s : list N) : strip (strip s) = strip s.
Proof.
  destruct (strip s) as [|c x] eqn:E; [reflexivity|].
  assert (isspace c = false) as Hc.
  { unfold strip in E. destruct (rstrip_prefix (lstrip s)) as [ws Hws].
    rewrite E in Hws. apply (drop_while_head isspace s). unfold lstrip in Hws.
    by rewrite Hws. }
  assert (∃ c2 : N, last (c :: x) = Some c2 ∧ isspace c2 = false) as (c2 & Hl & Hc2).
  { rewrite <- E. unfold strip, rstrip. rewrite <- head_reverse, reverse_involutive.
    destruct (head (drop_while isspace (reverse (lstrip s)))) as [c2|] eqn:Hh.
    - exists c2. split; [done|]. by apply drop_while_head in Hh.
    - apply head_None in Hh. unfold strip, rstrip in E. rewrite Hh in E. discriminate. }
  pose proof (strip_between [] [] (c :: x) c c2) as H.
  rewrite app_nil_r in H. apply H; try done; intros y Hy; by apply elem_of_nil in Hy.
Qed.

Lemma startswith_app_l (a b s : list N) :
  startswith (a ++ b) s = true → startswith a s = true.
Proof.
  revert s. induction a as [|x a IH]; intros s; [done|].
  destruct s as [|y s]; cbn; [done|].
  rewrite !andb_true_iff. intros [? ?]. split; [done | by apply IH].
Qed.

(** The text handed to [json.loads] for a fenced response. *)
Lemma unfence_fenced (ws1 ws2 tag body : list N) :
  blank ws1 → blank ws2 → tag = [] ∨ tag = py "json" →
  unfence (ws1 ++ fenced tag body ++ ws2) = strip body.
Proof.
  intros H1 H2 Htag. unfold unfence.
  assert (strip (ws1 ++ fenced tag body ++ ws2) = fenced tag body) as ->.
  { apply (strip_between ws1 ws2 _ 96%N 96%N);
      [exact H1 | exact H2 | | reflexivity | | reflexivity].
    - by destruct Htag as [-> | ->].
    - unfold fenced. change fence with ([96; 96]%N ++ [96%N]).
      rewrite !app_assoc. apply last_snoc. }
  assert (∀ t, (if startswith fence (10%N :: t ++ fence) then drop 3 (10%N :: t ++ fence)
                else 10%N :: t ++ fence) = 10%N :: t ++ fence) as Hstep2 by done.
  assert (∀ t, strip (if endswith fence (10%N :: t ++ fence)
                      then take (length (10%N :: t ++ fence) - 3) (10%N :: t ++ fence)
                      else 10%N :: t ++ fence) = strip t) as Hstep3.
  { intros t. replace (endswith fence (10%N :: t ++ fence)) with true.
    - change (10%N :: t ++ fence) with ((10%N :: t) ++ fence).
      rewrite take_app_length'; [reflexivity|].
      rewrite length_app. change (length fence) with 3%nat. lia.
    - symmetry. unfold endswith.
      change (10%N :: t ++ fence) with ((10%N :: t) ++ fence).
      rewrite reverse_app. apply startswith_app. }
  destruct Htag as [-> | ->]; unfold fenced.
  - change (startswith (fence ++ py "json") (fence ++ [] ++ [10%N] ++ body ++ fence))
      with false.
    cbv iota.
    change (startswith fence (fence ++ [] ++ [10%N] ++ body ++ fence)) with true.
    cbv iota.
    change (drop 3 (fence ++ [] ++ [10%N] ++ body ++ fence)) with (10%N :: body ++ fence).
    apply Hstep3.
  - change (startswith (fence ++ py "json") (fence ++ py "json" ++ [10%N] ++ body ++ fence))
      with true.
    cbv iota.
    change (drop 7 (fence ++ py "json" ++ [10%N] ++ body ++ fence))
      with (10%N :: body ++ fence).
    rewrite Hstep2. apply Hstep3.
Qed.

(** The text handed to [json.loads] for a response without a fence. *)
Lemma unfence_bare (body : list N) :
  startswith fence (strip body) = false → endswith fence (strip body) = false →
  unfence body = strip body.
Proof.
  intros Hs He. unfold unfence.
  destruct (startswith (fence ++ py "json") (strip body)) eqn:Hj.
  { apply startswith_app_l in Hj. congruence. }
  rewrite Hs, He. apply strip_strip.
Qed.

(** X7. A response wrapped in a code fence, with or without the tag json
    after the opening fence and with blanks around the fences, is read as the
    text inside: [_parse_mistral_response] gives the same result for the
    wrapped and for the bare response, when the stripped inner text neither
    starts nor ends with a fence. *)
Theorem parse_ignores_code_fence (ws1 ws2 tag body : list N) :
  blank ws1 → blank ws2 → tag = [] ∨ tag = py "json" →
  body ≠ [] →
  startswith fence (strip body) = false → endswith fence (strip body) = false →
  unfence (ws1 ++ fenced tag body ++ ws2) = strip body
  ∧ unfence body = strip body
  ∧ parse (ws1 ++ fenced tag body ++ ws2) = parse body.
Proof.
  intros H1 H2 Htag Hne Hs He.
  pose proof (unfence_fenced ws1 ws2 tag body H1 H2 Htag) as Ef.
  pose proof (unfence_bare body Hs He) as Eb.
  split; [exact Ef|]. split; [exact Eb|].
  unfold _parse_mistral_response. rewrite Ef, Eb.
  replace (nonempty (ws1 ++ fenced tag body ++ ws2)) with true.
  - destruct body; [done | reflexivity].
  - symmetry. destruct ws1; [|reflexivity]. by destruct Htag as [-> | ->].
Qed.

End Extraction.

(** The article of kun.uz of the examples: eight fields, the content cut to
    1500 characters, the date read from the URL. *)
Lemma produced_article_fields_witness :
  dom (Examples.produced_article (py "Sarlavha")
         (take 1497 Examples.long_content ++ py "...") (PStr (py "2026-01-31")))
  = article_keys
  ∧ Examples.produced_article (py "Sarlavha")
      (take 1497 Examples.long_content ++ py "...") (PStr (py "2026-01-31"))
    !! py "category" = Some (PStr (py "sport"))
  ∧ Examples.produced_article (py "Sarlavha")
      (take 1497 Examples.long_content ++ py "...") (PStr (py "2026-01-31"))
    !! py "source_url" = Some (PStr Examples.article_url)
  ∧ Examples.produced_article (py "Sarlavha")
      (take 1497 Examples.long_content ++ py "...") (PStr (py "2026-01-31"))
    !! py "source_name" = Some (PStr (py "kun.uz"))
  ∧ Examples.produced_article (py "Sarlavha")
      (take 1497 Examples.long_content ++ py "...") (PStr (py "2026-01-31"))
    !! py "image_url" = Some (of_option None).
Proof.
  apply (produced_article_has_eight_fields
           (Examples.answers (Examples.json_text (py "Sarlavha") Examples.long_content))
           (Examples.json_loads_on (py "Sarlavha") Examples.long_content)
           ascii_lower is_ascii_digit
           Examples.article_text (py "sport") Examples.article_url (py "kun.uz") None
           Examples.world0
           (Examples.produced_article (py "Sarlavha")
              (take 1497 Examples.long_content ++ py "...") (PStr (py "2026-01-31")))
           (mkWorld [] [mistral_service.format_prompt (take 8000 Examples.article_text)
                          Examples.article_url] [])).
  by_evaluation.
Defined.

Lemma produced_article_date_witness :
  ∃ response data,
    mistral_service._call_mistral_with_retry
      (Examples.answers (Examples.json_text (py "Sarlavha") Examples.long_content))
      ascii_lower
      (mistral_service.format_prompt (take 8000 Examples.article_text) Examples.article_url)
      5 Examples.world0
    = (Ok response,
       mkWorld [] [mistral_service.format_prompt (take 8000 Examples.article_text)
                     Examples.article_url] [])
    ∧ Examples.json_loads_on (py "Sarlavha") Examples.long_content
        (mistral_service.unfence response) = Some (PDict data)
    ∧ Examples.produced_article (py "Sarlavha")
        (take 1497 Examples.long_content ++ py "...") (PStr (py "2026-01-31"))
      !! py "date_of_publication"
      = Some (if truthy (dict_get "date_of_publication" data)
              then dict_get "date_of_publication" data
              else of_option (mistral_service._extract_date_from_url is_ascii_digit
                                Examples.article_url)).
Proof.
  apply (produced_article_date_from_model_or_url
           (Examples.answers (Examples.json_text (py "Sarlavha") Examples.long_content))
           (Examples.json_loads_on (py "Sarlavha") Examples.long_content)
           ascii_lower is_ascii_digit
           Examples.article_text (py "sport") Examples.article_url (py "kun.uz") None
           Examples.world0).
  by_evaluation.
Defined.

(** A response in a fence tagged json, with blanks around it, is parsed as
    the bare response. *)
Lemma parse_ignores_code_fence_witness :
  mistral_service.unfence
    (py " " ++ fenced (py "json") (Examples.json_text (py "Sarlavha") Examples.long_content)
     ++ [10%N])
  = strip (Examples.json_text (py "Sarlavha") Examples.long_content)
  ∧ mistral_service.unfence (Examples.json_text (py "Sarlavha") Examples.long_content)
    = strip (Examples.json_text (py "Sarlavha") Examples.long_content)
  ∧ mistral_service._parse_mistral_response
      (Examples.json_loads_on (py "Sarlavha") Examples.long_content)
      (py " " ++ fenced (py "json")
                   (Examples.json_text (py "Sarlavha") Examples.long_content)
       ++ [10%N])
    = mistral_service._parse_mistral_response
        (Examples.json_loads_on (py "Sarlavha") Examples.long_content)
        (Examples.json_text (py "Sarlavha") Examples.long_content).
Proof.
  apply (parse_ignores_code_fence
           (Examples.json_loads_on (py "Sarlavha") Examples.long_content)).
  - intros c ->%list_elem_of_singleton. reflexivity.
  - intros c ->%list_elem_of_singleton. reflexivity.
  - by right.
  - discriminate.
  - by_evaluation.
  - by_evaluation.
Defined.

(** ** The image of an article (services/crawler_service.py) *)

Section Images.

Import crawler_service crawler_articles.

Variable lower : list N → list N.

Implicit Types (s t u url markdown html : list N) (ok : N → bool).

(** Equalities between concatenations, up to the grouping. *)
Local Ltac regroup :=
  repeat first [progress rewrite <- app_assoc | progress cbn [app]]; try done.

Local Abbreviation logo_like := (spec.logo_like lower).
Local Abbreviation first_image := (extract_first_image lower).

(** Every match that [findall] returns is a match of the pattern at some
    place of the text. *)
Lemma findall_elem {A} (match_at : list N → option (A * nat)) (g : A) s : ∀ skip,
  g ∈ findall match_at skip s →
  ∃ pre rest n, s = pre ++ rest ∧ match_at rest = Some (g, n).
Proof.
  induction s as [|c s IH]; intros skip; cbn [findall]; [by intros ?%elem_of_nil|].
  assert (∀ k, g ∈ findall match_at k s →
               ∃ pre rest n, c :: s = pre ++ rest ∧ match_at rest = Some (g, n)) as Hrest.
  { intros k Hin. destruct (IH k Hin) as (pre & rest & n & -> & Hm).
    by exists (c :: pre), rest, n. }
  destruct skip as [|k]; [|apply Hrest].
  destruct (match_at (c :: s)) as [[g' n]|] eqn:Hm; [|apply Hrest].
  intros [->|Hin]%elem_of_cons; [|by eapply Hrest].
  by exists [], (c :: s), n.
Qed.

(** The first match: when the pattern matches nowhere before. *)
Lemma findall_none {A} (match_at : list N → option (A * nat)) s : ∀ skip,
  (∀ i, match_at (drop i s) = None) → findall match_at skip s = [].
Proof.
  induction s as [|c s IH]; intros skip Hnone; [done|]. cbn [findall].
  assert (∀ k, findall match_at k s = []) as Hrest.
  { intros k. apply IH. intros i. apply (Hnone (S i)). }
  destruct skip; [|apply Hrest].
  pose proof (Hnone 0%nat) as H0. rewrite drop_0 in H0. rewrite H0. apply Hrest.
Qed.

(** What [https?://[^X]+] matches. *)
Lemma http_url_at_shape ok s url :
  http_url_at ok s = Some url →
  http_url eq (λ c, negb (ok c)) url
  ∧ ∃ rest, s = url ++ rest ∧ ∀ c, head rest = Some c → ok c = false.
Proof.
  unfold http_url_at.
  destruct (startswith (py "http") s) eqn:H1; [|discriminate].
  apply startswith_prefix in H1 as [r ->].
  change (drop 4 (py "http" ++ r)) with r.
  assert (∀ scheme r'',
            scheme = py "http://" ∨ scheme = py "https://" →
            (if nonempty (take_while ok r'')
             then Some (take (length (scheme ++ r'') - length r'') (scheme ++ r'')
                        ++ take_while ok r'')
             else None) = Some url →
            http_url eq (λ c, negb (ok c)) url
            ∧ ∃ rest, scheme ++ r'' = url ++ rest ∧ ∀ c, head rest = Some c → ok c = false)
    as Hrun.
  { intros scheme r'' Hs. rewrite length_app, Nat.add_sub, take_app_length.
    destruct (take_while ok r'') as [|c run] eqn:Hrun; [discriminate|].
    intros Hurl. apply (inj Some) in Hurl. subst url. split.
    - exists scheme, (c :: run). split; [done|].
      split; [by destruct Hs as [-> | ->]; [left | right]|]. split; [done|].
      intros x Hx. rewrite <- Hrun in Hx. apply take_while_elem in Hx as [_ ->]. done.
    - exists (drop_while ok r''). split; [|apply drop_while_head].
      rewrite <- app_assoc. f_equal.
      rewrite <- Hrun. symmetry. apply take_drop_while. }
  destruct (startswith (py "s") r) eqn:H2.
  - apply startswith_prefix in H2 as [r' ->]. change (drop 1 (py "s" ++ r')) with r'.
    destruct (startswith (py "://") r') eqn:H3; [|discriminate].
    apply startswith_prefix in H3 as [r'' ->]. change (drop 3 (py "://" ++ r'')) with r''.
    change (py "http" ++ py "s" ++ py "://" ++ r'') with (py "https://" ++ r'').
    apply Hrun. by right.
  - destruct (startswith (py "://") r) eqn:H3; [|discriminate].
    apply startswith_prefix in H3 as [r'' ->]. change (drop 3 (py "://" ++ r'')) with r''.
    change (py "http" ++ py "://" ++ r'') with (py "http://" ++ r'').
    apply Hrun. by left.
Qed.

(** The URL of a match of the image pattern. *)
Lemma image_at_shape s alt url n :
  image_at s = Some ((alt, url), n) →
  http_url eq (eqc (chr ")")) url
  ∧ ∃ rest, s = py "![" ++ alt ++ py "](" ++ url ++ py ")" ++ rest.
Proof.
  unfold image_at. destruct s as [|c0 [|c1 r1]]; [discriminate..|].
  set (p := λ x, negb (eqc (chr "]") x)).
  destruct (eqc (chr "!") c0) eqn:E0; [|discriminate].
  destruct (eqc (chr "[") c1) eqn:E1; [|discriminate].
  destruct (startswith (py "](") (drop_while p r1)) eqn:E2; [|discriminate].
  cbn [andb]. apply startswith_prefix in E2 as [r3 E2]. rewrite E2.
  change (drop 2 (py "](" ++ r3)) with r3.
  destruct (http_url_at _ r3) as [url'|] eqn:Hu; [|discriminate].
  destruct (drop (length url') r3) as [|c rest] eqn:Hd; [discriminate|].
  intros [= <- <- <-].
  destruct (http_url_at_shape _ _ _ Hu) as [Hshape (r4 & -> & Hstop)].
  rewrite drop_app_length in Hd. subst r4.
  split.
  - destruct Hshape as (scheme & rest' & -> & Hs & Hne & Hok).
    exists scheme, rest'. split_and!; try done.
    intros x Hx. specialize (Hok x Hx). by destruct (eqc (chr ")") x).
  - exists rest. unfold eqc in E0, E1. apply N.eqb_eq in E0, E1. subst c0 c1.
    specialize (Hstop c eq_refl). unfold eqc in Hstop.
    apply negb_false_iff, N.eqb_eq in Hstop. subst c.
    change (py "![" ++ take_while p r1 ++ py "](" ++ url' ++ py ")" ++ rest)
      with (chr "!" :: chr "[" :: (take_while p r1 ++ py "](" ++ url' ++ py ")" ++ rest)).
    do 2 f_equal. rewrite <- (take_drop_while p r1) at 1. f_equal. rewrite E2.
    reflexivity.
Qed.

(** The loop keeps, in order, the URLs that are not logo-like. *)
Lemma image_loop_filter (matches : list (list N * list N)) : ∀ acc,
  image_loop lower matches acc
  = acc ++ filter (λ u, logo_like u = false) (snd <$> matches).
Proof.
  induction matches as [|[alt url] rest IH]; intros acc; cbn [image_loop fmap list_fmap snd].
  - by rewrite filter_nil, app_nil_r.
  - rewrite filter_cons. destruct (logo_like url) eqn:Hl.
    + rewrite decide_False by done. unfold spec.logo_like in Hl.
      destruct (any_in logo_keywords (lower url)); [apply IH|].
      cbn [orb] in Hl. rewrite Hl. apply IH.
    + rewrite decide_True by done. unfold spec.logo_like in Hl.
      apply orb_false_iff in Hl as [-> ->]. rewrite IH, <- app_assoc. done.
Qed.

(** The first element that a filter keeps. *)
Lemma filter_head {A} (P : A → Prop) `{!∀ x, Decision (P x)} (l : list A) x r :
  filter P l = x :: r →
  ∃ i, l !! i = Some x ∧ P x ∧ ∀ j y, (j < i)%nat → l !! j = Some y → ¬ P y.
Proof.
  induction l as [|a l IH]; [done|]. rewrite filter_cons.
  destruct (decide (P a)) as [Ha|Ha].
  - intros [= -> _]. exists 0%nat. split_and!; [done..|]. intros j y Hj. lia.
  - intros Hf. destruct (IH Hf) as (i & Hi & Hx & Hbefore).
    exists (S i). split_and!; [done..|].
    intros [|j] y Hj; cbn; [by intros [= <-] | apply Hbefore; lia].
Qed.

(** X8. [extract_first_image] returns None exactly when the markdown has
    no image with an http or https URL. Otherwise it returns the URL of the
    first image whose lower-cased URL holds none of the logo keywords and
    none of the size markers, and, when every image holds one, the URL of the
    first image. The result starts with http:// or https://, holds no closing
    parenthesis and stands in the markdown as the target of an image. *)
Theorem first_image_skips_logos markdown :
  (first_image markdown = None ↔ findall image_at 0 markdown = [])
  ∧ (∀ u, first_image markdown = Some u →
       (∃ i, (snd <$> findall image_at 0 markdown) !! i = Some u
          ∧ ((logo_like u = false
              ∧ ∀ j v, (j < i)%nat →
                  (snd <$> findall image_at 0 markdown) !! j = Some v → logo_like v = true)
             ∨ (i = 0%nat
                ∧ ∀ v, v ∈ snd <$> findall image_at 0 markdown → logo_like v = true)))
       ∧ http_url eq (eqc (chr ")")) u
       ∧ ∃ pre alt rest,
           markdown = pre ++ py "![" ++ alt ++ py "](" ++ u ++ py ")" ++ rest).
Proof.
  unfold extract_first_image. rewrite image_loop_filter, app_nil_l.
  set (matches := findall image_at 0 markdown).
  assert (∀ u, u ∈ snd <$> matches →
            http_url eq (eqc (chr ")")) u
            ∧ ∃ pre alt rest,
                markdown = pre ++ py "![" ++ alt ++ py "](" ++ u ++ py ")" ++ rest) as Hshape.
  { intros u (m & -> & Hm)%list_elem_of_fmap. destruct m as [alt u].
    apply findall_elem in Hm as (pre & rest & n & -> & Hat).
    apply image_at_shape in Hat as [Hu [rest' ->]]. split; [exact Hu|].
    by exists pre, alt, rest'. }
  case_bool_decide as Hnil.
  { rewrite Hnil. split; [done|]. discriminate. }
  split; [split; [|done]|].
  { destruct (filter _ _); [|discriminate]. by destruct matches as [|[??]?]. }
  intros u Hu.
  destruct (filter _ (snd <$> matches)) as [|x r] eqn:Hf.
  - destruct matches as [|[alt u0] rest] eqn:Hm; [done|]. injection Hu as ->.
    split; [|apply Hshape; left].
    exists 0%nat. split; [done|]. right. split; [done|].
    intros v Hv. destruct (logo_like v) eqn:Hl; [done|].
    assert (v ∈ filter (λ u, logo_like u = false) (snd <$> (alt, u) :: rest)) as Hin
      by (by apply list_elem_of_filter).
    rewrite Hf in Hin. by apply elem_of_nil in Hin.
  - injection Hu as ->.
    apply filter_head in Hf as (i & Hi & Hu & Hbefore).
    split; [|apply Hshape; by eapply list_elem_of_lookup_2].
    exists i. split; [done|]. left. split; [done|].
    intros j v Hj Hv. specialize (Hbefore j v Hj Hv). by destruct (logo_like v).
Qed.


(** *** The tag of the page *)

Lemma lit_ci_same (p t r : list N) : same_ci p t → lit_ci p (t ++ r) = Some r.
Proof.
  intros H. induction H as [|c d p t Hcd _ IH]; [done|]. cbn. by rewrite Hcd.
Qed.

Lemma lit_ci_suffix (p s r : list N) :
  lit_ci p s = Some r → ∃ t, s = t ++ r ∧ same_ci p t.
Proof.
  revert s. induction p as [|c p IH]; intros s; cbn.
  - intros [= <-]. exists []. split; [done | constructor].
  - destruct s as [|d s]; [discriminate|]. destruct (ci_char c d) eqn:Hcd; [|discriminate].
    intros H. destruct (IH _ H) as (t & -> & Ht). exists (d :: t).
    split; [done | by constructor].
Qed.

Lemma same_ci_refl_lower (p : list N) :
  same_ci p p.
Proof.
  induction p as [|c p IH]; constructor; [|done].
  unfold ci_char, eqc. by rewrite N.eqb_refl.
Qed.

Lemma spaces_suffix (s r : list N) : spaces s = Some r → ∃ ws, s = ws ++ r.
Proof.
  unfold spaces. destruct (nonempty _); [|discriminate]. intros [= <-].
  exists (take_while isspace s). symmetry. apply take_drop_while.
Qed.

Lemma spaces_one (c : N) (r : list N) :
  isspace c = false → spaces (chr " " :: c :: r) = Some (c :: r).
Proof.
  intros Hc. unfold spaces. cbn [take_while drop_while].
  change (isspace (chr " ")) with true. cbn [nonempty]. by rewrite Hc.
Qed.

Lemma quote_suffix (s r : list N) :
  quote s = Some r → ∃ q, s = q :: r ∧ quote_char q = true.
Proof.
  destruct s as [|q s]; cbn; [discriminate|].
  destruct (quote_char q) eqn:Hq; [|discriminate]. intros [= <-]. by exists q.
Qed.

Lemma attr_suffix (name value s r : list N) :
  attr name value s = Some r → ∃ t, s = t ++ r.
Proof.
  unfold attr. intros H.
  destruct (lit_ci name s) as [r1|] eqn:H1; [|discriminate]. cbn in H.
  destruct (lit_ci (py "=") r1) as [r2|] eqn:H2; [|discriminate]. cbn in H.
  destruct (quote r2) as [r3|] eqn:H3; [|discriminate]. cbn in H.
  destruct (lit_ci value r3) as [r4|] eqn:H4; [|discriminate]. cbn in H.
  apply lit_ci_suffix in H1 as (t1 & -> & _), H2 as (t2 & -> & _), H4 as (t4 & -> & _).
  apply quote_suffix in H3 as (q3 & -> & _), H as (q & -> & _).
  exists (t1 ++ t2 ++ q3 :: t4 ++ [q]). regroup.
Qed.

(** What the group of the URL matches. *)
Lemma url_ci_shape (s u r : list N) :
  url_ci s = Some (u, r) →
  http_url same_ci quote_char u ∧ s = u ++ r.
Proof.
  unfold url_ci. destruct (lit_ci (py "http") s) as [r1|] eqn:H1; [|discriminate].
  cbn [mbind option_bind].
  set (r2 := match r1 with [] => r1 | d :: r0 => if ci_char (chr "s") d then r0 else r1 end).
  destruct (lit_ci (py "://") r2) as [r3|] eqn:H3; [|discriminate].
  cbn [mbind option_bind].
  destruct (take_while _ r3) as [|c run] eqn:Hrun; [discriminate|]. cbn [nonempty].
  intros Hu. apply (inj Some) in Hu. apply pair_eq in Hu as [Hu Hr].
  apply lit_ci_suffix in H1 as (t1 & -> & Ht1), H3 as (t3 & E3 & Ht3).
  assert (∃ scheme, t1 ++ r1 = scheme ++ r3
                    ∧ (same_ci (py "http://") scheme ∨ same_ci (py "https://") scheme))
    as (scheme & Es & Hs).
  { unfold r2 in E3. destruct r1 as [|d r0].
    - exists (t1 ++ t3). rewrite E3, <- app_assoc. split; [done|]. left.
      change (py "http://") with (py "http" ++ py "://"). by apply Forall2_app.
    - destruct (ci_char (chr "s") d) eqn:Hd.
      + exists (t1 ++ d :: t3). rewrite E3, <- app_assoc. split; [done|]. right.
        change (py "https://") with (py "http" ++ chr "s" :: py "://").
        apply Forall2_app; [done|]. by constructor.
      + exists (t1 ++ t3). rewrite E3, <- app_assoc. split; [done|]. left.
        change (py "http://") with (py "http" ++ py "://"). by apply Forall2_app. }
  rewrite Es in Hu |- *. rewrite length_app, Nat.add_sub, take_app_length in Hu.
  subst u r. split.
  - exists scheme, (c :: run). split_and!; [done | done | done |].
    intros x Hx. rewrite <- Hrun in Hx. apply take_while_elem in Hx as [_ Hx].
    by apply negb_true_iff in Hx.
  - rewrite <- app_assoc. f_equal. rewrite <- Hrun. symmetry. apply take_drop_while.
Qed.

(** The group of the URL on a URL that a quote character follows. *)
Lemma url_ci_url (u r : list N) (q : N) :
  http_url same_ci quote_char u → quote_char q = true →
  url_ci (u ++ q :: r) = Some (u, q :: r).
Proof.
  intros (scheme & rest & -> & Hs & Hne & Hrest) Hq. unfold url_ci.
  assert (∀ c, c ∈ rest → negb (quote_char c) = true) as Hrest'
    by (by intros c ->%Hrest).
  assert (∀ y, head (q :: r) = Some y → negb (quote_char y) = false) as Hstop
    by (by intros y [= <-]; rewrite Hq).
  destruct (take_while_app_stop _ rest (q :: r) Hrest' Hstop) as [Ht Hd].
  assert (∀ r3 s, s = scheme ++ r3 → r3 = rest ++ q :: r →
            (if nonempty (take_while (λ c, negb (quote_char c)) r3)
             then Some (take (length s - length r3) s
                        ++ take_while (λ c, negb (quote_char c)) r3,
                        drop_while (λ c, negb (quote_char c)) r3)
             else None) = Some (scheme ++ rest, q :: r)) as Hfin.
  { intros r3 s -> ->. rewrite Ht, Hd, length_app, Nat.add_sub, take_app_length.
    by destruct rest. }
  destruct Hs as [Hs|Hs].
  - change (py "http://") with (py "http" ++ py "://") in Hs.
    apply Forall2_app_inv_l in Hs as (t1 & t3 & H1 & H3 & ->).
    rewrite <- !app_assoc. rewrite (lit_ci_same _ _ _ H1). cbn [mbind option_bind].
    assert (∃ d t3', t3 = d :: t3' ∧ ci_char (chr ":") d = true) as (d & t3' & -> & Hd3).
    { inversion H3; subst. by eexists _, _. }
    assert (ci_char (chr "s") d = false) as Hsd.
    { unfold ci_char, eqc in Hd3 |- *. cbn in Hd3. rewrite !orb_false_r in Hd3.
      apply N.eqb_eq in Hd3. by subst d. }
    cbn [app]. rewrite Hsd.
    change (d :: t3' ++ rest ++ q :: r) with ((d :: t3') ++ rest ++ q :: r).
    rewrite (lit_ci_same _ _ _ H3). cbn [mbind option_bind].
    assert (t1 ++ (d :: t3') ++ rest ++ q :: r = (t1 ++ d :: t3') ++ rest ++ q :: r) as E
      by regroup.
    rewrite (Hfin _ _ E eq_refl). f_equal. f_equal. regroup.
  - change (py "https://") with (py "http" ++ [chr "s"] ++ py "://") in Hs.
    apply Forall2_app_inv_l in Hs as (t1 & t2 & H1 & Hs & ->).
    apply Forall2_app_inv_l in Hs as (ts & t3 & H2 & H3 & ->).
    inversion H2 as [|? d ? ? Hsd Hnil]; subst. inversion Hnil; subst.
    rewrite <- !app_assoc. rewrite (lit_ci_same _ _ _ H1). cbn [mbind option_bind app].
    rewrite Hsd. rewrite (lit_ci_same _ _ _ H3). cbn [mbind option_bind].
    assert (t1 ++ d :: t3 ++ rest ++ q :: r = (t1 ++ d :: t3) ++ rest ++ q :: r) as E
      by regroup.
    rewrite (Hfin _ _ E eq_refl). f_equal. f_equal. regroup.
Qed.

Lemma content_attr_shape (s u r : list N) :
  content_attr s = Some (u, r) →
  http_url same_ci quote_char u
  ∧ ∃ pre q1 q2, s = pre ++ [q1] ++ u ++ [q2] ++ r
      ∧ quote_char q1 = true ∧ quote_char q2 = true.
Proof.
  unfold content_attr. intros H.
  destruct (lit_ci (py "content=") s) as [r1|] eqn:H1; [|discriminate]. cbn in H.
  destruct (quote r1) as [r2|] eqn:H2; [|discriminate]. cbn in H.
  destruct (url_ci r2) as [[u' r3]|] eqn:H3; [|discriminate]. cbn in H.
  destruct (quote r3) as [r4|] eqn:H4; [|discriminate]. cbn in H.
  apply (inj Some) in H. apply pair_eq in H as [-> ->].
  apply lit_ci_suffix in H1 as (t1 & -> & _).
  apply quote_suffix in H2 as (q1 & -> & Hq1), H4 as (q2 & -> & Hq2).
  apply url_ci_shape in H3 as [Hu ->]. split; [exact Hu|].
  exists t1, q1, q2. split_and!; try done.
Qed.

Lemma content_attr_url (u r : list N) :
  http_url same_ci quote_char u →
  content_attr (py "content=" ++ [dquote] ++ u ++ [dquote] ++ r) = Some (u, r).
Proof.
  intros Hu. unfold content_attr.
  rewrite (lit_ci_same _ _ _ (same_ci_refl_lower (py "content="))).
  cbn [mbind option_bind app quote]. change (quote_char dquote) with true. cbv iota.
  cbn [mbind option_bind app].
  rewrite (url_ci_url u r dquote Hu eq_refl). cbn [mbind option_bind quote].
  change (quote_char dquote) with true. reflexivity.
Qed.

(** The place of a match of [re.search]. *)
Lemma search_Some {A} (match_at : list N → option A) s g :
  search match_at s = Some g → ∃ pre rest, s = pre ++ rest ∧ match_at rest = Some g.
Proof.
  induction s as [|c s IH]; cbn [search].
  - destruct (match_at []) eqn:E; [|discriminate]. intros [= ->]. by exists [], [].
  - destruct (match_at (c :: s)) eqn:E.
    + intros [= ->]. by exists [], (c :: s).
    + intros H. destruct (IH H) as (pre & rest & -> & Hm). by exists (c :: pre), rest.
Qed.

Lemma search_found {A} (match_at : list N → option A) pre s g :
  match_at s = Some g → is_Some (search match_at (pre ++ s)).
Proof.
  intros Hm. induction pre as [|c pre IH]; cbn [app].
  - destruct s; cbn [search]; rewrite Hm; by eexists.
  - cbn [search]. destruct (match_at (c :: pre ++ s)); [by eexists | exact IH].
Qed.

Lemma search_skip {A} (match_at : list N → option A) pre s :
  (∀ c r, match_at (c :: r) = None ∨ c ∉ pre) →
  search match_at (pre ++ s) = search match_at s.
Proof.
  intros Hpre. induction pre as [|c pre IH]; [done|]. cbn [app search].
  destruct (Hpre c (pre ++ s)) as [-> | Hc]; [|destruct Hc; left].
  apply IH. intros c' r. destruct (Hpre c' r) as [?|Hc']; [by left | right].
  intros ?. apply Hc'. by right.
Qed.

Lemma og_loop_Some (patterns : list (list N → option (list N))) html u :
  og_loop patterns html = Some u → ∃ pattern, pattern ∈ patterns ∧ search pattern html = Some u.
Proof.
  induction patterns as [|p rest IH]; cbn [og_loop]; [discriminate|].
  destruct (search p html) as [u'|] eqn:E.
  - intros [= ->]. exists p. split; [left | done].
  - intros H. destruct (IH H) as (p' & ? & ?). exists p'. split; [by right | done].
Qed.

Lemma og_loop_found (patterns : list (list N → option (list N))) html pattern :
  pattern ∈ patterns → is_Some (search pattern html) → is_Some (og_loop patterns html).
Proof.
  induction patterns as [|p rest IH]; [by intros ?%elem_of_nil|]. cbn [og_loop].
  intros [->|Hin]%elem_of_cons Hs.
  - destruct Hs as [u ->]. by eexists.
  - destruct (search p html); [by eexists | by apply IH].
Qed.

Lemma og_name_first_shape (name s u : list N) :
  og_name_first name s = Some u →
  http_url same_ci quote_char u
  ∧ ∃ pre post q1 q2, s = pre ++ [q1] ++ u ++ [q2] ++ post
      ∧ quote_char q1 = true ∧ quote_char q2 = true.
Proof.
  unfold og_name_first. intros H.
  destruct (lit_ci (py "<meta") s) as [r1|] eqn:H1; [|discriminate]. cbn in H.
  destruct (spaces r1) as [r2|] eqn:H2; [|discriminate]. cbn in H.
  destruct (attr name (py "og:image") r2) as [r3|] eqn:H3; [|discriminate]. cbn in H.
  destruct (spaces r3) as [r4|] eqn:H4; [|discriminate]. cbn in H.
  destruct (content_attr r4) as [[u' r5]|] eqn:H5; [|discriminate]. cbn in H.
  apply (inj Some) in H. subst u'.
  apply lit_ci_suffix in H1 as (t1 & -> & _).
  apply spaces_suffix in H2 as (t2 & ->), H4 as (t4 & ->).
  apply attr_suffix in H3 as (t3 & ->).
  apply content_attr_shape in H5 as (Hu & pre & q1 & q2 & -> & Hq1 & Hq2).
  split; [exact Hu|]. exists (t1 ++ t2 ++ t3 ++ t4 ++ pre), r5, q1, q2.
  split_and!; try done. by rewrite <- !app_assoc.
Qed.

Lemma og_content_first_shape (name s u : list N) :
  og_content_first name s = Some u →
  http_url same_ci quote_char u
  ∧ ∃ pre post q1 q2, s = pre ++ [q1] ++ u ++ [q2] ++ post
      ∧ quote_char q1 = true ∧ quote_char q2 = true.
Proof.
  unfold og_content_first. intros H.
  destruct (lit_ci (py "<meta") s) as [r1|] eqn:H1; [|discriminate]. cbn in H.
  destruct (spaces r1) as [r2|] eqn:H2; [|discriminate]. cbn in H.
  destruct (content_attr r2) as [[u' r3]|] eqn:H3; [|discriminate]. cbn in H.
  destruct (spaces r3) as [r4|] eqn:H4; [|discriminate]. cbn in H.
  destruct (attr name (py "og:image") r4) as [r5|] eqn:H5; [|discriminate]. cbn in H.
  apply (inj Some) in H. subst u'.
  apply lit_ci_suffix in H1 as (t1 & -> & _).
  apply spaces_suffix in H2 as (t2 & ->).
  apply content_attr_shape in H3 as (Hu & pre & q1 & q2 & -> & Hq1 & Hq2).
  split; [exact Hu|]. exists (t1 ++ t2 ++ pre), r3, q1, q2.
  split_and!; try done. by rewrite <- !app_assoc.
Qed.

(** The first two patterns on the tag as the documentation writes it. *)
Lemma og_name_first_tag (name u post : list N) :
  name = py "property" ∨ name = py "name" →
  http_url same_ci quote_char u →
  og_name_first name (og_tag name u ++ post) = Some u.
Proof.
  intros Hname Hu. unfold og_name_first, og_tag.
  change (py "<meta ") with (py "<meta" ++ [chr " "]). rewrite <- !app_assoc.
  rewrite (lit_ci_same _ _ _ (same_ci_refl_lower (py "<meta"))).
  cbn [mbind option_bind].
  assert (∃ c name', name = c :: name' ∧ isspace c = false) as (c & name' & -> & Hc)
    by (destruct Hname as [-> | ->]; by eexists _, _).
  cbn [app]. rewrite (spaces_one c _ Hc). cbn [mbind option_bind].
  unfold attr.
  change (c :: name' ++ ?r) with ((c :: name') ++ r).
  rewrite (lit_ci_same _ _ _ (same_ci_refl_lower (c :: name'))). cbn [mbind option_bind].
  rewrite (lit_ci_same _ _ _ (same_ci_refl_lower (py "="))). cbn [mbind option_bind].
  cbn [app quote]. change (quote_char dquote) with true. cbv iota.
  cbn [mbind option_bind].
  rewrite (lit_ci_same _ _ _ (same_ci_refl_lower (py "og:image"))). cbn [mbind option_bind].
  cbn [app quote]. change (quote_char dquote) with true. cbv iota.
  cbn [mbind option_bind].
  change (py " content=") with (chr " " :: chr "c" :: py "ontent=").
  cbn [app]. rewrite (spaces_one (chr "c") _ eq_refl). cbn [mbind option_bind].
  change (chr "c" :: py "ontent=" ++ ?r) with (py "content=" ++ r).
  change (py "content=" ++ dquote :: u ++ dquote :: post)
    with (py "content=" ++ [dquote] ++ u ++ [dquote] ++ post).
  rewrite (content_attr_url u post Hu). reflexivity.
Qed.

(** X9. A URL returned by [extract_og_image] starts with http:// or
    https:// in any letter case, is not empty after the scheme, holds no
    quote character and stands in the page between two quote characters. A
    page that holds the tag meta with property (or name) og:image followed by
    content, written as the docstring shows it, always yields a URL, and it
    yields the URL of that tag when the tag is written with property and no
    angle bracket opens before it. *)
Theorem og_image_is_quoted_http_url html :
  (∀ u, extract_og_image html = Some u →
     http_url same_ci quote_char u
     ∧ ∃ pre post q1 q2, html = pre ++ [q1] ++ u ++ [q2] ++ post
         ∧ quote_char q1 = true ∧ quote_char q2 = true)
  ∧ (∀ name pre post u,
       name = py "property" ∨ name = py "name" →
       http_url same_ci quote_char u →
       html = pre ++ og_tag name u ++ post →
       ∃ u', extract_og_image html = Some u'
         ∧ (name = py "property" → has_char (chr "<") pre = false → u' = u)).
Proof.
  split.
  - intros u (pattern & Hin & Hs)%og_loop_Some.
    apply search_Some in Hs as (pre & rest & -> & Hm).
    assert (http_url same_ci quote_char u
            ∧ ∃ pre' post q1 q2, rest = pre' ++ [q1] ++ u ++ [q2] ++ post
                ∧ quote_char q1 = true ∧ quote_char q2 = true)
      as (Hu & pre' & post & q1 & q2 & -> & Hq1 & Hq2).
    { unfold og_patterns in Hin.
      repeat (apply elem_of_cons in Hin as [->|Hin];
              [first [by apply og_name_first_shape in Hm
                     | by apply og_content_first_shape in Hm]|]).
      by apply elem_of_nil in Hin. }
    split; [exact Hu|]. exists (pre ++ pre'), post, q1, q2.
    split_and!; try done. by rewrite <- !app_assoc.
  - intros name pre post u Hname Hu ->.
    pose proof (og_name_first_tag name u post Hname Hu) as Htag.
    assert (is_Some (extract_og_image (pre ++ og_tag name u ++ post))) as [u' Hu'].
    { apply (og_loop_found _ _ (og_name_first name)).
      - unfold og_patterns. destruct Hname as [-> | ->]; [left | right; left].
      - by eapply search_found. }
    exists u'. split; [exact Hu'|]. intros -> Hpre.
    unfold extract_og_image, og_patterns in Hu'. cbn [og_loop] in Hu'.
    rewrite search_skip in Hu'.
    + destruct (og_tag _ u ++ post) eqn:E; cbn [search] in Hu';
        rewrite Htag in Hu'; congruence.
    + intros c r. destruct (decide (c = chr "<")) as [->|Hc].
      * right. by apply has_char_false.
      * left. unfold og_name_first.
        change (py "<meta") with (chr "<" :: py "meta"). cbn [lit_ci].
        replace (ci_char (chr "<") c) with false; [done|].
        symmetry. unfold ci_char, eqc. cbn. rewrite !orb_false_r.
        apply N.eqb_neq. congruence.
Qed.

End Images.

(** ** The search for the pagination trigger (services/crawler_service.py) *)

Section FindPagination.

Import crawler_service crawler_articles.

Variable count : list N → Res nat.
Variable all_count : list N → Res nat.

Local Abbreviation scan := (spec.scan count all_count).
Local Abbreviation probe_result := (spec.probe_result count all_count).
Local Abbreviation or_else := (@crawler_articles.or_else).

Lemma scan_app (l1 l2 : list probe) :
  scan (l1 ++ l2) = or_else (scan l1) (scan l2).
Proof.
  induction l1 as [|p l1 IH]; cbn [app spec.scan]; [done|].
  unfold or_else in *.
  destruct (probe_result p) as [[e|]|x]; cbn; [done| |done].
  apply IH.
Qed.

Lemma by_text_scan (texts : list (list N)) :
  by_text count texts
  = scan (texts ≫= λ text, [First (has_text (py "button") text);
                            First (has_text (py "a") text)]).
Proof.
  induction texts as [|text texts IH]; [done|].
  cbn [by_text mbind list_bind app spec.scan spec.probe_result].
  destruct (count (has_text (py "button") text)) as [[|n]|x]; cbn; [| done..].
  destruct (count (has_text (py "a") text)) as [[|m]|x]; cbn; done.
Qed.

Lemma by_selector_scan (selectors : list (list N)) :
  by_selector count selectors = scan (First <$> selectors).
Proof.
  induction selectors as [|sel selectors IH]; [done|].
  cbn [by_selector fmap list_fmap spec.scan spec.probe_result].
  destruct (count sel) as [[|n]|x]; cbn; done.
Qed.

Lemma by_number_scan : by_number count all_count = scan [Last page_numbers].
Proof.
  unfold by_number. cbn [spec.scan spec.probe_result].
  destruct (count page_numbers) as [[|n]|x]; cbn; [done| |done].
  by destruct (all_count page_numbers) as [[|m]|x].
Qed.

Lemma by_text_app (l1 l2 : list (list N)) :
  by_text count (l1 ++ l2) = or_else (by_text count l1) (by_text count l2).
Proof. rewrite !by_text_scan, bind_app. apply scan_app. Qed.

Lemma or_else_assoc (a b c : Res (option element)) :
  or_else (or_else a b) c = or_else a (or_else b c).
Proof. unfold or_else. by destruct a as [[e|]|x]. Qed.

Lemma find_scan (custom_buttons : list (list N)) :
  _find_pagination_element count all_count custom_buttons
  = scan (candidates custom_buttons).
Proof.
  unfold _find_pagination_element, candidates.
  rewrite !scan_app, <- by_text_scan, by_text_app, <- !by_selector_scan,
    <- by_number_scan.
  by rewrite or_else_assoc.
Qed.

(** What a scan returns, read off the answers of its probes. *)
Lemma scan_outcome (probes : list probe) (r : Res (option element)) :
  scan probes = r ↔
  (r = Ok None ∧ ∀ p, p ∈ probes → probe_result p = Ok None)
  ∨ (∃ i p, probes !! i = Some p ∧ probe_result p = r ∧ r ≠ Ok None
       ∧ ∀ j q, (j < i)%nat → probes !! j = Some q → probe_result q = Ok None).
Proof.
  revert r. induction probes as [|p probes IH]; intros r; cbn [spec.scan].
  - split.
    + intros <-. left. split; [done|]. by intros p ?%elem_of_nil.
    + intros [[-> _]|(i & p & Hi & _)]; [done|]. by rewrite lookup_nil in Hi.
  - destruct (probe_result p) as [[e|]|x] eqn:Hp; cbn.
    + split.
      * intros <-. right. exists 0%nat, p. split_and!; [done..|]. intros; lia.
      * intros [[-> Hall]|(i & q & Hi & Hq & Hne & Hlt)].
        { specialize (Hall p ltac:(left)). congruence. }
        destruct i as [|i]; [by simplify_eq/=|].
        specialize (Hlt 0%nat p ltac:(lia) eq_refl). congruence.
    + rewrite IH. split.
      * intros [[-> Hall]|(i & q & Hi & Hq & Hne & Hlt)].
        { left. split; [done|]. intros q [->|Hin]%elem_of_cons; auto. }
        right. exists (S i), q. split_and!; [done..|].
        intros [|j] q' Hj Hq'; [by simplify_eq/=|].
        apply (Hlt j); [lia|done].
      * intros [[-> Hall]|(i & q & Hi & Hq & Hne & Hlt)].
        { left. split; [done|]. intros q Hin. apply Hall. by right. }
        destruct i as [|i]; [simplify_eq/=; congruence|].
        right. exists i, q. split_and!; [done..|].
        intros j q' Hj Hq'. apply (Hlt (S j)); [lia|done].
    + split.
      * intros <-. right. exists 0%nat, p. split_and!; [done..|]. intros; lia.
      * intros [[-> Hall]|(i & q & Hi & Hq & Hne & Hlt)].
        { specialize (Hall p ltac:(left)). congruence. }
        destruct i as [|i]; [by simplify_eq/=|].
        specialize (Hlt 0%nat p ltac:(lia) eq_refl). congruence.
Qed.

(** X10. [_find_pagination_element] puts a fixed sequence of questions
    to the page and returns the answer of the first that has one: for each
    custom text and then for each of the eleven standard texts a button with
    the text and then a link with it; then an element whose aria-label holds
    a standard text; then the last of the numbered page links; then the eight
    class selectors. It returns None exactly when no question has an answer,
    and it raises what the first failing question raises when no earlier
    question has an answer. But for the numbered links, the element returned
    is the first match of a selector that has a match. *)
Theorem find_pagination_is_first_answering_probe (custom_buttons : list (list N)) :
  let result := _find_pagination_element count all_count custom_buttons in
  let probes := candidates custom_buttons in
  result = scan probes
  ∧ (result = Ok None ↔ ∀ p, p ∈ probes → probe_result p = Ok None)
  ∧ (∀ r, r ≠ Ok None → result = r ↔
       ∃ i p, probes !! i = Some p ∧ probe_result p = r
         ∧ ∀ j q, (j < i)%nat → probes !! j = Some q → probe_result q = Ok None)
  ∧ (∀ e, result = Ok (Some e) →
       ∃ selector index, e = Nth selector index
         ∧ ((First selector ∈ probes ∧ index = 0%nat
               ∧ ∃ n, count selector = Ok (S n))
            ∨ (selector = page_numbers
               ∧ ∃ n, count selector = Ok (S n)
                   ∧ all_count selector = Ok (S index)))).
Proof.
  intros result probes. subst result probes. rewrite find_scan.
  split; [done|]. split; [|split].
  - rewrite scan_outcome. split.
    + intros [[_ ?]|(i & p & _ & _ & ? & _)]; done.
    + intros Hall. by left.
  - intros r Hr. rewrite scan_outcome. split.
    + intros [[-> _]|(i & p & Hi & Hp & _ & Hlt)]; [done|]. by exists i, p.
    + intros (i & p & Hi & Hp & Hlt). right. by exists i, p.
  - intros e He. apply scan_outcome in He as [[? _]|(i & p & Hi & Hp & _ & _)]; [done|].
    assert (p ∈ candidates custom_buttons) as Hin by by eapply list_elem_of_lookup_2.
    destruct p as [sel|sel]; cbn in Hp.
    + destruct (count sel) as [[|n]|x] eqn:Hc; cbn in Hp; try done.
      injection Hp as <-. exists sel, 0%nat. split; [done|]. left. eauto.
    + assert (sel = page_numbers) as ->.
      { unfold candidates in Hin. rewrite !elem_of_app in Hin.
        destruct Hin as [Hin|[Hin|[Hin|Hin]]].
        - apply list_elem_of_bind in Hin as (t & Hin & _).
          apply elem_of_cons in Hin as [?|Hin]; [done|].
          apply elem_of_cons in Hin as [?|Hin]; [done|]. by apply elem_of_nil in Hin.
        - by apply list_elem_of_fmap in Hin as (? & ? & _).
        - apply list_elem_of_singleton in Hin. by injection Hin.
        - by apply list_elem_of_fmap in Hin as (? & ? & _). }
      destruct (count page_numbers) as [[|n]|x] eqn:Hc; cbn in Hp; try done.
      destruct (all_count page_numbers) as [[|m]|x] eqn:Ha; cbn in Hp; try done.
      injection Hp as <-. exists page_numbers, (S m - 1)%nat. split; [done|]. right.
      split; [done|]. exists n. split; [done|]. rewrite Ha. do 2 f_equal. lia.
Qed.

End FindPagination.

(** ** The links and the articles of one source (services/crawler_service.py) *)

Section Sources.

Import crawler_service crawler_articles mistral_service.

Variable netloc_extra_check : list N → option exn.
Variable unquote_percent : list N → list N.
Variable pattern : Type.
Variable re_match : pattern → list N → bool.
Variable render : nat → list N → Res (list N).
Variable page_goto : list N → Res ().
Variable click_next : nat → list (list N) → Res (option (list N)).
Variable lower : list N → list N.
Variable arun : nat → list N → Res (list N * list N).

Implicit Types (html base_url bd u t param : list N) (pat : pattern) (w : World).
Implicit Types (links all new : list (list N)) (seen : gset (list N)).
Implicit Types (pages : list Z) (needed limit : Z).

Local Abbreviation netloc' := (netloc_of netloc_extra_check).
Local Abbreviation extract := (extract_article_links netloc_extra_check pattern re_match).
Local Abbreviation build := (_build_paginated_url netloc_extra_check unquote_percent).
Local Abbreviation by_url :=
  (_paginate_by_url netloc_extra_check unquote_percent pattern re_match render).
Local Abbreviation by_click :=
  (_paginate_inner netloc_extra_check pattern re_match page_goto click_next).
Local Abbreviation click_loop :=
  (interactive_loop netloc_extra_check pattern re_match click_next).
Local Abbreviation fetch_links :=
  (spec.fetch_links netloc_extra_check pattern re_match render).
Local Abbreviation paging :=
  (spec.paging netloc_extra_check unquote_percent pattern re_match render).
Local Abbreviation same_site_article :=
  (spec.same_site_article netloc_extra_check pattern re_match).

(** The run of [_paginate_by_url] as a run of the state machine. *)
Lemma by_url_paging base_url needed already_found pat param max_pages w :
  ∃ res w',
    by_url base_url needed already_found pat param max_pages w = (res, w')
    ∧ paging base_url needed pat param (range 2 (max_pages + 2)) already_found w res w'.
Proof.
  unfold _paginate_by_url.
  apply (paginate_loop_paging netloc_extra_check unquote_percent pattern re_match
           render (λ _, Ok ())).
  intros u. apply elem_of_list_to_set.
Qed.

(** The links the URL pagination returns beyond those found before were
    extracted from a page, for the domain of the base URL. *)
Lemma paging_new_site base_url needed pat param pages all w links w' :
  paging base_url needed pat param pages all w (Ok links) w' →
  ∀ l, l ∈ links →
    l ∈ all ∨ ∃ bd, netloc' base_url = Ok bd ∧ same_site_article bd pat l.
Proof.
  remember (Ok links) as res eqn:Hres. intros Hp. revert links Hres.
  induction Hp as [all w|page rest all w Hn|page rest all w e Hn Hb
                  |page rest all w u e Hn Hb Hf|page rest all w u new Hn Hb Hf Hnew
                  |page rest all w u new res w' Hn Hb Hf Hnew Hp IH];
    intros links Hres l Hl; try (injection Hres as <-; by left); [done|].
  destruct (IH links Hres l Hl) as [[?|Hfresh]%elem_of_app|?]; [by left| |by right].
  right. apply list_elem_of_filter in Hfresh as [_ Hin].
  revert Hf. unfold spec.fetch_links.
  destruct (render _ u) as [html|e]; cbn; [|done]. intros He.
  destruct (extract_collected _ _ _ _ _ _ _ He) as (bd & seen & Hbd & _ & _ & Hsite).
  exists bd. split; [done|]. by apply Hsite.
Qed.

Lemma paging_nodup base_url needed pat param pages all w links w' :
  paging base_url needed pat param pages all w (Ok links) w' →
  NoDup all → NoDup links.
Proof.
  remember (Ok links) as res eqn:Hres. intros Hp. revert links Hres.
  induction Hp as [all w|page rest all w Hn|page rest all w e Hn Hb
                  |page rest all w u e Hn Hb Hf|page rest all w u new Hn Hb Hf Hnew
                  |page rest all w u new res w' Hn Hb Hf Hnew Hp IH];
    intros links Hres Hall; try (by injection Hres as <-); [done|].
  apply (IH links Hres). apply NoDup_app. split; [done|]. split.
  - intros l Hl [Hnotin _]%list_elem_of_filter. done.
  - apply NoDup_filter.
    by destruct (fetch_links_nodup _ _ _ _ _ _ _ _ _ Hf) as [? _].
Qed.

(** X11. The links returned by [_paginate_by_url] hold no link twice
    when the links found before hold none, and every link that was not found
    before has the network location of the base URL and matches the article
    pattern. When the links found before already reach the needed count they
    are returned as they are and no page is requested. The pagination calls
    no model and does not sleep. *)
Theorem url_pagination_adds_distinct_site_articles
    base_url needed already_found pat param max_pages w links w' :
  by_url base_url needed already_found pat param max_pages w = (Ok links, w') →
  (NoDup already_found → NoDup links)
  ∧ (∀ l, l ∈ links →
       l ∈ already_found
       ∨ ∃ bd, netloc' base_url = Ok bd ∧ same_site_article bd pat l)
  ∧ (needed ≤ Z.of_nat (length already_found) → links = already_found ∧ w' = w)
  ∧ llm_calls w' = llm_calls w ∧ sleeps w' = sleeps w.
Proof.
  intros E.
  destruct (by_url_paging base_url needed already_found pat param max_pages w)
    as (res & w2 & E' & Hp).
  rewrite E in E'. injection E' as <- <-.
  split_and!.
  - by eapply paging_nodup.
  - by eapply paging_new_site.
  - intros Hn. inversion Hp; subst; try done; lia.
  - by destruct (paging_trace _ _ _ _ _ _ _ _ _ _ _ _ _ _ Hp) as (_ & _ & _ & _ & _ & ? & _).
  - by destruct (paging_trace _ _ _ _ _ _ _ _ _ _ _ _ _ _ Hp) as (_ & _ & _ & _ & _ & _ & ? & _).
Qed.

(** The loop of the interactive pagination keeps the links it starts from
    and adds only links that pass the two filters. *)
Lemma interactive_loop_site needed bd pat buttons attempts : ∀ (acc res : gset (list N)),
  click_loop needed bd pat buttons attempts acc = Ok res →
  acc ⊆ res ∧ ∀ u, u ∈ res → u ∈ acc ∨ same_site_article bd pat u.
Proof.
  induction attempts as [|attempt rest IH]; intros acc res; cbn [interactive_loop].
  - intros [= <-]. split; [done|]. by left.
  - destruct (_ >=? needed); [intros [= <-]; split; [done | by left]|].
    destruct (click_next (Z.to_nat attempt) buttons) as [[html|]|e]; cbn; [| |done].
    + destruct (_extract_links_from_html _ _ _ html bd pat) as [new|e] eqn:Hn; cbn; [|done].
      intros Hl. destruct (IH _ _ Hl) as [Hsub Hsite]. split.
      * intros u Hu. apply Hsub. apply elem_of_union. by left.
      * intros u Hu. destruct (Hsite u Hu) as [[?|Hnew]%elem_of_union|?];
          [by left| |by right].
        apply (links_loop_spec netloc_extra_check (λ s, s) pattern re_match
                 (λ _, Ok ()) _ _ _ _ _ Hn)
          in Hnew as [[]%not_elem_of_empty|(m & _ & _ & ?)].
        by right.
    + intros [= <-]. split; [done | by left].
Qed.

(** What [_paginate_inner] returns: distinct links, those found before
    among them, the others passing the two filters. *)
Lemma by_click_links url0 needed already_found base_url pat buttons links :
  by_click url0 needed already_found base_url pat buttons = Ok links →
  NoDup links
  ∧ (∀ u, u ∈ already_found → u ∈ links)
  ∧ (∃ bd, netloc' base_url = Ok bd
       ∧ ∀ u, u ∈ links → u ∈ already_found ∨ same_site_article bd pat u).
Proof.
  unfold _paginate_inner. destruct (netloc' base_url) as [bd|e]; cbn; [|done].
  destruct (page_goto url0) as [[]|e] eqn:Hgoto.
  - destruct (click_loop needed bd pat buttons (range 0 10) _) as [res|e] eqn:Hl; cbn; [|done].
    intros [= <-]. destruct (interactive_loop_site _ _ _ _ _ _ _ Hl) as [Hsub Hsite].
    split_and!.
    + apply NoDup_elements.
    + intros u Hu. apply elem_of_elements, Hsub. by apply elem_of_list_to_set.
    + exists bd. split; [done|]. intros u Hu%elem_of_elements.
      destruct (Hsite u Hu) as [Hin|?]; [left|by right].
      by apply elem_of_list_to_set in Hin.
  - intros [= <-]. split_and!.
    + apply NoDup_elements.
    + intros u Hu. by apply elem_of_elements, elem_of_list_to_set.
    + exists bd. split; [done|]. intros u Hu. left.
      by apply elem_of_elements, elem_of_list_to_set in Hu.
Qed.

(** X12. The list returned by [_paginate_inner] holds no link twice and
    holds every link found before; every other link has the network location
    of the base URL and matches the article pattern. When the page cannot be
    loaded, when the links found before already reach the needed count, or
    when no trigger is found at the first attempt, it holds exactly the links
    found before. *)
Theorem interactive_pagination_returns_distinct_superset
    url0 needed already_found base_url pat buttons links :
  by_click url0 needed already_found base_url pat buttons = Ok links →
  NoDup links
  ∧ (∀ u, u ∈ already_found → u ∈ links)
  ∧ (∃ bd, netloc' base_url = Ok bd
       ∧ ∀ u, u ∈ links → u ∈ already_found ∨ same_site_article bd pat u)
  ∧ ((∃ e, page_goto url0 = Raise e)
     ∨ needed ≤ Z.of_nat (size (list_to_set already_found : gset (list N)))
     ∨ click_next 0 buttons = Ok None →
     ∀ u, u ∈ links ↔ u ∈ already_found).
Proof.
  intros E. destruct (by_click_links _ _ _ _ _ _ _ E) as (Hnd & Hsub & Hsite).
  split_and!; [done..|].
  revert E. unfold _paginate_inner. destruct (netloc' base_url) as [bd|e]; cbn; [|done].
  destruct (page_goto url0) as [[]|e] eqn:Hgoto.
  - destruct (click_loop needed bd pat buttons (range 0 10) _) as [res|e] eqn:Hl; cbn; [|done].
    intros [= <-] Hstop u. rewrite elem_of_elements.
    change (range 0 10) with (0 :: range 1 10) in Hl. cbn [interactive_loop] in Hl.
    destruct Hstop as [[e ?]|[Hn|Hc]]; [done| |].
    + destruct (Z.geb_spec (Z.of_nat (size (list_to_set already_found : gset (list N))))
                  needed) as [_|?]; [|lia].
      injection Hl as <-. apply elem_of_list_to_set.
    + destruct (_ >=? needed); [injection Hl as <-; apply elem_of_list_to_set|].
      change (Z.to_nat 0) with 0%nat in Hl. rewrite Hc in Hl. cbn in Hl.
      injection Hl as <-. apply elem_of_list_to_set.
  - intros [= <-] _ u. by rewrite elem_of_elements, elem_of_list_to_set.
Qed.

Local Abbreviation loop_articles := (articles_loop lower arun).
Local Abbreviation collect :=
  (collect_articles_from_source netloc_extra_check unquote_percent pattern re_match
     render page_goto click_next lower arun).
Local Abbreviation kept_article := (spec.kept_article lower arun).
Local Abbreviation kept_articles := (spec.kept_articles lower arun).

Lemma kept_articles_cons sname (n : nat) u links :
  kept_articles sname n (u :: links)
  = match kept_article sname n u with Some a => [a] | None => [] end
    ++ kept_articles sname (S n) links.
Proof.
  unfold spec.kept_articles. cbn [imap omap list_omap]. rewrite Nat.add_0_r.
  rewrite (imap_ext _ (λ i v, kept_article sname (S n + i) v) links).
  2:{ intros i v _. cbn. f_equal. lia. }
  by destruct (kept_article sname n u).
Qed.

Lemma kept_article_Some sname (n : nat) u a :
  kept_article sname n u = Some a →
  mistral_service.url a = u ∧ mistral_service.source_name a = sname
  ∧ (100 ≤ length (strip (raw_text a)))%nat
  ∧ ∃ html, arun n u = Ok (raw_text a, html)
      ∧ image_url a = article_image lower (raw_text a) html.
Proof.
  unfold spec.kept_article. destruct (arun n u) as [[markdown html]|e]; [|done].
  destruct (Nat.ltb_spec (length (strip markdown)) 100); [done|].
  intros [= <-]. cbn. split_and!; [done..|]. by exists html.
Qed.

(** The loop over the links of [collect_articles_from_source] never raises:
    it requests each link once, in order, and keeps the articles. *)
Lemma articles_loop_run sname links : ∀ result w,
  loop_articles sname links result w
  = (Ok (result ++ kept_articles sname (length (requests w)) links),
     mkWorld (requests w ++ links) (llm_calls w) (sleeps w)).
Proof.
  induction links as [|u links IH]; intros result w.
  - cbn. rewrite !app_nil_r. by destruct w.
  - cbn [articles_loop]. rewrite kept_articles_cons.
    unfold mbind at 1, M_bind, try, parse_article, spec.kept_article.
    destruct (arun (length (requests w)) u) as [[markdown html]|e]; cbn.
    + destruct (_ <=? _)%nat; rewrite IH; cbn;
        rewrite ?length_app, ?Nat.add_1_r, <- ?app_assoc; done.
    + rewrite IH; cbn. rewrite ?length_app, ?Nat.add_1_r, <- ?app_assoc; done.
Qed.

Lemma kept_articles_urls sname links : ∀ n : nat,
  mistral_service.url <$> kept_articles sname n links `sublist_of` links.
Proof.
  induction links as [|u links IH]; intros n; [done|].
  rewrite kept_articles_cons.
  destruct (kept_article sname n u) as [a|] eqn:Ha; cbn.
  - apply kept_article_Some in Ha as (-> & _). by apply sublist_skip.
  - by apply sublist_cons.
Qed.

Lemma kept_articles_each sname links : ∀ (n : nat) a,
  a ∈ kept_articles sname n links →
  mistral_service.source_name a = sname
  ∧ (100 ≤ length (strip (raw_text a)))%nat
  ∧ ∃ (i : nat) html, links !! i = Some (mistral_service.url a)
      ∧ arun (n + i) (mistral_service.url a) = Ok (raw_text a, html)
      ∧ image_url a = article_image lower (raw_text a) html.
Proof.
  induction links as [|u links IH]; intros n a; [by intros ?%elem_of_nil|].
  rewrite kept_articles_cons. intros [Hin|Hin]%elem_of_app.
  - destruct (kept_article sname n u) as [a'|] eqn:Ha; [|by apply elem_of_nil in Hin].
    apply list_elem_of_singleton in Hin as ->.
    apply kept_article_Some in Ha as (<- & ? & ? & html & ? & ?).
    split_and!; [done..|]. exists 0%nat, html. by rewrite Nat.add_0_r.
  - destruct (IH _ _ Hin) as (? & ? & i & html & ? & Hr & ?).
    split_and!; [done..|]. exists (S i), html. split_and!; [done| |done].
    by replace (n + S i)%nat with (S n + i)%nat by lia.
Qed.

(** The stages of [collect_articles_from_source]: the category page and its
    links; the pagination, with the pages it requests; the articles of the
    links that are left after the cut. *)
Lemma collect_stages sname category_url limit pat buttons pt pp w :
  ∃ r w',
    collect sname category_url limit pat buttons pt pp w = (r, w')
    ∧ ((∃ e, r = Raise e ∧ w' = requested w category_url
          ∧ (render (length (requests w)) category_url = Raise e
             ∨ ∃ html, render (length (requests w)) category_url = Ok html
                 ∧ extract html category_url pat = Raise e))
       ∨ (∃ html links0 bd rp w2 urls,
            render (length (requests w)) category_url = Ok html
            ∧ extract html category_url pat = Ok links0
            ∧ netloc' category_url = Ok bd
            ∧ requests w2 = requests w ++ category_url :: urls
            ∧ (length urls ≤ 10)%nat
            ∧ llm_calls w2 = llm_calls w ∧ sleeps w2 = sleeps w
            ∧ (limit ≤ Z.of_nat (length links0) → rp = Ok links0 ∧ urls = [])
            ∧ match rp with
              | Raise e =>
                  r = Raise e ∧ w' = w2 ∧ Z.of_nat (length links0) < limit
                  ∧ ((pt = Some (py "url")
                      ∧ ∃ page, page ∈ range 2 12
                          ∧ build category_url (default [] pp) page = Raise e)
                     ∨ (pt = Some (py "button")
                        ∧ by_click category_url limit links0 category_url pat buttons
                          = Raise e))
              | Ok links =>
                  NoDup links
                  ∧ (∀ u, u ∈ links → same_site_article bd pat u)
                  ∧ r = Ok (kept_articles sname (length (requests w2)) (slice_to limit links))
                  ∧ w' = mkWorld (requests w2 ++ slice_to limit links)
                           (llm_calls w2) (sleeps w2)
              end)).
Proof.
  unfold collect_articles_from_source.
  unfold mbind at 1, M_bind, crawl_category_page.
  destruct (render (length (requests w)) category_url) as [html|e] eqn:Hr.
  2:{ eexists _, _. split; [done|]. left. exists e. split_and!; [done..|]. by left. }
  unfold mbind at 1, M_bind, lift.
  destruct (extract html category_url pat) as [links0|e] eqn:He.
  2:{ eexists _, _. split; [done|]. left. exists e. split_and!; [done..|]. right.
      by exists html. }
  destruct (extract_collected _ _ _ _ _ _ _ He) as (bd & seen & Hbd & Hnd0 & _ & Hsite0).
  set (w1 := mkWorld (requests w ++ [category_url]) (llm_calls w) (sleeps w)).
  assert (∀ links, ∃ r w',
    articles_loop lower arun sname (slice_to limit links) [] w1 = (r, w')
    ∧ r = Ok (kept_articles sname (length (requests w1)) (slice_to limit links))
    ∧ w' = mkWorld (requests w1 ++ slice_to limit links) (llm_calls w1) (sleeps w1))
    as Hloop.
  { intros links. eexists _, _. split; [apply articles_loop_run|]. done. }
  unfold mbind at 1, M_bind.
  destruct (Z.ltb_spec (Z.of_nat (length links0)) limit) as [Hlt|Hge].
  2:{ cbn [mret M_ret]. rewrite articles_loop_run. eexists _, _. split; [done|]. right.
      exists html, links0, bd, (Ok links0), w1, [].
      split_and!; try done. cbn; lia. }
  destruct (bool_decide (pt = Some (py "url")) && given pp) eqn:Hurl.
  - apply andb_true_iff in Hurl as [Hpt%bool_decide_eq_true _].
    destruct (by_url_paging category_url limit links0 pat (default [] pp) 10 w1)
      as (rp & w2 & -> & Hp).
    change (range 2 (10 + 2)) with (range 2 12) in Hp.
    destruct (paging_trace _ _ _ _ _ _ _ _ _ _ _ _ _ _ Hp)
      as (k & urls & Hk & Hreq & Hpages & Hllm & Hsl & _).
    change (length (range 2 12)) with 10%nat in Hk.
    assert (length urls ≤ 10)%nat as Hlen.
    { apply Forall2_length in Hpages. rewrite length_take in Hpages. lia. }
    destruct rp as [links|e].
    + rewrite articles_loop_run. eexists _, _. split; [done|]. right.
      exists html, links0, bd, (Ok links), w2, urls.
      split_and!; try done.
      * rewrite Hreq. cbn. by rewrite <- app_assoc.
      * lia.
      * by eapply paging_nodup.
      * intros u Hu.
        destruct (paging_new_site _ _ _ _ _ _ _ _ _ Hp u Hu) as [?|(bd' & Hbd' & ?)];
          [by apply Hsite0|].
        by assert (bd' = bd) as <- by congruence.
    + eexists _, _. split; [done|]. right.
      exists html, links0, bd, (Raise e), w2, urls.
      split_and!; try done.
      * rewrite Hreq. cbn. by rewrite <- app_assoc.
      * lia.
      * left. split; [done|]. by apply paging_raises in Hp.
  - destruct (bool_decide (pt = Some (py "button")) && negb (bool_decide (buttons = [])))
      eqn:Hbutton.
    + apply andb_true_iff in Hbutton as [Hpt%bool_decide_eq_true _].
      unfold lift.
      destruct (by_click category_url limit links0 category_url pat buttons)
        as [links|e] eqn:Hc.
      * rewrite articles_loop_run. eexists _, _. split; [done|]. right.
        exists html, links0, bd, (Ok links), w1, [].
        destruct (by_click_links _ _ _ _ _ _ _ Hc) as (Hnd & _ & bd' & Hbd' & Hsite).
        assert (bd' = bd) as -> by congruence.
        split_and!; try done; try (cbn; lia).
        intros u Hu. destruct (Hsite u Hu); [by apply Hsite0 | done].
      * eexists _, _. split; [done|]. right.
        exists html, links0, bd, (Raise e), w1, [].
        split_and!; try done; try (cbn; lia). by right.
    + cbn [mret M_ret]. rewrite articles_loop_run. eexists _, _. split; [done|]. right.
      exists html, links0, bd, (Ok links0), w1, [].
      split_and!; try done. cbn; lia.
Qed.

Lemma slice_to_sublist {A} limit (l : list A) : slice_to limit l `sublist_of` l.
Proof. unfold slice_to. destruct (0 <=? limit); apply sublist_take. Qed.

Lemma slice_to_length {A} limit (l : list A) :
  0 ≤ limit → (length (slice_to limit l) ≤ Z.to_nat limit)%nat.
Proof. intros H. rewrite slice_to_nonneg by done. rewrite length_take. lia. Qed.

(** X13. [collect_articles_from_source] returns at most [limit] articles
    (for a limit that is not negative). Each of them carries the name of the
    source, the text that the renderer returned for its URL, of at least 100
    characters once stripped, and the image chosen from that page; no two of
    them have the same URL, and every URL has the network location of the
    category URL and matches the article pattern. *)
Theorem collected_articles_within_limit
    sname category_url limit pat buttons pt pp w arts w' :
  collect sname category_url limit pat buttons pt pp w = (Ok arts, w') →
  (0 ≤ limit → Z.of_nat (length arts) ≤ limit)
  ∧ (∀ a, a ∈ arts →
       mistral_service.source_name a = sname
       ∧ (100 ≤ length (strip (raw_text a)))%nat
       ∧ ∃ (n : nat) html,
           arun n (mistral_service.url a) = Ok (raw_text a, html)
           ∧ image_url a = article_image lower (raw_text a) html)
  ∧ NoDup (mistral_service.url <$> arts)
  ∧ ∃ bd, netloc' category_url = Ok bd
      ∧ ∀ a, a ∈ arts → same_site_article bd pat (mistral_service.url a).
Proof.
  intros E.
  destruct (collect_stages sname category_url limit pat buttons pt pp w)
    as (r & w2' & E' & Hcase).
  rewrite E in E'. injection E' as <- <-.
  destruct Hcase as [(e & ? & _)|(html & links0 & bd & rp & w2 & urls & _ & _ & Hbd
                                   & _ & _ & _ & _ & _ & Hrp)]; [done|].
  destruct rp as [links|e]; [|by destruct Hrp].
  destruct Hrp as (Hnd & Hsite & [= ->] & _).
  pose proof (kept_articles_urls sname (slice_to limit links) (length (requests w2)))
    as Hsub.
  split_and!.
  - intros Hlimit. apply sublist_length in Hsub. rewrite length_fmap in Hsub.
    pose proof (slice_to_length limit links Hlimit). lia.
  - intros a Ha. apply kept_articles_each in Ha as (? & ? & i & html' & _ & ? & ?).
    split_and!; [done..|]. by exists (length (requests w2) + i)%nat, html'.
  - eapply sublist_NoDup; [|exact Hsub].
    eapply sublist_NoDup; [done | apply slice_to_sublist].
  - exists bd. split; [done|]. intros a Ha. apply Hsite.
    eapply elem_of_sublist; [|apply slice_to_sublist].
    eapply elem_of_sublist; [|exact Hsub]. by apply list_elem_of_fmap_2.
Qed.


(** X15. When the category page yields at least [limit] links,
    [collect_articles_from_source] does not paginate, whatever the pagination
    settings of the source: it requests the category page and then the first
    [limit] links, and returns the articles kept of these links. *)
Theorem collect_enough_on_first_page
    sname category_url limit pat buttons pt pp w html links :
  render (length (requests w)) category_url = Ok html →
  extract html category_url pat = Ok links →
  limit ≤ Z.of_nat (length links) →
  collect sname category_url limit pat buttons pt pp w
  = (Ok (kept_articles sname (S (length (requests w))) (slice_to limit links)),
     mkWorld (requests w ++ category_url :: slice_to limit links)
       (llm_calls w) (sleeps w)).
Proof.
  intros Hr He Hlimit.
  destruct (collect_stages sname category_url limit pat buttons pt pp w)
    as (r & w' & -> & Hcase).
  destruct Hcase as [(e & _ & _ & [?|(html' & ? & ?)])
                    |(html' & links0 & bd & rp & w2 & urls & Hr' & He' & _
                      & Hreq & _ & Hllm & Hsl & Henough & Hrp)]; [congruence..|].
  assert (html' = html) as -> by congruence.
  assert (links0 = links) as -> by congruence.
  destruct (Henough Hlimit) as [-> ->]. destruct Hrp as (_ & _ & -> & ->).
  rewrite Hreq, Hllm, Hsl, length_app, <- app_assoc. cbn. by rewrite Nat.add_1_r.
Qed.

End Sources.

(** The URL pagination of zamon.uz from an empty list: the two links of
    the page, each once. *)
Lemma url_pagination_witness :
  (NoDup (@nil (list N)) →
   NoDup [py "https://zamon.uz/detail/birinchi"; py "https://zamon.uz/detail/ikkinchi"])
  ∧ (∀ l, l ∈ [py "https://zamon.uz/detail/birinchi"; py "https://zamon.uz/detail/ikkinchi"] →
       l ∈ @nil (list N)
       ∨ ∃ bd, crawler_service.netloc_of Examples.no_extra_check Examples.zamon_sport = Ok bd
           ∧ same_site_article Examples.no_extra_check Examples.regex Examples.re_match
               bd Examples.zamon_pattern l)
  ∧ (5 ≤ Z.of_nat (length (@nil (list N))) →
       [py "https://zamon.uz/detail/birinchi"; py "https://zamon.uz/detail/ikkinchi"] = []
       ∧ mkWorld [py "https://zamon.uz/categories/sport?page=2";
                  py "https://zamon.uz/categories/sport?page=3"] [] []
         = Examples.world0)
  ∧ llm_calls (mkWorld [py "https://zamon.uz/categories/sport?page=2";
                        py "https://zamon.uz/categories/sport?page=3"] [] [])
    = llm_calls Examples.world0
  ∧ sleeps (mkWorld [py "https://zamon.uz/categories/sport?page=2";
                     py "https://zamon.uz/categories/sport?page=3"] [] [])
    = sleeps Examples.world0.
Proof.
  apply (url_pagination_adds_distinct_site_articles
           Examples.no_extra_check Examples.no_percent Examples.regex Examples.re_match
           (Examples.shows Examples.listing_page)
           Examples.zamon_sport 5 [] Examples.zamon_pattern (py "page") 10 Examples.world0).
  by_evaluation.
Defined.

(** The interactive pagination of zamon.uz from one link: the page shown
    after the click adds the links of its hyperlink tags, with their
    queries. *)
Lemma interactive_pagination_witness :
  NoDup (elements ({[ py "https://zamon.uz/detail/ikkinchi" ]}
                   ∪ ({[ py "https://zamon.uz/detail/birinchi?from=list" ]}
                      ∪ {[ py "https://zamon.uz/detail/birinchi" ]}) : gset (list N)))
  ∧ (∀ u, u ∈ [py "https://zamon.uz/detail/ikkinchi"] →
       u ∈ elements ({[ py "https://zamon.uz/detail/ikkinchi" ]}
                     ∪ ({[ py "https://zamon.uz/detail/birinchi?from=list" ]}
                        ∪ {[ py "https://zamon.uz/detail/birinchi" ]}) : gset (list N)))
  ∧ (∃ bd, crawler_service.netloc_of Examples.no_extra_check Examples.zamon_sport = Ok bd
       ∧ ∀ u, u ∈ elements ({[ py "https://zamon.uz/detail/ikkinchi" ]}
                            ∪ ({[ py "https://zamon.uz/detail/birinchi?from=list" ]}
                               ∪ {[ py "https://zamon.uz/detail/birinchi" ]})
                            : gset (list N)) →
           u ∈ [py "https://zamon.uz/detail/ikkinchi"]
           ∨ same_site_article Examples.no_extra_check Examples.regex Examples.re_match
               bd Examples.zamon_pattern u)
  ∧ ((∃ e, (λ _ : list N, Ok ()) Examples.zamon_sport = Raise e)
     ∨ 5 ≤ Z.of_nat (size (list_to_set [py "https://zamon.uz/detail/ikkinchi"]
                           : gset (list N)))
     ∨ Examples.clicks Examples.listing_page 0 [py "Ko'proq"] = Ok None →
     ∀ u, u ∈ elements ({[ py "https://zamon.uz/detail/ikkinchi" ]}
                        ∪ ({[ py "https://zamon.uz/detail/birinchi?from=list" ]}
                           ∪ {[ py "https://zamon.uz/detail/birinchi" ]}) : gset (list N))
          ↔ u ∈ [py "https://zamon.uz/detail/ikkinchi"]).
Proof.
  apply (interactive_pagination_returns_distinct_superset
           Examples.no_extra_check Examples.regex Examples.re_match
           (λ _, Ok ()) (Examples.clicks Examples.listing_page)
           Examples.zamon_sport 5 [py "https://zamon.uz/detail/ikkinchi"]
           Examples.zamon_sport Examples.zamon_pattern [py "Ko'proq"]).
  by_evaluation.
Defined.

(** A run on zamon.uz for five articles: the listing has two links, the
    second page brings nothing new, and both articles are kept. *)
Lemma collected_articles_witness :
  (0 ≤ 5 → Z.of_nat (length Examples.zamon_articles) ≤ 5)
  ∧ (∀ a, a ∈ Examples.zamon_articles →
       mistral_service.source_name a = py "zamon.uz"
       ∧ (100 ≤ length (strip (mistral_service.raw_text a)))%nat
       ∧ ∃ (n : nat) html,
           Examples.renders Examples.article_text Examples.article_page n
             (mistral_service.url a)
           = Ok (mistral_service.raw_text a, html)
           ∧ mistral_service.image_url a
             = crawler_articles.article_image ascii_lower
                 (mistral_service.raw_text a) html)
  ∧ NoDup (mistral_service.url <$> Examples.zamon_articles)
  ∧ ∃ bd, crawler_service.netloc_of Examples.no_extra_check Examples.zamon_sport = Ok bd
      ∧ ∀ a, a ∈ Examples.zamon_articles →
          same_site_article Examples.no_extra_check Examples.regex Examples.re_match
            bd Examples.zamon_pattern (mistral_service.url a).
Proof.
  apply (collected_articles_within_limit
           Examples.no_extra_check Examples.no_percent Examples.regex Examples.re_match
           (Examples.shows Examples.listing_page) (λ _, Ok ()) (λ _ _, Ok None)
           ascii_lower (Examples.renders Examples.article_text Examples.article_page)
           (py "zamon.uz") Examples.zamon_sport 5 Examples.zamon_pattern []
           (Some (py "url")) (Some (py "page")) Examples.world0
           Examples.zamon_articles
           (mkWorld [Examples.zamon_sport;
                     py "https://zamon.uz/categories/sport?page=2";
                     py "https://zamon.uz/detail/birinchi";
                     py "https://zamon.uz/detail/ikkinchi"] [] [])).
  by_evaluation.
Defined.

(** The same source asked for two articles: the listing suffices, and no
    page but the listing and the two articles is requested. *)
Lemma collect_enough_on_first_page_witness :
  crawler_articles.collect_articles_from_source
    Examples.no_extra_check Examples.no_percent Examples.regex Examples.re_match
    (Examples.shows Examples.listing_page) (λ _, Ok ()) (λ _ _, Ok None)
    ascii_lower (Examples.renders Examples.article_text Examples.article_page)
    (py "zamon.uz") Examples.zamon_sport 2 Examples.zamon_pattern []
    (Some (py "url")) (Some (py "page")) Examples.world0
  = (Ok (kept_articles ascii_lower
           (Examples.renders Examples.article_text Examples.article_page)
           (py "zamon.uz") (S (length (requests Examples.world0)))
           (slice_to 2 [py "https://zamon.uz/detail/birinchi";
                        py "https://zamon.uz/detail/ikkinchi"])),
     mkWorld (requests Examples.world0
              ++ Examples.zamon_sport
                 :: slice_to 2 [py "https://zamon.uz/detail/birinchi";
                                py "https://zamon.uz/detail/ikkinchi"])
       (llm_calls Examples.world0) (sleeps Examples.world0)).
Proof.
  apply (collect_enough_on_first_page
           Examples.no_extra_check Examples.no_percent Examples.regex Examples.re_match
           (Examples.shows Examples.listing_page) (λ _, Ok ()) (λ _ _, Ok None)
           ascii_lower (Examples.renders Examples.article_text Examples.article_page)
           (py "zamon.uz") Examples.zamon_sport 2 Examples.zamon_pattern []
           (Some (py "url")) (Some (py "page")) Examples.world0 Examples.listing_page).
  - reflexivity.
  - by_evaluation.
  - cbn. lia.
Defined.

(** ** The request handler (routers/news.py, core/categories.py) *)

Section Handler.

Import categories news.

Implicit Types (a : gmap (list N) pyval) (articles : list (gmap (list N) pyval)).
Implicit Types (category : list N) (sources : list (list N * list N)).

Lemma limit_per_source_at_least_5 (limit : Z) (n : nat) : 5 ≤ limit_per_source limit n.
Proof. unfold limit_per_source. lia. Qed.

Lemma limit_per_source_covers (limit : Z) (n : nat) :
  (1 ≤ n)%nat → limit ≤ Z.of_nat n * limit_per_source limit n.
Proof.
  intros Hn. unfold limit_per_source.
  pose proof (Z.mul_div_le (limit * 2) (Z.of_nat n) ltac:(lia)) as Hle.
  pose proof (Z.mod_pos_bound (limit * 2) (Z.of_nat n) ltac:(lia)) as Hmod.
  pose proof (Z.div_mod (limit * 2) (Z.of_nat n) ltac:(lia)) as Hdiv.
  destruct (Z.max_spec 5 (limit * 2 / Z.of_nat n)) as [[Hlt ->]|[Hge ->]]; nia.
Qed.

Lemma limit_per_source_at_most (limit : Z) (n : nat) :
  (1 ≤ n)%nat → 0 ≤ limit → limit_per_source limit n ≤ Z.max 5 (2 * limit).
Proof.
  intros Hn Hl. unfold limit_per_source.
  assert (limit * 2 / Z.of_nat n ≤ limit * 2).
  { apply Z.div_le_upper_bound; nia. }
  lia.
Qed.

Lemma total_limit_replicate (tasks : list task) (q : Z) :
  Forall (λ t, limit t = q) tasks → total_limit tasks = Z.of_nat (length tasks) * q.
Proof.
  unfold total_limit. induction 1 as [|t tasks Ht _ IH]; [done|].
  cbn [fmap list_fmap foldr length]. rewrite IH, Ht. lia.
Qed.

(** X16. For a category with at least one source, [fetch_news] builds
    one task for each source, in order, with the name and the URL of the
    source and with its article pattern and pagination settings from the
    configuration. Every task gets the same limit, the larger of 5 and twice
    the requested limit divided by the number of sources; it is at most the
    larger of 5 and twice the requested limit, and the limits of all tasks
    add up to the requested limit or more. *)
Theorem every_source_gets_a_task_and_a_quota sources (request_limit : Z) :
  sources ≠ [] →
  let tasks := fetch_news_tasks sources request_limit in
  source_name <$> tasks = sources.*1
  ∧ category_url <$> tasks = sources.*2
  ∧ (∀ t, t ∈ tasks →
       limit t = limit_per_source request_limit (length sources)
       ∧ 5 ≤ limit t
       ∧ (0 ≤ request_limit → limit t ≤ Z.max 5 (2 * request_limit))
       ∧ article_pattern t = get_article_pattern (source_name t)
       ∧ pagination_buttons t = get_pagination_buttons (source_name t)
       ∧ pagination_type t = get_pagination_type (source_name t)
       ∧ pagination_param t = get_pagination_param (source_name t))
  ∧ request_limit ≤ total_limit tasks.
Proof.
  intros Hne tasks. subst tasks. unfold fetch_news_tasks.
  assert (1 ≤ length sources)%nat as Hn by (destruct sources; [done | cbn; lia]).
  split_and!.
  - rewrite <- list_fmap_compose. apply list_fmap_ext. by intros _ [name u] _.
  - rewrite <- list_fmap_compose. apply list_fmap_ext. by intros _ [name u] _.
  - intros t ([name u] & -> & _)%list_elem_of_fmap. cbn.
    split_and!; try done.
    + apply limit_per_source_at_least_5.
    + by apply limit_per_source_at_most.
  - rewrite (total_limit_replicate _ (limit_per_source request_limit (length sources))).
    + rewrite length_fmap. by apply limit_per_source_covers.
    + apply Forall_fmap, Forall_true. by intros [name u].
Qed.

Lemma table_get_None {A} (k : list N) (d : list (list N * A)) :
  table_get k d = None ↔ k ∉ d.*1.
Proof.
  induction d as [|[k' v] d IH]; cbn [table_get fmap list_fmap].
  - split; [|done]. intros _ ?%elem_of_nil. done.
  - rewrite not_elem_of_cons. cbn. unfold str_eqb. case_bool_decide; [|tauto].
    split; [done|]. intros [? _]. done.
Qed.

Lemma table_get_Some {A} (k : list N) (d : list (list N * A)) v :
  table_get k d = Some v → (k, v) ∈ d.
Proof.
  induction d as [|[k' v'] d IH]; cbn [table_get]; [done|].
  unfold str_eqb. case_bool_decide as Hk.
  - intros [= ->]. subst. left.
  - intros ?. right. by apply IH.
Qed.

(** Every entry of [CATEGORY_MAPPING] names at least one source, and each
    of its sources has an entry in [SOURCES] whose pagination can run. *)
Lemma category_mapping_configured :
  Forall (λ entry : list N * list (list N * list N),
            entry.2 ≠ []
            ∧ Forall (λ s : list N * list N, configured s.1) entry.2)
    CATEGORY_MAPPING.
Proof. apply (bool_decide_unpack _). vm_compute. exact I. Qed.

(** X17. [fetch_news] answers with the status 400 exactly for the
    categories that [list_categories] does not list. A listed category has at
    least one source, [list_categories] shows the names of its sources joined
    by commas, and each of its sources has an entry in [SOURCES] with an
    article pattern and a pagination that can run: by URL with a parameter
    name, or by button with a button text. *)
Theorem category_accepted_iff_listed category :
  (category ∉ get_categories ↔
     ∃ detail, fetch_news_sources category = inl (HTTPException 400 detail))
  ∧ (category ∈ get_categories ↔ category ∈ list_categories.*1)
  ∧ (category ∈ get_categories →
       ∃ sources,
         fetch_news_sources category = inr sources
         ∧ sources ≠ []
         ∧ (category, join (py ", ") sources.*1) ∈ list_categories
         ∧ ∀ name u, (name, u) ∈ sources →
             ∃ src, table_get name SOURCES = Some src
               ∧ get_article_pattern name = Some (categories.article_pattern src)
               ∧ get_pagination_type name = categories.pagination_type src
               ∧ usable_pagination src).
Proof.
  assert (∀ sources, table_get category CATEGORY_MAPPING = Some sources →
            sources ≠ []
            ∧ ∀ name u, (name, u) ∈ sources →
                ∃ src, table_get name SOURCES = Some src ∧ usable_pagination src)
    as Hconf.
  { intros sources Hs%table_get_Some.
    pose proof (proj1 (Forall_forall _ _) category_mapping_configured _ Hs) as [Hne Hall].
    split; [done|]. intros name u Hin.
    pose proof (proj1 (Forall_forall _ _) Hall _ Hin) as Hsrc.
    unfold configured in Hsrc. cbn [fst] in Hsrc.
    destruct (table_get name SOURCES) as [src|]; [|done]. by exists src. }
  assert (list_categories.*1 = get_categories) as Hkeys.
  { unfold list_categories. rewrite <- list_fmap_compose. apply list_fmap_id. }
  split_and!.
  - unfold get_categories. rewrite <- table_get_None.
    unfold fetch_news_sources, get_sources_for_category.
    destruct (table_get category CATEGORY_MAPPING) as [sources|] eqn:Hs.
    + destruct (Hconf sources eq_refl) as [Hne _].
      change (default [] (Some sources)) with sources.
      rewrite bool_decide_eq_false_2 by done. split; [done|]. by intros [? ?].
    + change (default [] None) with (@nil (list N * list N)).
      rewrite bool_decide_eq_true_2 by done. split; [|done]. intros _. by eexists.
  - by rewrite Hkeys.
  - intros Hin.
    destruct (table_get category CATEGORY_MAPPING) as [sources|] eqn:Hs.
    2:{ apply table_get_None in Hs. done. }
    destruct (Hconf sources eq_refl) as [Hne Hall].
    exists sources. split_and!; [|done| |].
    + unfold fetch_news_sources, get_sources_for_category. rewrite Hs.
      change (default [] (Some sources)) with sources.
      by rewrite bool_decide_eq_false_2 by done.
    + unfold list_categories. apply list_elem_of_fmap. exists category. split; [|done].
      unfold get_sources_for_category. by rewrite Hs.
    + intros name u Hu. destruct (Hall name u Hu) as (src & Hsrc & Hp).
      exists src. unfold get_article_pattern, get_pagination_type. rewrite Hsrc.
      by split_and!.
Qed.

Lemma filter_by_date_raises articles (date_from date_to : list N) :
  (∃ e, _filter_by_date articles date_from date_to = Raise e)
  ↔ Exists date_not_text articles.
Proof.
  induction articles as [|a articles IH]; cbn [_filter_by_date].
  - split; [by intros [e ?] | by intros ?%Exists_nil].
  - rewrite Exists_cons, <- IH. unfold date_not_text, date_of.
    destruct (a !! py "date_of_publication") as [v|] eqn:Hv.
    2:{ destruct (_filter_by_date articles date_from date_to) as [r|e]; cbn.
        - split; [by intros [e ?]|]. intros [(v & ? & _)|[e ?]]; done.
        - split; [intros _; right; by eexists | intros _; by eexists]. }
    destruct v as [|b|n|f|s|l|d];
      try (split; [intros _; left; eexists; by split_and! | intros _; by eexists]).
    + destruct (_filter_by_date articles date_from date_to) as [r|e]; cbn.
      * split; [by intros [e ?]|]. intros [(v & [= <-] & ? & _)|[e ?]]; done.
      * split; [intros _; right; by eexists | intros _; by eexists].
    + destruct (_filter_by_date articles date_from date_to) as [r|e]; cbn.
      * split; [by intros [e ?]|]. intros [(v & [= <-] & _ & Hs)|[e ?]]; [|done].
        by destruct (Hs s).
      * split; [intros _; right; by eexists | intros _; by eexists].
Qed.

(** X18. [_filter_by_date] raises exactly when some article has a date
    that is neither None nor a string, and what it raises is a TypeError; the
    filter step of [fetch_news] raises in the same cases. Otherwise the
    filter returns the articles that are undated or in range, in order. *)
Theorem result_filter_raises_iff_date_not_text
    articles (date_from date_to : list N) (request_limit : Z) :
  ((∃ e, _filter_by_date articles date_from date_to = Raise e)
   ↔ Exists date_not_text articles)
  ∧ ((∃ e, fetch_news_filter articles date_from date_to request_limit = Raise e)
     ↔ Exists date_not_text articles)
  ∧ (∀ e, _filter_by_date articles date_from date_to = Raise e →
       ∃ msg, e = Exn "TypeError" msg)
  ∧ (¬ Exists date_not_text articles →
       _filter_by_date articles date_from date_to
       = Ok (List.filter (kept date_from date_to) articles)).
Proof.
  split_and!.
  - apply filter_by_date_raises.
  - rewrite <- (filter_by_date_raises articles date_from date_to).
    unfold fetch_news_filter.
    destruct (_filter_by_date articles date_from date_to) as [r|e]; cbn.
    + split; by intros [e ?].
    + split; intros _; by eexists.
  - induction articles as [|a articles IH]; cbn [_filter_by_date]; [done|].
    intros e.
    destruct (a !! py "date_of_publication") as [[|b|n|f|s|l|d]|];
      try (intros [= <-]; by eexists);
      destruct (_filter_by_date articles date_from date_to) as [r|e']; cbn; try done;
      intros [= <-]; by apply IH.
  - intros Hno. apply filter_by_date_ok. apply Forall_forall. intros a Ha.
    unfold undated, dated, date_of.
    destruct (a !! py "date_of_publication") as [v|] eqn:Hv; [|by left; left].
    destruct v as [|b|n|f|s|l|d]; try (by left; right); try (right; by eexists);
      destruct Hno; apply Exists_exists; exists a; (split; [done|]);
      unfold date_not_text, date_of; eexists; by split_and!.
Qed.

End Handler.

(** ** From the model to the result filter *)

Section ModelDate.

Import mistral_service news.

Variable mistral : nat → list N → Res (list N).
Variable json_loads : list N → option pyval.
Variable lower : list N → list N.
Variable re_digit : N → bool.

Local Abbreviation extract := (extract_article_with_mistral mistral json_loads lower re_digit).
Local Abbreviation call := (_call_mistral_with_retry mistral lower).

Lemma of_option_text (o : option (list N)) :
  of_option o = PNone ∨ ∃ s, of_option o = PStr s.
Proof. destruct o; [right; by eexists | by left]. Qed.

(** X19. From the model to the result filter: an article makes
    [_filter_by_date] raise exactly when the date in the object the model
    answered with is truthy and is no string (a number, say), since
    [extract_article_with_mistral] keeps such a date as it is; a date that is
    falsy is replaced by the date of the URL or by None, and the filter
    accepts the article. *)
Theorem model_date_that_is_no_text_fails_the_filter
    raw_text category source_url source_name image_url w art w'
    (date_from date_to : list N) :
  extract raw_text category source_url source_name image_url w = (Ok (Some art), w') →
  ∃ response data,
    call (format_prompt (take 8000 raw_text) source_url) 5 w = (Ok response, w')
    ∧ json_loads (unfence response) = Some (PDict data)
    ∧ ((∃ e, _filter_by_date [art] date_from date_to = Raise e)
       ↔ truthy (dict_get "date_of_publication" data) = true
         ∧ ∀ s, dict_get "date_of_publication" data ≠ PStr s)
    ∧ (truthy (dict_get "date_of_publication" data) = false →
       ∃ kept, _filter_by_date [art] date_from date_to = Ok kept).
Proof.
  intros H.
  apply (extract_produces mistral json_loads lower re_digit) in H
    as (response & parsed & Hcall & Hp & Hf).
  apply (parse_accepts json_loads) in Hp as (data & c & Hj & _ & _ & _ & _ & _ & _ & Hdate & _).
  apply (finish_fields json_loads lower re_digit) in Hf as (_ & _ & _ & _ & Hd & _).
  assert (art !! py "date_of_publication"
          = Some (if truthy (dict_get "date_of_publication" data)
                  then dict_get "date_of_publication" data
                  else of_option (_extract_date_from_url re_digit source_url))) as Hart.
  { rewrite Hd. unfold dict_get at 1 2. by rewrite Hdate. }
  clear Hd Hdate.
  exists response, data. split_and!; [done..| |];
    revert Hart; generalize (dict_get "date_of_publication" data); intros v Hart.
  - rewrite (filter_by_date_raises [art] date_from date_to), Exists_cons, Exists_nil.
    unfold date_not_text, date_of. rewrite Hart.
    destruct (truthy v) eqn:Ht.
    + split.
      * intros [(v' & [= <-] & _ & Hs)|[]]. by split.
      * intros [_ Hs]. left. exists v. split_and!; [done| |done].
        intros Hn. rewrite Hn in Ht. done.
    + split; [|by intros [? _]].
      intros [(v' & [= <-] & Hn & Hs)|[]].
      destruct (of_option_text (_extract_date_from_url re_digit source_url)) as [?|[s ?]];
        [done | by destruct (Hs s)].
  - intros Ht. cbn [_filter_by_date]. rewrite Hart, Ht.
    destruct (of_option_text (_extract_date_from_url re_digit source_url)) as [->|[s ->]];
      cbn; by eexists.
Qed.

End ModelDate.

(** The five sources of the category sport, asked for fifty articles:
    twenty each. *)
Lemma source_tasks_witness :
  let tasks :=
    news.fetch_news_tasks (categories.get_sources_for_category (py "sport")) 50 in
  news.source_name <$> tasks = (categories.get_sources_for_category (py "sport")).*1
  ∧ news.category_url <$> tasks = (categories.get_sources_for_category (py "sport")).*2
  ∧ (∀ t, t ∈ tasks →
       news.limit t
       = news.limit_per_source 50
           (length (categories.get_sources_for_category (py "sport")))
       ∧ 5 ≤ news.limit t
       ∧ (0 ≤ 50 → news.limit t ≤ Z.max 5 (2 * 50))
       ∧ news.article_pattern t = categories.get_article_pattern (news.source_name t)
       ∧ news.pagination_buttons t
         = categories.get_pagination_buttons (news.source_name t)
       ∧ news.pagination_type t = categories.get_pagination_type (news.source_name t)
       ∧ news.pagination_param t = categories.get_pagination_param (news.source_name t))
  ∧ 50 ≤ total_limit tasks.
Proof.
  apply (every_source_gets_a_task_and_a_quota
           (categories.get_sources_for_category (py "sport")) 50).
  discriminate.
Defined.

(** A model that writes the date as the number 20260131: the article is
    produced with that number, and the result filter raises on it. *)
Lemma numeric_date_witness :
  ∃ response data,
    mistral_service._call_mistral_with_retry
      (Examples.answers (Examples.json_text (py "Sarlavha") Examples.short_content))
      ascii_lower
      (mistral_service.format_prompt (take 8000 Examples.article_text) Examples.article_url)
      5 Examples.world0
    = (Ok response,
       mkWorld [] [mistral_service.format_prompt (take 8000 Examples.article_text)
                     Examples.article_url] [])
    ∧ Examples.loads_as (PDict Examples.numeric_date_object)
        (mistral_service.unfence response) = Some (PDict data)
    ∧ ((∃ e, news._filter_by_date
               [Examples.produced_article (py "Sarlavha") Examples.short_content
                  (PInt 20260131)]
               (py "2026-01-01") (py "2026-12-31") = Raise e)
       ↔ truthy (dict_get "date_of_publication" data) = true
         ∧ ∀ s, dict_get "date_of_publication" data ≠ PStr s)
    ∧ (truthy (dict_get "date_of_publication" data) = false →
       ∃ kept, news._filter_by_date
                 [Examples.produced_article (py "Sarlavha") Examples.short_content
                    (PInt 20260131)]
                 (py "2026-01-01") (py "2026-12-31") = Ok kept).
Proof.
  apply (model_date_that_is_no_text_fails_the_filter
           (Examples.answers (Examples.json_text (py "Sarlavha") Examples.short_content))
           (Examples.loads_as (PDict Examples.numeric_date_object))
           ascii_lower is_ascii_digit
           Examples.article_text (py "sport") Examples.article_url (py "kun.uz") None
           Examples.world0).
  by_evaluation.
Defined.
